(** * glscopeclient: waveform loading, trigger coordination and filter scheduling

    A shallow embedding of the algorithmic core of [OscilloscopeWindow]:

    - [Codec]: the per-channel body decoder [DoLoadWaveformDataForScope]
      (formats sparsev1 and densev1) and the progress loop of
      [LoadWaveformDataForScope] that waits for the per-channel loaders;
    - [Trigger]: [HasOnlineScopes], [CheckForPendingWaveforms], [OnStop],
      [OnStart] and [ArmTrigger], run against instruments whose answers are
      supplied by an oracle and whose calls are recorded in a trace;
    - [Scheduler]: the block-leveling loop of [RefreshAllFilters];
    - [Rename]: the recursion of [OnChannelRenamed] over the same graph;
    - [Session]: the recently used instruments
      ([AddCurrentToRecentlyUsedList], [RefreshInstrumentMenu]) and the
      names of the session file and its data directory;
    - [Saving]: the decisions of [OnFileSave].

    [Codec] also holds the newest-time tracking of
    [LoadWaveformDataForScope], the block-wise file read and the span loop of
    [OnAutofitHorizontal]; [Trigger] also holds [DownloadWaveforms] and the
    waveform-time window of [OnTimer].

    Conventions.  [size_t] quantities are [nat]; [int64_t] values are [Z] with
    the two's-complement wrap written out; a [float] sample is kept as its
    32-bit IEEE-754 pattern (the decoder only copies it); a [bool] sample is
    kept as the byte that represents it; a [double] wall-clock time is an
    IEEE-754 binary64 value, subtracted and compared as the processor does.
    Loops that the source does not bound take fuel and return [None] when it
    runs out; a read outside a vector is undefined behaviour and also gives
    [None], and no property is asserted of a run that contains one. *)

From Stdlib Require Import ZArith Lia.
From Stdlib Require Import SpecFloat.
From Stdlib Require Import Init.Byte.
From Stdlib Require OrderedTypeEx.
From stdpp Require Import gmap list strings relations sorting.

#[local] Open Scope Z_scope.

(* ===================================================================== *)
(** * Waveform body decoding                                              *)
(* ===================================================================== *)

Module Codec.

(** ** Waveforms *)

(** [AnalogWaveform] holds [float] samples, [DigitalWaveform] holds [bool]
    samples; the two [dynamic_cast]s of the loader become a case analysis. *)
Inductive SampleVector :=
  | AnalogSamples (v : list Z)
  | DigitalSamples (v : list byte).

Record WaveformBase := mkWaveform {
  m_timescale : Z;
  m_startTimestamp : Z;
  m_startFemtoseconds : Z;
  m_triggerPhase : Z;
  m_offsets : list Z;
  m_durations : list Z;
  m_densePacked : bool;
  m_samples : SampleVector
}.

Definition acap (cap : WaveformBase) : bool :=
  match m_samples cap with AnalogSamples _ => true | DigitalSamples _ => false end.

Definition sample_count (cap : WaveformBase) : nat :=
  match m_samples cap with
  | AnalogSamples v => length v
  | DigitalSamples v => length v
  end.

Definition set_offsets (v : list Z) (cap : WaveformBase) : WaveformBase :=
  mkWaveform (m_timescale cap) (m_startTimestamp cap) (m_startFemtoseconds cap)
    (m_triggerPhase cap) v (m_durations cap) (m_densePacked cap) (m_samples cap).

Definition set_durations (v : list Z) (cap : WaveformBase) : WaveformBase :=
  mkWaveform (m_timescale cap) (m_startTimestamp cap) (m_startFemtoseconds cap)
    (m_triggerPhase cap) (m_offsets cap) v (m_densePacked cap) (m_samples cap).

Definition set_densePacked (b : bool) (cap : WaveformBase) : WaveformBase :=
  mkWaveform (m_timescale cap) (m_startTimestamp cap) (m_startFemtoseconds cap)
    (m_triggerPhase cap) (m_offsets cap) (m_durations cap) b (m_samples cap).

Definition set_samples (s : SampleVector) (cap : WaveformBase) : WaveformBase :=
  mkWaveform (m_timescale cap) (m_startTimestamp cap) (m_startFemtoseconds cap)
    (m_triggerPhase cap) (m_offsets cap) (m_durations cap) (m_densePacked cap) s.

(** Modelled from the spec: [WaveformBase::Resize] is declared with the
    waveform classes, outside these sources.  The offset, duration and value
    sequences of a waveform are parallel in length, so [cap->Resize(n)]
    brings all three to length [n], as [std::vector::resize] does (kept
    prefix, value-initialised growth). *)
Definition Resize (n : nat) (cap : WaveformBase) : WaveformBase :=
  set_samples
    (match m_samples cap with
     | AnalogSamples v => AnalogSamples (resize n 0 v)
     | DigitalSamples v => DigitalSamples (resize n x00 v)
     end)
    (set_durations (resize n 0 (m_durations cap))
       (set_offsets (resize n 0 (m_offsets cap)) cap)).

(** ** Reading the byte buffer *)

Definition byte_val (b : byte) : Z := Z.of_N (Byte.to_N b).

(** Little-endian value of a run of bytes. *)
Fixpoint le_value (bs : list byte) : Z :=
  match bs with
  | [] => 0
  | b :: rest => byte_val b + 256 * le_value rest
  end.

Definition bytes_at (buf : list byte) (off n : nat) : list byte :=
  take n (drop off buf).

(** Reinterpretation of an unsigned 64-bit pattern as [int64_t]. *)
Definition as_int64 (u : Z) : Z :=
  if u <? 2 ^ 63 then u else u - 2 ^ 64.

(** Conversion of an integer to [int64_t] (wraps modulo 2^64). *)
Definition to_int64 (z : Z) : Z := as_int64 (z mod 2 ^ 64).

(** [reinterpret_cast<int64_t*>(buf+off)[k]] *)
Definition load_int64 (buf : list byte) (off k : nat) : Z :=
  as_int64 (le_value (bytes_at buf (off + 8 * k) 8)).

(** [*reinterpret_cast<float*>(buf+off)], as a bit pattern *)
Definition load_float (buf : list byte) (off : nat) : Z :=
  le_value (bytes_at buf off 4).

(** [*reinterpret_cast<bool*>(buf+off)], as the representing byte *)
Definition load_bool (buf : list byte) (off : nat) : byte :=
  default x00 (buf !! off).

Definition sizeof_int64 : nat := 8.
Definition sizeof_float : nat := 4.
Definition sizeof_bool : nat := 1.

(** ** sparsev1 *)

(** [samplesize]: two [int64_t] plus a [float] or a [bool]. *)
Definition samplesize (cap : WaveformBase) : nat :=
  (2 * sizeof_int64 + (if acap cap then sizeof_float else sizeof_bool))%nat.

(** Body of the record loop for index [j]. *)
Definition sparse_read_sample (buf : list byte) (ssize : nat)
    (cap : WaveformBase) (j : nat) : WaveformBase :=
  let offset := (j * ssize)%nat in
  let stime0 := load_int64 buf offset 0 in
  let stime1 := load_int64 buf offset 1 in
  let offset := (offset + 2 * sizeof_int64)%nat in
  let cap := set_offsets (<[j := stime0]> (m_offsets cap)) cap in
  let cap := set_durations (<[j := stime1]> (m_durations cap)) cap in
  match m_samples cap with
  | AnalogSamples v =>
      set_samples (AnalogSamples (<[j := load_float buf offset]> v)) cap
  | DigitalSamples v =>
      set_samples (DigitalSamples (<[j := load_bool buf offset]> v)) cap
  end.

(** Lines 1512-1544: count the records, resize, read each record. *)
Definition sparse_read_records (buf : list byte) (cap : WaveformBase)
    : WaveformBase :=
  let ssize := samplesize cap in
  let nsamples := (length buf / ssize)%nat in
  let cap := Resize nsamples cap in
  foldl (sparse_read_sample buf ssize) cap (seq 0 nsamples).

(** [v[i]] for an [int64_t] index on a vector: defined only inside the
    vector. *)
Definition vec_at (v : list Z) (i : Z) : option Z :=
  if i <? 0 then None else v !! Z.to_nat i.

(** The two vectors the endpoint check reads. *)
Inductive Vector := Offsets | Durations.

#[global] Instance Vector_eq_dec : EqDecision Vector.
Proof. solve_decision. Defined.

Definition vector (which : Vector) (cap : WaveformBase) : list Z :=
  match which with
  | Offsets => m_offsets cap
  | Durations => m_durations cap
  end.

(** A computation that reads vector elements: the reads it makes, in order,
    each as the vector and the index, and its result, which is [None] when
    the last read was outside its vector (undefined from there on). *)
Definition Reads (A : Type) : Type := list (Vector * Z) * option A.

Definition result {A} (a : A) : Reads A := ([], Some a).

(** [which[i]], then the rest of the computation with the element. *)
Definition read_at {A} (cap : WaveformBase) (which : Vector) (i : Z)
    (rest : Z -> Reads A) : Reads A :=
  match vec_at (vector which cap) i with
  | Some x => let r := rest x in ((which, i) :: r.1, r.2)
  | None => ([(which, i)], None)
  end.

(** Lines 1546-1554: the endpoint check.  [&&] evaluates left to right and
    stops at the first false operand. *)
Definition endpoint_check (nsamples : nat) (cap : WaveformBase)
    : Reads WaveformBase :=
  let nlast := to_int64 (Z.of_nat nsamples - 1) in
  read_at cap Offsets 0 (fun o0 =>
  if negb (o0 =? 0) then result cap else
  read_at cap Offsets nlast (fun ol =>
  if negb (ol =? nlast) then result cap else
  read_at cap Durations nlast (fun dl =>
  if negb (dl =? 1) then result cap else
  result (set_densePacked true cap)))).

(** What the check leaves of the waveform. *)
Definition sparse_dense_check (nsamples : nat) (cap : WaveformBase)
    : option WaveformBase :=
  (endpoint_check nsamples cap).2.

Definition load_sparsev1 (buf : list byte) (cap : WaveformBase)
    : option WaveformBase :=
  let nsamples := (length buf / samplesize cap)%nat in
  sparse_dense_check nsamples (sparse_read_records buf cap).

(** The vector elements the endpoint check of a decode reads. *)
Definition endpoint_reads (buf : list byte) (cap : WaveformBase)
    : list (Vector * Z) :=
  let nsamples := (length buf / samplesize cap)%nat in
  (endpoint_check nsamples (sparse_read_records buf cap)).1.

(** ** densev1 *)

(** [memcpy(&m_samples[0], buf, nsamples*sizeof(T))] followed by the loop
    that fills [m_offsets[i] = i], [m_durations[i] = 1]. *)
Definition dense_copy_samples (buf : list byte) (nsamples : nat)
    (cap : WaveformBase) : WaveformBase :=
  match m_samples cap with
  | AnalogSamples v =>
      set_samples
        (AnalogSamples
           (foldl (fun v i => <[i := load_float buf (i * sizeof_float)]> v)
              v (seq 0 nsamples))) cap
  | DigitalSamples v =>
      set_samples
        (DigitalSamples
           (foldl (fun v i => <[i := load_bool buf (i * sizeof_bool)]> v)
              v (seq 0 nsamples))) cap
  end.

Definition dense_fill_times (cap : WaveformBase) (i : nat) : WaveformBase :=
  set_durations (<[i := 1]> (m_durations cap))
    (set_offsets (<[i := to_int64 (Z.of_nat i)]> (m_offsets cap)) cap).

Definition load_densev1 (buf : list byte) (cap : WaveformBase)
    : WaveformBase :=
  let cap := set_densePacked true cap in
  let nsamples :=
    (if acap cap then length buf / sizeof_float
     else length buf / sizeof_bool)%nat in
  let cap := Resize nsamples cap in
  let cap := dense_copy_samples buf nsamples cap in
  foldl dense_fill_times cap (seq 0 nsamples).

(** ** The per-channel loader *)

Inductive LogLine :=
  | LogError (msg : string)
  | LogWarning (msg : string).

(** What one loader thread leaves behind: the channel's waveform, the two
    cells [*progress] and [*done] it was given, and its log lines. *)
Record LoaderState := mkLoader {
  ld_cap : WaveformBase;
  ld_progress : Z;
  ld_done : Z;
  ld_log : list LogLine
}.

(** [DoLoadWaveformDataForScope] (POSIX path).  [file] is what [open] finds
    at the body path: [None] when the file cannot be opened, otherwise its
    bytes.  The cells start at 0, as the caller initialises them.  The result
    is [None] when the run reads outside a vector: its behaviour is undefined
    then, and nothing is said about what it leaves behind. *)
Definition DoLoadWaveformDataForScope (file : option (list byte))
    (format : string) (cap : WaveformBase) : option LoaderState :=
  match file with
  | None =>
      (* LogError; return *)
      Some (mkLoader cap 0 0 [LogError "couldn't open"])
  | Some buf =>
      if bool_decide (format = "sparsev1") then
        cap' ← load_sparsev1 buf cap;
        Some (mkLoader cap' 1 1 [])
      else if bool_decide (format = "densev1") then
        Some (mkLoader (load_densev1 buf cap) 1 1 [])
      else
        Some (mkLoader cap 1 1 [LogError "Unknown waveform format"])
  end.

(** ** Waiting for the loaders *)

(** One pass of the progress loop over [channel_done]: [done] stays true
    only if every cell is non-zero. *)
Definition all_done (channel_done : list Z) : bool :=
  forallb (fun d => negb (d =? 0)) channel_done.

(** The [while(true)] loop of [LoadWaveformDataForScope] (lines 1364-1393).
    [snapshot k] is the content of [channel_done] seen by pass [k]; the
    result is the number of the pass that breaks out. *)
Fixpoint wait_for_loaders (fuel : nat) (snapshot : nat -> list Z) (k : nat)
    : option nat :=
  match fuel with
  | O => None
  | S fuel' =>
      if all_done (snapshot k) then Some k
      else wait_for_loaders fuel' snapshot (S k)
  end.

(** The cell of loader [i] as pass [k] sees it: 0 until the thread has
    finished (it finishes before pass [finish i]), then whatever the thread
    stored.  [results] is what the loaders leave behind. *)
Definition done_cells (results : list LoaderState)
    (finish : nat -> nat) (k : nat) : list Z :=
  imap (fun i st => if (finish i <=? k)%nat then ld_done st else 0) results.

(** What a waveform event comes to: the progress loop broke out and the
    loaders left [results]; or the loop is still running when the fuel is
    used up; or a loader read outside a vector. *)
Inductive LoadOutcome :=
  | Loaded (results : list LoaderState)
  | StillWaiting
  | Undefined.

(** One waveform of [LoadWaveformDataForScope]: a loader per channel, then
    the progress loop.  [channels] lists, per channel, the file found, the
    format tag and the freshly installed waveform.  A loader thread whose
    behaviour is undefined leaves the behaviour of the program undefined. *)
Definition load_one_waveform (fuel : nat) (finish : nat -> nat)
    (channels : list (option (list byte) * string * WaveformBase))
    : LoadOutcome :=
  match mapM (fun '(file, format, cap) =>
                DoLoadWaveformDataForScope file format cap) channels with
  | None => Undefined
  | Some results =>
      match wait_for_loaders fuel (done_cells results finish) 0 with
      | Some _ => Loaded results
      | None => StillWaiting
      end
  end.

(** ** The sparsev1 record, in the words of the format description

    A record is two 8-byte signed integers (offset, duration) followed by a
    4-byte float (analog) or a 1-byte boolean (digital).  [record_bytes]
    cuts record [j] out of the buffer; the accessors below read its fields. *)

Definition record_size (analog : bool) : nat :=
  if analog then (16 + 4)%nat else (16 + 1)%nat.

Definition record_bytes (rsize : nat) (buf : list byte) (j : nat) : list byte :=
  take rsize (drop (j * rsize) buf).

Definition record_offset (r : list byte) : Z :=
  as_int64 (le_value (take 8 r)).

Definition record_duration (r : list byte) : Z :=
  as_int64 (le_value (take 8 (drop 8 r))).

Definition record_analog_value (r : list byte) : Z :=
  le_value (take 4 (drop 16 r)).

Definition record_digital_value (r : list byte) : byte :=
  default x00 (r !! 16%nat).

Definition analog_sample (cap : WaveformBase) (j : nat) : option Z :=
  match m_samples cap with
  | AnalogSamples v => v !! j
  | DigitalSamples _ => None
  end.

Definition digital_sample (cap : WaveformBase) (j : nat) : option byte :=
  match m_samples cap with
  | AnalogSamples _ => None
  | DigitalSamples v => v !! j
  end.

(** ** The sample-time invariant and dense packing

    Offsets do not decrease and a sample ends no later than the next one
    starts.  A gap is a pair of neighbours that do not touch.  A waveform is
    dense when every offset is its index and every duration is 1. *)

Definition monotonic (cap : WaveformBase) : Prop :=
  forall i a b, m_offsets cap !! i = Some a -> m_offsets cap !! S i = Some b ->
    a <= b.

Definition non_overlapping (cap : WaveformBase) : Prop :=
  forall i a d b,
    m_offsets cap !! i = Some a -> m_durations cap !! i = Some d ->
    m_offsets cap !! S i = Some b -> a + d <= b.

Definition has_gap (cap : WaveformBase) : Prop :=
  exists i a d b,
    m_offsets cap !! i = Some a /\ m_durations cap !! i = Some d /\
    m_offsets cap !! S i = Some b /\ a + d < b.

Definition has_overlap (cap : WaveformBase) : Prop :=
  exists i a d b,
    m_offsets cap !! i = Some a /\ m_durations cap !! i = Some d /\
    m_offsets cap !! S i = Some b /\ b < a + d.

Definition positive_durations (cap : WaveformBase) : Prop :=
  forall i d, m_durations cap !! i = Some d -> 1 <= d.

Definition dense (cap : WaveformBase) : Prop :=
  forall i, (i < length (m_offsets cap))%nat ->
    m_offsets cap !! i = Some (Z.of_nat i) /\ m_durations cap !! i = Some 1.

(** The endpoint condition of the check, on a waveform of [n] samples. *)
Definition endpoints_dense (cap : WaveformBase) : Prop :=
  let nlast := (length (m_offsets cap) - 1)%nat in
  m_offsets cap !! 0%nat = Some 0 /\
  m_offsets cap !! nlast = Some (Z.of_nat nlast) /\
  m_durations cap !! nlast = Some 1.

(** ** Concrete inputs

    The waveform that [LoadWaveformDataForScope] installs before the loaders
    run: empty vectors, and the dense flag not set. *)

Definition empty_analog : WaveformBase :=
  mkWaveform 1 0 0 0 [] [] false (AnalogSamples []).

Definition empty_digital : WaveformBase :=
  mkWaveform 1 0 0 0 [] [] false (DigitalSamples []).

(** One analog record (offset 0, duration 1, value 1.5) and four stray
    bytes. *)
Definition one_sample_buffer : list byte :=
  [x00; x00; x00; x00; x00; x00; x00; x00;
   x01; x00; x00; x00; x00; x00; x00; x00;
   x00; x00; xc0; x3f;
   xff; xff; xff; xff].

Definition digital_record (offset duration value : byte) : list byte :=
  [offset; x00; x00; x00; x00; x00; x00; x00;
   duration; x00; x00; x00; x00; x00; x00; x00;
   value].

(** Three digital records with offsets 0, 1, 2 and durations 0, 1, 1. *)
Definition zero_duration_buffer : list byte :=
  digital_record x00 x00 x01 ++ digital_record x01 x01 x00
  ++ digital_record x02 x01 x01.

(** A waveform event with two analog channels; the body file of the first
    cannot be opened. *)
Definition missing_file_channels
    : list (option (list byte) * string * WaveformBase) :=
  [(None, "sparsev1", empty_analog);
   (Some one_sample_buffer, "sparsev1", empty_analog)].

(** ** The newest waveform

    [LoadWaveformDataForScope] keeps the time of the newest waveform of the
    file (lines 1408-1413): a [TimePoint] is a pair of seconds and
    femtoseconds, [newest] starts as (0, 0) and is replaced by the time of a
    waveform that is later. *)

Definition TimePoint : Type := Z * Z.

Definition later (time newest : TimePoint) : bool :=
  (newest.1 <? time.1) || ((time.1 =? newest.1) && (newest.2 <? time.2)).

Definition track_newest (times : list TimePoint) : TimePoint :=
  foldl (fun newest time => if later time newest then time else newest)
    (0, 0) times.

(** ** The longest waveform of a group

    The loop of [OnAutofitHorizontal] (lines 2703-2715) over the waveforms
    shown in a group: a waveform with fewer than two samples is skipped, the
    others contribute the span from the first offset to the end of the last
    sample, in timebase units scaled by [m_timescale].  A read outside a
    vector gives [None]. *)

Definition autofit_step (duration : Z) (w : WaveformBase) : option Z :=
  let len := length (m_offsets w) in
  if (len <? 2)%nat then Some duration
  else
    let last := (len - 1)%nat in
    oe ← m_offsets w !! last;
    de ← m_durations w !! last;
    o0 ← m_offsets w !! 0%nat;
    let delta := to_int64 (to_int64 (oe + de) - o0) in
    Some (Z.max duration (to_int64 (delta * m_timescale w))).

Definition autofit_duration (wfms : list WaveformBase) : option Z :=
  foldl (fun acc w => d ← acc; autofit_step d w) (Some 0) wfms.

(** Three dense analog samples. *)
Definition three_sample_buffer : list byte :=
  [x00; x00; x80; x3f;  x00; x00; x00; x40;  x00; x00; x40; x40].


(** ** File images, in the words of the format description

    A sparsev1 file is the sequence of its records, each an offset and a
    duration as 8-byte integers followed by the value (4 bytes analog, 1 byte
    digital); a densev1 file is the sequence of the values.  Integers are
    little-endian, negative ones in two's complement. *)

Definition byte_of (z : Z) : byte :=
  default x00 (Byte.of_N (Z.to_N (z mod 256))).

Fixpoint le_bytes (k : nat) (z : Z) : list byte :=
  match k with
  | O => []
  | S k' => byte_of z :: le_bytes k' (z / 256)
  end.

Definition value_size (analog : bool) : nat :=
  if analog then sizeof_float else sizeof_bool.

(** The record of a sample (offset, duration, value). *)
Definition sparse_record (analog : bool) (s : Z * Z * Z) : list byte :=
  le_bytes 8 s.1.1 ++ le_bytes 8 s.1.2 ++ le_bytes (value_size analog) s.2.

Definition sparse_image (analog : bool) (samples : list (Z * Z * Z))
    : list byte :=
  concat (map (sparse_record analog) samples).

Definition dense_image (analog : bool) (values : list Z) : list byte :=
  concat (map (le_bytes (value_size analog)) values).

(** The sample vector that holds the given values. *)
Definition sample_vector (analog : bool) (values : list Z) : SampleVector :=
  if analog then AnalogSamples values
  else DigitalSamples (map byte_of values).


(** ** Reading the body file in blocks

    Where the file is not memory-mapped (lines 1462-1491) it is read a
    megabyte at a time.  Each element of the result is one [fread]: the
    offset in the buffer it reads to and the number of bytes it asks for;
    the progress stored before the read is that offset divided by the file
    length. *)

Definition megabyte : Z := 1024 * 1024.

Fixpoint read_loop (fuel : nat) (len_remaining blocksize read_offset : Z)
    : option (list (Z * Z)) :=
  if 0 <? len_remaining then
    match fuel with
    | O => None
    | S fuel' =>
        let blocksize :=
          if len_remaining <? blocksize then len_remaining else blocksize in
        rest ← read_loop fuel' (len_remaining - blocksize) blocksize
                 (read_offset + blocksize);
        Some ((read_offset, blocksize) :: rest)
    end
  else Some [].

Definition read_in_blocks (fuel : nat) (len : Z) : option (list (Z * Z)) :=
  read_loop fuel len megabyte 0.


(** An analog waveform that has been used before: three stale samples, and
    the dense flag set. *)
Definition used_analog : WaveformBase :=
  mkWaveform 1 0 0 0 [7; 8; 9] [1; 1; 1] true (AnalogSamples [1; 2; 3]).


(** An analog record cut one byte short: no complete record. *)
Definition partial_record_buffer : list byte := replicate 19 x00.

(** Two analog records with offsets 5 and 6 and duration 1. *)
Definition late_start_buffer : list byte :=
  sparse_image true [(5, 1, 0); (6, 1, 0)].

End Codec.

(* ===================================================================== *)
(** * Trigger coordination                                                *)
(* ===================================================================== *)

Module Trigger.

Inductive TriggerType :=
  | TRIGGER_TYPE_SINGLE
  | TRIGGER_TYPE_FORCED
  | TRIGGER_TYPE_AUTO
  | TRIGGER_TYPE_NORMAL.

(** Member functions of [Oscilloscope] that the window calls. *)
Inductive Call :=
  | IsOffline
  | HasPendingWaveforms
  | PeekTriggerArmed
  | Stop
  | Start
  | StartSingleTrigger
  | ForceTrigger
  | ClearPendingWaveforms
  | IDPing.

#[global] Instance Call_eq_dec : EqDecision Call.
Proof. solve_decision. Defined.

Inductive Event :=
  | ScopeCall (i : nat) (c : Call)
  | Warning (msg : string)
  | Error (msg : string).

#[global] Instance Event_eq_dec : EqDecision Event.
Proof. solve_decision. Defined.

(** ** Wall-clock times

    [GetTime()] returns a [double], and the two timeouts subtract and compare
    [double]s (lines 3046-3047 and 3443).  A [double] is a binary64 value of
    IEEE 754: zero, infinity, NaN, or a sign, a mantissa and an exponent;
    subtraction rounds to nearest, ties to even, and a comparison with NaN is
    false. *)
Definition double : Type := spec_float.

Definition double_sub (x y : double) : double := SFsub 53 1024 x y.

Definition double_div (x y : double) : double := SFdiv 53 1024 x y.

Definition double_ltb (x y : double) : bool := SFltb x y.

(** Conversion of an integer constant, as in [twait > 1]. *)
Definition double_of_Z (z : Z) : double := binary_normalize 53 1024 z 0 false.

(** The [double] nearest to [n]/10, which is what the decimal literal
    denotes. *)
Definition tenths (n : Z) : double :=
  double_div (double_of_Z n) (double_of_Z 10).

(** The instruments are outside the program.  [m_scopes] has [nscopes]
    entries, addressed by index; what entry [i] answers is given by an
    oracle: [offline i] is its [IsOffline()], [pending i k] is what it
    answers if the [k]-th [HasPendingWaveforms] call of the run is made on
    it, [armed i k] likewise for [PeekTriggerArmed], and [clock k] is the
    [k]-th reading of [GetTime()]. *)
Record Instruments := mkInstruments {
  nscopes : nat;
  offline : nat -> bool;
  pending : nat -> nat -> bool;
  armed : nat -> nat -> bool;
  clock : nat -> double
}.

(** The trigger fields of [OscilloscopeWindow], the number of oracle
    questions asked so far, and the calls made so far (oldest first). *)
Record Window := mkWindow {
  m_triggerArmed : bool;
  m_triggerOneShot : bool;
  m_multiScopeFreeRun : bool;
  m_tPrimaryTrigger : double;
  m_tArm : double;
  n_pending : nat;
  n_armed : nat;
  n_clock : nat;
  trace : list Event
}.

(** Computations over the window; [None] is a loop out of fuel. *)
Definition M (A : Type) : Type := Window -> option (A * Window).

Definition ret {A} (a : A) : M A := fun w => Some (a, w).

Definition bind {A B} (m : M A) (f : A -> M B) : M B :=
  fun w => match m w with
           | Some (a, w') => f a w'
           | None => None
           end.

Definition out_of_fuel {A} : M A := fun _ => None.

Notation "'do' x <- m ; k" := (bind m (fun x => k))
  (at level 10, x name, m at level 100, k at level 200).

Definition emit (e : Event) : M unit := fun w =>
  Some (tt, mkWindow (m_triggerArmed w) (m_triggerOneShot w)
              (m_multiScopeFreeRun w) (m_tPrimaryTrigger w) (m_tArm w)
              (n_pending w) (n_armed w) (n_clock w) (trace w ++ [e])).

Definition set_triggerArmed (b : bool) : M unit := fun w =>
  Some (tt, mkWindow b (m_triggerOneShot w) (m_multiScopeFreeRun w)
              (m_tPrimaryTrigger w) (m_tArm w)
              (n_pending w) (n_armed w) (n_clock w) (trace w)).

Definition set_triggerOneShot (b : bool) : M unit := fun w =>
  Some (tt, mkWindow (m_triggerArmed w) b (m_multiScopeFreeRun w)
              (m_tPrimaryTrigger w) (m_tArm w)
              (n_pending w) (n_armed w) (n_clock w) (trace w)).

Definition set_multiScopeFreeRun (b : bool) : M unit := fun w =>
  Some (tt, mkWindow (m_triggerArmed w) (m_triggerOneShot w) b
              (m_tPrimaryTrigger w) (m_tArm w)
              (n_pending w) (n_armed w) (n_clock w) (trace w)).

Definition set_tPrimaryTrigger (t : double) : M unit := fun w =>
  Some (tt, mkWindow (m_triggerArmed w) (m_triggerOneShot w)
              (m_multiScopeFreeRun w) t (m_tArm w)
              (n_pending w) (n_armed w) (n_clock w) (trace w)).

Definition set_tArm (t : double) : M unit := fun w =>
  Some (tt, mkWindow (m_triggerArmed w) (m_triggerOneShot w)
              (m_multiScopeFreeRun w) (m_tPrimaryTrigger w) t
              (n_pending w) (n_armed w) (n_clock w) (trace w)).

Definition get {A} (field : Window -> A) : M A := fun w => Some (field w, w).

Section WithInstruments.

Variable env : Instruments.

(** A call that returns nothing of interest. *)
Definition call (i : nat) (c : Call) : M unit := emit (ScopeCall i c).

Definition scope_IsOffline (i : nat) : M bool :=
  do _ <- call i IsOffline; ret (offline env i).

Definition scope_HasPendingWaveforms (i : nat) : M bool := fun w =>
  Some (pending env i (n_pending w),
        mkWindow (m_triggerArmed w) (m_triggerOneShot w)
          (m_multiScopeFreeRun w) (m_tPrimaryTrigger w) (m_tArm w)
          (S (n_pending w)) (n_armed w) (n_clock w)
          (trace w ++ [ScopeCall i HasPendingWaveforms])).

Definition scope_PeekTriggerArmed (i : nat) : M bool := fun w =>
  Some (armed env i (n_armed w),
        mkWindow (m_triggerArmed w) (m_triggerOneShot w)
          (m_multiScopeFreeRun w) (m_tPrimaryTrigger w) (m_tArm w)
          (n_pending w) (S (n_armed w)) (n_clock w)
          (trace w ++ [ScopeCall i PeekTriggerArmed])).

Definition GetTime : M double := fun w =>
  Some (clock env (n_clock w),
        mkWindow (m_triggerArmed w) (m_triggerOneShot w)
          (m_multiScopeFreeRun w) (m_tPrimaryTrigger w) (m_tArm w)
          (n_pending w) (n_armed w) (S (n_clock w)) (trace w)).

(** [for(auto scope : m_scopes) body] and its reverse-index variant. *)
Fixpoint for_each (ix : list nat) (body : nat -> M unit) : M unit :=
  match ix with
  | [] => ret tt
  | i :: rest => do _ <- body i; for_each rest body
  end.

Definition scopes : list nat := seq 0 (nscopes env).
Definition scopes_down : list nat := rev (seq 0 (nscopes env)).

(** [HasOnlineScopes]: returns at the first scope that is not offline. *)
Fixpoint any_online (ix : list nat) : M bool :=
  match ix with
  | [] => ret false
  | i :: rest =>
      do off <- scope_IsOffline i;
      if negb off then ret true else any_online rest
  end.

Definition HasOnlineScopes : M bool := any_online scopes.

(** First loop of [CheckForPendingWaveforms]: returns false at the first
    online scope without pending data. *)
Fixpoint all_online_pending (ix : list nat) : M bool :=
  match ix with
  | [] => ret true
  | i :: rest =>
      do off <- scope_IsOffline i;
      if off then all_online_pending rest
      else
        do p <- scope_HasPendingWaveforms i;
        if negb p then ret false else all_online_pending rest
  end.

Definition OnStop : M unit :=
  do _ <- set_multiScopeFreeRun false;
  do _ <- set_triggerArmed false;
  for_each scopes (fun i => do _ <- call i Stop; call i ClearPendingWaveforms).

(** The confirmation loop of [ArmTrigger] (lines 3436-3450) for scope [i]. *)
Fixpoint wait_until_armed (fuel : nat) (i : nat) (start : double) : M unit :=
  match fuel with
  | O => out_of_fuel
  | S fuel' =>
      do a <- scope_PeekTriggerArmed i;
      if a then ret tt
      else
        do now <- GetTime;
        if double_ltb (double_of_Z 3) (double_sub now start) then
          do _ <- emit (Warning "Timeout waiting for scope to arm");
          do _ <- call i Stop;
          do _ <- call i StartSingleTrigger;
          wait_until_armed fuel' i now
        else wait_until_armed fuel' i start
  end.

(** Body of the first reverse loop of [ArmTrigger] (lines 3386-3393). *)
Definition stop_and_drain (i : nat) : M unit :=
  do a <- scope_PeekTriggerArmed i;
  do _ <- (if a then call i Stop else ret tt);
  do p <- scope_HasPendingWaveforms i;
  if p then
    do _ <- emit (Warning "Scope had pending waveforms before arming");
    call i ClearPendingWaveforms
  else ret tt.

(** The arm command for scope [i] (lines 3400-3431). *)
Definition arm_command (type : TriggerType) (i : nat) : M unit :=
  if (0 <? i)%nat then call i StartSingleTrigger
  else
    match type with
    | TRIGGER_TYPE_NORMAL =>
        if (1 <? nscopes env)%nat then call i StartSingleTrigger
        else call i Start
    | TRIGGER_TYPE_AUTO =>
        emit (Error "ArmTrigger(TRIGGER_TYPE_AUTO) not implemented")
    | TRIGGER_TYPE_SINGLE => call i StartSingleTrigger
    | TRIGGER_TYPE_FORCED => call i ForceTrigger
    end.

(** Confirmation of a secondary (lines 3434-3454). *)
Definition confirm_armed (fuel : nat) (i : nat) : M unit :=
  if negb (i =? 0)%nat then
    do start <- GetTime;
    do _ <- wait_until_armed fuel i start;
    call i ClearPendingWaveforms
  else ret tt.

(** Body of the second reverse loop of [ArmTrigger]. *)
Definition arm_scope (fuel : nat) (type : TriggerType) (i : nat) : M unit :=
  do _ <- arm_command type i; confirm_armed fuel i.

Definition ArmTrigger (fuel : nat) (type : TriggerType) : M unit :=
  let oneshot :=
    match type with
    | TRIGGER_TYPE_FORCED | TRIGGER_TYPE_SINGLE => true
    | _ => false
    end in
  do _ <- set_triggerOneShot oneshot;
  do online <- HasOnlineScopes;
  if negb online then
    do t <- GetTime;
    do _ <- set_tArm t;
    set_triggerArmed true
  else
    do _ <- set_tPrimaryTrigger (double_of_Z (-1));
    do _ <- set_multiScopeFreeRun (negb oneshot && (1 <? nscopes env)%nat);
    do _ <- (if (1 <? nscopes env)%nat
             then for_each scopes_down stop_and_drain
             else ret tt);
    do _ <- for_each scopes_down (arm_scope fuel type);
    do t <- GetTime;
    do _ <- set_tArm t;
    set_triggerArmed true.

Definition OnStart (fuel : nat) : M unit := ArmTrigger fuel TRIGGER_TYPE_NORMAL.

(** Body of the discard loop of the fault branch (lines 3056-3064). *)
Definition discard_pending (i : nat) : M unit :=
  do off <- scope_IsOffline i;
  if off then ret tt
  else do _ <- call i IDPing; call i ClearPendingWaveforms.

(** The free-run branch of [CheckForPendingWaveforms] (lines 3038-3070). *)
Definition free_run_watchdog (fuel : nat) : M bool :=
  do tp <- get m_tPrimaryTrigger;
  do _ <- (if double_ltb tp (double_of_Z 0) then
             do p0 <- scope_HasPendingWaveforms 0;
             if p0 then do t <- GetTime; set_tPrimaryTrigger t else ret tt
           else ret tt);
  do now <- GetTime;
  do tp <- get m_tPrimaryTrigger;
  let twait := double_sub now tp in
  if double_ltb (double_of_Z 0) tp && double_ltb (double_of_Z 1) twait then
    do _ <- emit (Warning "Timed out waiting for one or more secondary instruments to trigger");
    do _ <- OnStop;
    do _ <- for_each scopes discard_pending;
    do _ <- OnStart fuel;
    ret false
  else ret true.

Definition CheckForPendingWaveforms (fuel : nat) : M bool :=
  do online <- HasOnlineScopes;
  if negb online then get m_triggerArmed
  else
    do ready <- all_online_pending scopes;
    if negb ready then ret false
    else
      do freerun <- get m_multiScopeFreeRun;
      if freerun then free_run_watchdog fuel else ret true.

End WithInstruments.

(** The window as its constructor leaves the trigger fields. *)
Definition initial_window : Window :=
  mkWindow false false false (double_of_Z 0) (double_of_Z 0) 0 0 0 [].

(** ** Vocabulary for traces *)

Definition offline_queries (ix : list nat) : list Event :=
  map (fun i => ScopeCall i IsOffline) ix.

(** The five trigger fields are the same in [w] and [w']. *)
Definition same_flags (w w' : Window) : Prop :=
  m_triggerArmed w' = m_triggerArmed w /\
  m_triggerOneShot w' = m_triggerOneShot w /\
  m_multiScopeFreeRun w' = m_multiScopeFreeRun w /\
  m_tPrimaryTrigger w' = m_tPrimaryTrigger w /\
  m_tArm w' = m_tArm w.

Definition same_fields (w w' : Window) : Prop :=
  same_flags w w' /\ n_pending w' = n_pending w.

(** [w'] is [w] with the events [es] appended and nothing else touched. *)
Definition trace_extended (w w' : Window) (es : list Event) : Prop :=
  same_fields w w' /\
  n_armed w' = n_armed w /\
  n_clock w' = n_clock w /\
  trace w' = trace w ++ es.

Definition is_arm_call (c : Call) : bool :=
  match c with
  | Start | StartSingleTrigger | ForceTrigger => true
  | _ => false
  end.

(** The arm commands of a trace, in order, with the scope they went to. *)
Definition arm_commands (es : list Event) : list (nat * Call) :=
  omap (fun e => match e with
                 | ScopeCall i c => if is_arm_call c then Some (i, c) else None
                 | _ => None
                 end) es.


(** ** The confirmation loop in the words of the arming procedure

    A timeout window starts at [start].  A clock reading whose difference
    to the start of the current window, subtracted as [double]s, is more than
    3 is a timeout and starts a new window at that reading.  Every poll
    that finds the scope not armed asks the flag; a poll that times out also
    logs a warning, stops the scope and arms it single-shot again. *)

Fixpoint timeout_windows (start : double) (readings : list double)
    : list bool :=
  match readings with
  | [] => []
  | now :: rest =>
      if double_ltb (double_of_Z 3) (double_sub now start)
      then true :: timeout_windows now rest
      else false :: timeout_windows start rest
  end.

Definition retry_events (i : nat) : list Event :=
  [Warning "Timeout waiting for scope to arm";
   ScopeCall i Stop; ScopeCall i StartSingleTrigger].

Definition poll_events (i : nat) (timed_out : bool) : list Event :=
  ScopeCall i PeekTriggerArmed :: (if timed_out then retry_events i else []).


(** ** Repeated polling *)

Fixpoint poll_repeatedly (env : Instruments) (fuel n : nat) : M (list bool) :=
  match n with
  | O => ret []
  | S n' =>
      do r <- CheckForPendingWaveforms env fuel;
      do rs <- poll_repeatedly env fuel n';
      ret (r :: rs)
  end.

(** ** Concrete instruments *)

(** Two scopes, both offline. *)
Definition all_offline : Instruments :=
  mkInstruments 2 (fun _ => true) (fun _ _ => false) (fun _ _ => false)
    (fun k => double_of_Z (Z.of_nat k)).

(** Two online scopes that confirm arming at once; the primary always has
    pending data, the secondary never has; any clock. *)
Definition secondary_silent (clock : nat -> double) : Instruments :=
  mkInstruments 2 (fun _ => false) (fun i _ => (i =? 0)%nat) (fun _ _ => true)
    clock.

(** What one poll of [secondary_silent] asks. *)
Definition silent_poll_events : list Event :=
  [ScopeCall 0 IsOffline;
   ScopeCall 0 IsOffline; ScopeCall 0 HasPendingWaveforms;
   ScopeCall 1 IsOffline; ScopeCall 1 HasPendingWaveforms].

(** The window after [OnStart] on [secondary_silent]. *)
Definition silent_armed (clock : nat -> double) : Window :=
  mkWindow true false true (double_of_Z (-1)) (clock 1%nat) 2 3 2
    [ScopeCall 0 IsOffline;
     ScopeCall 1 PeekTriggerArmed; ScopeCall 1 Stop;
     ScopeCall 1 HasPendingWaveforms;
     ScopeCall 0 PeekTriggerArmed; ScopeCall 0 Stop;
     ScopeCall 0 HasPendingWaveforms;
     Warning "Scope had pending waveforms before arming";
     ScopeCall 0 ClearPendingWaveforms;
     ScopeCall 1 StartSingleTrigger; ScopeCall 1 PeekTriggerArmed;
     ScopeCall 1 ClearPendingWaveforms;
     ScopeCall 0 StartSingleTrigger].

(** Two online scopes whose armed flag is never seen set; the clock
    advances one second per reading. *)
Definition never_armed : Instruments :=
  mkInstruments 2 (fun _ => false) (fun _ _ => false) (fun _ _ => false)
    (fun k => double_of_Z (Z.of_nat k)).

(** Two online scopes whose armed flag is seen set from the third poll of
    the run on; the clock advances four seconds per reading. *)
Definition armed_at_third_poll : Instruments :=
  mkInstruments 2 (fun _ => false) (fun _ _ => false)
    (fun _ k => (2 <=? k)%nat) (fun k => double_of_Z (4 * Z.of_nat k)).

(** Two online scopes whose armed flag is seen set from the second poll of
    the run on; the clock reads 0.1 and from then on 3.1. *)
Definition slow_to_arm : Instruments :=
  mkInstruments 2 (fun _ => false) (fun _ _ => false)
    (fun _ k => (1 <=? k)%nat)
    (fun k => if (k =? 0)%nat then tenths 1 else tenths 31).



(** Calls that only ask a scope for its offline or pending state. *)
Definition is_query (e : Event) : bool :=
  match e with
  | ScopeCall _ IsOffline | ScopeCall _ HasPendingWaveforms => true
  | _ => false
  end.


(** ** More vocabulary *)

(** What [OnStop] sends. *)
Definition stop_events (ix : list nat) : list Event :=
  flat_map (fun i => [ScopeCall i Stop; ScopeCall i ClearPendingWaveforms]) ix.

(** [oneshot] of [ArmTrigger]. *)
Definition is_oneshot (type : TriggerType) : bool :=
  match type with
  | TRIGGER_TYPE_FORCED | TRIGGER_TYPE_SINGLE => true
  | _ => false
  end.


(** Number of online scopes among a list of scopes. *)
Definition online_count (env : Instruments) (ix : list nat) : nat :=
  length (filter (fun j => offline env j = false) ix).

(** What the readiness loop asks when every online scope has data. *)
Definition readiness_queries (env : Instruments) (ix : list nat) : list Event :=
  flat_map (fun i => ScopeCall i IsOffline
                     :: (if offline env i then []
                         else [ScopeCall i HasPendingWaveforms])) ix.

(** What the discard loop of the fault branch does. *)
Definition discard_events (env : Instruments) (ix : list nat) : list Event :=
  flat_map (fun i => ScopeCall i IsOffline
                     :: (if offline env i then []
                         else [ScopeCall i IDPing;
                               ScopeCall i ClearPendingWaveforms])) ix.

(** Every online scope of [ix] answers "pending" to the question the
    readiness loop puts to it, the first question being number [base]. *)
Definition all_answer_ready (env : Instruments) (ix : list nat) (base : nat)
    : Prop :=
  forall pre i post, ix = pre ++ i :: post -> offline env i = false ->
    pending env i (base + online_count env pre) = true.


(** ** Harvesting *)

(** Calls of [DownloadWaveforms] on the channels and scopes. *)
Inductive DownloadCall :=
  | Detach (scope chan stream : nat)
  | PopPendingWaveform (scope : nat).

(** [GetChannelCount()] of each scope and [GetStreamCount()] of each of its
    channels. *)
Record ScopeLayout := mkLayout {
  channel_count : nat -> nat;
  stream_count : nat -> nat -> nat
}.

(** A loop that only collects the calls it makes. *)
Fixpoint collect {A} (ix : list nat) (body : nat -> list A) : list A :=
  match ix with
  | [] => []
  | i :: rest => body i ++ collect rest body
  end.

(** The two nested loops that detach the streams of scope [i]. *)
Definition detach_calls (layout : ScopeLayout) (i : nat) : list DownloadCall :=
  collect (seq 0 (channel_count layout i)) (fun c =>
    collect (seq 0 (stream_count layout i c)) (fun s => [Detach i c s])).

(** The loop of [DownloadWaveforms] over the scopes: the offline question
    goes to the trace as everywhere, the calls on channels and the pop are
    returned in the order they are made. *)
Fixpoint download_each (env : Instruments) (layout : ScopeLayout)
    (ix : list nat) : M (list DownloadCall) :=
  match ix with
  | [] => ret []
  | i :: rest =>
      do off <- scope_IsOffline env i;
      do calls <- download_each env layout rest;
      ret ((if off then []
            else detach_calls layout i ++ [PopPendingWaveform i]) ++ calls)
  end.

Definition DownloadWaveforms (env : Instruments) (layout : ScopeLayout)
    : M (list DownloadCall) :=
  do calls <- download_each env layout (scopes env);
  do oneshot <- get m_triggerOneShot;
  do _ <- (if (nscopes env =? 0)%nat && oneshot
           then set_triggerArmed false else ret tt);
  ret calls.

(** Two online scopes that always have data and confirm arming at once. *)
Definition always_ready (clock : nat -> double) : Instruments :=
  mkInstruments 2 (fun _ => false) (fun _ _ => true) (fun _ _ => true) clock.


(** A session replayed from a file: no scope at all. *)
Definition no_scopes : Instruments :=
  mkInstruments 0 (fun _ => false) (fun _ _ => false) (fun _ _ => false)
    (fun _ => double_of_Z 0).

(** A free-running window whose primary triggered at time 1. *)
Definition free_running : Window :=
  mkWindow true false true (double_of_Z 1) (double_of_Z 0) 0 0 0 [].

(** ** The waveform-rate window of [OnTimer] *)

(** [while(m_lastWaveformTimes.size() > 10) erase(begin())] *)
Fixpoint trim_times (times : list double) : list double :=
  match times with
  | [] => []
  | _ :: rest => if (10 <? length times)%nat then trim_times rest else times
  end.

(** Lines 577-579. *)
Definition record_waveform_time (now : double) (times : list double)
    : list double :=
  trim_times (times ++ [now]).


End Trigger.

(* ===================================================================== *)
(** * Filter graph scheduling                                             *)
(* ===================================================================== *)

Module Scheduler.

(** A [Filter*] or [OscilloscopeChannel*]: an address, 0 for [NULL]. *)
Definition ptr := N.

(** What [RefreshAllFilters] sees of the filter graph: the set returned by
    [Filter::GetAllInstances()], and for each filter the [m_channel] of its
    inputs, in index order (a channel of an instrument, another filter, or
    [NULL]). *)
Record FilterGraph := mkGraph {
  instances : gset ptr;
  inputs : ptr -> list ptr
}.

Definition FilterBlock := list ptr.

Section WithGraph.

Variable g : FilterGraph.

(** The input scan of one filter (lines 3250-3259): [ok] becomes false,
    and the scan stops, at the first input found in the working set. *)
Fixpoint inputs_ok (working : gset ptr) (ins : list ptr) : bool :=
  match ins with
  | [] => true
  | c :: rest => if bool_decide (c ∈ working) then false
                 else inputs_ok working rest
  end.

(** Lines 3244-3264: the filters of the working set, in the set's
    iteration order, whose inputs are all outside the working set. *)
Definition current_block (working : gset ptr) : FilterBlock :=
  filter (fun d => inputs_ok working (inputs g d) = true) (elements working).

(** Lines 3268-3269: [for(auto d : current_block) working.erase(d)]. *)
Definition erase_all (working : gset ptr) (block : FilterBlock) : gset ptr :=
  foldl (fun w d => w ∖ {[d]}) working block.

(** The leveling loop (lines 3242-3271); one unit of fuel per iteration. *)
Fixpoint level_loop (fuel : nat) (working : gset ptr)
    (blocks : list FilterBlock) : option (list FilterBlock) :=
  if decide (working = ∅) then Some blocks
  else
    match fuel with
    | O => None
    | S fuel' =>
        let cur := current_block working in
        level_loop fuel' (erase_all working cur) (blocks ++ [cur])
    end.

(** The blocks built by [RefreshAllFilters]. *)
Definition build_blocks (fuel : nat) : option (list FilterBlock) :=
  level_loop fuel (instances g) [].

End WithGraph.


(** [input] feeds [consumer]: both are filters and [input] is the channel
    of one of [consumer]'s inputs. *)
Definition feeds (g : FilterGraph) (input consumer : ptr) : Prop :=
  input ∈ instances g /\ consumer ∈ instances g /\ input ∈ inputs g consumer.

(** No filter reaches itself along input edges. *)
Definition acyclic (g : FilterGraph) : Prop :=
  forall d, ~ tc (feeds g) d d.

(** [d] sits in block number [k]. *)
Definition in_block (blocks : list FilterBlock) (k : nat) (d : ptr) : Prop :=
  exists block, blocks !! k = Some block /\ d ∈ block.


(** The invariant of the leveling loop: the blocks built so far hold,
    without repetition, exactly the filters that left the working set; every
    filter input of a placed filter sits in an earlier block; no block is
    empty. *)
Definition leveled (g : FilterGraph) (working : gset ptr)
    (blocks : list FilterBlock) : Prop :=
  working ⊆ instances g
  /\ NoDup (concat blocks)
  /\ (forall d, d ∈ concat blocks <-> d ∈ instances g /\ d ∉ working)
  /\ (forall k d c, in_block blocks k d -> c ∈ inputs g d ->
        c ∈ instances g -> exists j, (j < k)%nat /\ in_block blocks j c)
  /\ Forall (fun block => block <> []) blocks.

(** Three filters in a chain: 1 reads a scope channel, 2 reads 1 and a
    scope channel, 3 reads 2 and 1. *)
Definition chain_graph : FilterGraph :=
  mkGraph (list_to_set [1%N; 2%N; 3%N])
    (fun d => match d with
              | 1%N => [100%N]
              | 2%N => [1%N; 100%N]
              | 3%N => [2%N; 1%N]
              | _ => []
              end).


(** What the loop additionally keeps: the first block is what qualifies
    against the whole instance set; a filter in block [k+1] has an input in
    block [k]; and, once a block exists, every filter still waiting has an
    input that is waiting too or sits in the newest block. *)
Definition eager (g : FilterGraph) (working : gset ptr)
    (blocks : list FilterBlock) : Prop :=
  (blocks = [] -> working = instances g)
  /\ (forall b, blocks !! 0%nat = Some b -> b = current_block g (instances g))
  /\ (forall k d, in_block blocks (S k) d ->
        exists c, c ∈ inputs g d /\ in_block blocks k c)
  /\ (forall b d, last blocks = Some b -> d ∈ working ->
        exists c, c ∈ inputs g d /\ (c ∈ working \/ c ∈ b)).


End Scheduler.

(* ===================================================================== *)
(** * Propagating a channel rename                                        *)
(* ===================================================================== *)

Module Rename.

Import Scheduler.

(** What [OnChannelRenamed] (lines 3537-3565) reads besides the filter
    graph: whether a filter uses its default name, and which waveform groups
    show statistics for a channel.  [SetDefaultName] is outside these
    sources; it recomputes the name of a filter that uses the default name
    and is taken not to change which filters do. *)
Record Naming := mkNaming {
  IsUsingDefaultName : ptr -> bool;
  ngroups : nat;
  IsShowingStats : nat -> ptr -> bool
}.

Inductive RenameCall :=
  | SetDefaultName (f : ptr)
  | GroupRenamed (group : nat) (chan : ptr).

Section WithGraph.

Variable g : FilterGraph.
Variable nm : Naming.

(** The first loop, over [Filter::GetAllInstances()]: a filter with a
    custom name is skipped; a filter one of whose inputs is [chan] is
    renamed and the rename is propagated from it ([rename]), once, whatever
    the number of inputs that match. *)
Fixpoint scan_filters (rename : ptr -> option (list RenameCall))
    (chan : ptr) (fs : list ptr) : option (list RenameCall) :=
  match fs with
  | [] => Some []
  | f :: rest =>
      if IsUsingDefaultName nm f && bool_decide (chan ∈ inputs g f) then
        sub ← rename f;
        more ← scan_filters rename chan rest;
        Some (SetDefaultName f :: sub ++ more)
      else scan_filters rename chan rest
  end.

(** The second loop, over [m_waveformGroups]. *)
Definition group_calls (chan : ptr) : list RenameCall :=
  map (fun k => GroupRenamed k chan)
    (filter (fun k => IsShowingStats nm k chan = true) (seq 0 (ngroups nm))).

(** The calls made, in order; a unit of fuel per level of the recursion,
    [None] when it runs out. *)
Fixpoint OnChannelRenamed (fuel : nat) (chan : ptr)
    : option (list RenameCall) :=
  match fuel with
  | O => None
  | S fuel' =>
      calls ← scan_filters (OnChannelRenamed fuel') chan
                 (elements (instances g));
      Some (calls ++ group_calls chan)
  end.

(** The rename of [a] reaches [b] in one step: [b] is a filter with a
    default name and [a] is one of its inputs. *)
Definition renames (a b : ptr) : Prop :=
  b ∈ instances g /\ IsUsingDefaultName nm b = true /\ a ∈ inputs g b.

End WithGraph.

(** The chain 1 <- 2 <- 3 of [chain_graph] with default names everywhere,
    and one group that shows statistics for filter 3. *)
Definition default_names : Naming :=
  mkNaming (fun _ => true) 1 (fun _ c => (c =? 3)%N).

(** Two filters that read each other. *)
Definition loop_graph : FilterGraph :=
  mkGraph (list_to_set [1%N; 2%N])
    (fun d => match d with
              | 1%N => [2%N; 100%N]
              | 2%N => [1%N]
              | _ => []
              end).

End Rename.

(* ===================================================================== *)
(** * The recently used instruments and the session file names            *)
(* ===================================================================== *)

Module Session.

(** ** [AddCurrentToRecentlyUsedList] (lines 4024-4061)

    [m_recentlyUsed] maps a connection string to the time of its last use.
    It is a [std::map], which is iterated in the order of its keys. *)

Abbreviation RecentlyUsed := (gmap string Z).

Definition key_le (a b : string * Z) : Prop := String.leb a.1 b.1 = true.

#[global] Instance key_le_dec : RelDecision key_le.
Proof. intros a b. unfold key_le. apply _. Defined.

(** [for(auto it : m_recentlyUsed)] *)
Definition in_key_order (m : RecentlyUsed) : list (string * Z) :=
  merge_sort key_le (map_to_list m).

(** The inner loop: [oldestPath] and [oldestTime] after a pass over the
    map, starting from the empty path and [now]. *)
Definition find_oldest (now : Z) (m : RecentlyUsed) : string * Z :=
  foldl (fun oldest it => if it.2 <? oldest.2 then it else oldest)
    (EmptyString, now) (in_key_order m).

Definition maxRecentInstruments : nat := 10.

(** [while(m_recentlyUsed.size() > maxRecentInstruments)]: erase the oldest
    path found.  [None] is a loop out of fuel. *)
Fixpoint evict (fuel : nat) (now : Z) (m : RecentlyUsed)
    : option RecentlyUsed :=
  if (maxRecentInstruments <? size m)%nat then
    match fuel with
    | O => None
    | S fuel' => evict fuel' now (delete (find_oldest now m).1 m)
    end
  else Some m.

(** What the function reads of a scope. *)
Record Scope := mkScope {
  is_mock : bool;
  m_nickname : string;
  GetDriverName : string;
  GetTransportName : string;
  GetTransportConnectionString : string
}.

Definition connectionString (scope : Scope) : string :=
  m_nickname scope +:+ ":" +:+ GetDriverName scope +:+ ":" +:+
  GetTransportName scope +:+ ":" +:+ GetTransportConnectionString scope.

(** The first loop: every scope that is not a mock is entered with the
    current time. *)
Definition add_current (now : Z) (scopes : list Scope) (m : RecentlyUsed)
    : RecentlyUsed :=
  foldl (fun m scope =>
           if is_mock scope then m else <[connectionString scope := now]> m)
    m scopes.

Definition AddCurrentToRecentlyUsedList (fuel : nat) (now : Z)
    (scopes : list Scope) (m : RecentlyUsed) : option RecentlyUsed :=
  evict fuel now (add_current now scopes m).

(** Entries the eviction loop cannot erase: a path that is not empty, with
    a time that is not before [now]. *)
Definition stays (now : Z) (it : string * Z) : Prop :=
  it.1 <> EmptyString /\ now <= it.2.

#[global] Instance stays_dec now it : Decision (stays now it).
Proof. unfold stays. apply _. Defined.

Definition not_before (now : Z) (it : string * Z) : Prop := now <= it.2.

#[global] Instance not_before_dec now it : Decision (not_before now it).
Proof. unfold not_before. apply _. Defined.

(** ** [RefreshInstrumentMenu] (lines 4063-4095) *)

(** [reverseMap]: each entry of the list stores its path under its time,
    in key order; a later entry with the same time replaces the path. *)
Definition reverse_map (m : RecentlyUsed) : gmap Z string :=
  foldl (fun rm it => <[it.2 := it.1]> rm) ∅ (in_key_order m).

(** [timestamps] after [std::sort]. *)
Definition sorted_times (m : RecentlyUsed) : list Z :=
  merge_sort Z.le (map snd (in_key_order m)).

(** [path.substr(0, path.find(":"))]: without a colon, the whole path. *)
Definition nick_of (path : string) : string :=
  match String.index 0 ":" path with
  | Some k => String.substring 0 k path
  | None => path
  end.

(** The menu items, first to last, each with its label and the path it
    connects to. *)
Definition RefreshInstrumentMenu (m : RecentlyUsed) : list (string * string) :=
  map (fun t => let path := default EmptyString (reverse_map m !! t) in
                (nick_of path, path))
    (rev (sorted_times m)).

(** A LAN scope number [k]. *)
Definition lan_scope (k : nat) : Scope :=
  mkScope false (String (Ascii.ascii_of_nat (65 + k)) EmptyString) "rigol" "lan"
    "10.0.0.1".

(** Twelve entries used at times 1..12. *)
Definition twelve_used : RecentlyUsed :=
  list_to_map (map (fun k => (connectionString (lan_scope k), Z.of_nat (S k)))
                 (seq 0 12)).

(** ** Names of the session file and of its data directory

    [OnFileSave] (lines 1956-1961) appends the extension when the name does
    not contain it, and names the data directory after the file;
    [LoadWaveformData] (lines 1213-1215) derives the directory from the file
    name in the same way. *)

Definition extension : string := ".scopesession".

(** [a - b] on [size_t]. *)
Definition size_sub (a b : nat) : N :=
  Z.to_N ((Z.of_nat a - Z.of_nat b) mod 2 ^ 64).

(** [s.substr(0, count)]: a count that reaches past the end gives the
    whole string. *)
Definition substr0 (s : string) (count : N) : string :=
  String.substring 0 (N.to_nat (N.min count (N.of_nat (String.length s)))) s.

(** [name.find(extension) == string::npos] *)
Definition lacks_extension (name : string) : bool :=
  match String.index 0 extension name with
  | None => true
  | Some _ => false
  end.

Definition data_dir_name (filename : string) : string :=
  substr0 filename
    (size_sub (String.length filename) (String.length extension))
  +:+ "_data".

(** [m_currentFileName] and [m_currentDataDirName] after the naming steps
    of [OnFileSave], from the name chosen in the dialog. *)
Definition OnFileSave_names (name : string) : string * string :=
  let file := if lacks_extension name then name +:+ extension else name in
  (file, data_dir_name file).

(** [datadir] of [LoadWaveformData]. *)
Definition LoadWaveformData_datadir (filename : string) : string :=
  data_dir_name filename.

End Session.

(* ===================================================================== *)
(** * Saving a session                                                    *)
(* ===================================================================== *)

Module Saving.

Import Trigger Session.

(** ** [OnFileSave] (lines 1916-2092, POSIX path)

    What the function asks of its surroundings, each asked at most once:
    the file chooser ([None]: not confirmed), what is found at the path of
    the data directory and of the session file, the answer to the overwrite
    question, and whether [mkdir], [fopen] and [fwrite] succeed. *)

Inductive Found := NoEntry | Directory | NotDirectory.

Record Answers := mkAnswers {
  chosen : option string;
  data_dir_found : Found;
  file_exists : bool;
  overwrite_yes : bool;
  mkdir_ok : bool;
  fopen_ok : bool;
  fwrite_ok : bool
}.

Inductive SaveEvent :=
  | FileChooser (title : string)
  | Probe (path : string)
  | ErrorDialog (msg : string)
  | Question (msg : string)
  | Mkdir (path : string)
  | Fopen (path : string)
  | Fwrite (path : string) (saveLayout : bool)
  | SerializeWaveforms.

Record Names := mkNames {
  m_currentFileName : string;
  m_currentDataDirName : string
}.

Definition dialog_title (saveLayout saveWaveforms : bool) : string :=
  "Save "
  +:+ (if saveLayout
       then "Layout" +:+ (if saveWaveforms then " and " else EmptyString)
       else EmptyString)
  +:+ (if saveWaveforms then "Waveforms" else EmptyString).

Definition is_empty (s : string) : bool :=
  match s with EmptyString => true | _ => false end.

(** From [OnStop] on (lines 2064-2091). *)
Definition write_session (env : Instruments) (ans : Answers)
    (saveLayout saveWaveforms : bool) (events : list SaveEvent)
    (names : Names) : M (list SaveEvent * Names) :=
  do _ <- OnStop env;
  let events := events ++ [Fopen (m_currentFileName names)] in
  if negb (fopen_ok ans) then
    ret (events ++ [ErrorDialog ("The session file "
                                 +:+ m_currentFileName names
                                 +:+ " could not be created!")], names)
  else
    let events := events ++ [Fwrite (m_currentFileName names) saveLayout] in
    let events :=
      if negb (fwrite_ok ans) then
        events ++ [ErrorDialog ("Error writing to session file "
                                +:+ m_currentFileName names +:+ "!")]
      else events in
    if saveWaveforms then ret (events ++ [SerializeWaveforms], names)
    else ret (events, names).

(** From the probe of the data directory on (lines 1963-2062). *)
Definition check_and_write (env : Instruments) (ans : Answers)
    (creatingNew saveLayout saveWaveforms : bool) (events : list SaveEvent)
    (names : Names) : M (list SaveEvent * Names) :=
  let events := events ++ [Probe (m_currentDataDirName names)] in
  match data_dir_found ans with
  | NotDirectory =>
      ret (events ++ [Probe (m_currentDataDirName names);
                      ErrorDialog ("The data directory "
                                   +:+ m_currentDataDirName names
                                   +:+ " already exists, but is not a directory!")],
           names)
  | found =>
      let dir_exists :=
        match found with Directory => true | _ => false end in
      let events :=
        if dir_exists then events ++ [Probe (m_currentDataDirName names)]
        else events in
      let events := events ++ [Probe (m_currentFileName names)] in
      let ask := creatingNew && (dir_exists && negb (file_exists ans)) in
      let events :=
        if ask then
          events ++ [Question ("The data directory "
                               +:+ m_currentDataDirName names
                               +:+ " already exists. Overwrite existing contents?")]
        else events in
      if ask && negb (overwrite_yes ans) then ret (events, names)
      else if negb dir_exists then
        let events := events ++ [Mkdir (m_currentDataDirName names)] in
        if negb (mkdir_ok ans) then
          ret (events ++ [ErrorDialog ("The data directory "
                                       +:+ m_currentDataDirName names
                                       +:+ " could not be created!")],
               names)
        else write_session env ans saveLayout saveWaveforms events names
      else write_session env ans saveLayout saveWaveforms events names
  end.

Definition OnFileSave (env : Instruments) (ans : Answers)
    (saveToCurrentFile saveLayout saveWaveforms : bool) (names : Names)
    : M (list SaveEvent * Names) :=
  let creatingNew :=
    is_empty (m_currentFileName names) || negb saveToCurrentFile in
  let events :=
    if creatingNew then [FileChooser (dialog_title saveLayout saveWaveforms)]
    else [] in
  match (if creatingNew then chosen ans
         else Some (m_currentFileName names)) with
  | None => ret (events, names)
  | Some name =>
      let file := (OnFileSave_names name).1 in
      let dir := (OnFileSave_names name).2 in
      check_and_write env ans creatingNew saveLayout saveWaveforms events
        (mkNames file dir)
  end.

Definition is_fopen (e : SaveEvent) : bool :=
  match e with Fopen _ => true | _ => false end.

Definition is_serialize (e : SaveEvent) : bool :=
  match e with SerializeWaveforms => true | _ => false end.

Definition is_question (e : SaveEvent) : bool :=
  match e with Question _ => true | _ => false end.

(** Whether a save whose name is settled gets as far as opening the
    session file. *)
Definition reaches_fopen (ans : Answers) (creatingNew : bool) : bool :=
  match data_dir_found ans with
  | NotDirectory => false
  | Directory =>
      negb (creatingNew && negb (file_exists ans) && negb (overwrite_yes ans))
  | NoEntry => mkdir_ok ans
  end.

(** A save-as to "b" whose data directory is a regular file. *)
Definition blocked_save_as : Answers :=
  mkAnswers (Some "b") NotDirectory false false false false false.

(** A save in which [fwrite] comes up short. *)
Definition short_write : Answers :=
  mkAnswers None Directory true false false true false.

(** An armed window. *)
Definition armed_window : Window :=
  mkWindow true false false (double_of_Z 0) (double_of_Z 0) 0 0 0 [].


End Saving.

(* ===================================================================== *)
(** * Properties of the decoder                                           *)
(* ===================================================================== *)

Section CodecFacts.

Import Codec.

(** Writing cells [0 .. m-1] one after the other, as the loader's loops do,
    overwrites exactly the first [m] cells. *)
Lemma foldl_insert_seq {A} (f : nat -> A) (m : nat) (v : list A) :
  (m <= length v)%nat ->
  foldl (fun v i => <[i := f i]> v) v (seq 0 m) = map f (seq 0 m) ++ drop m v.
Proof.
  induction m as [|m IH]; intros Hm.
  - by rewrite drop_0.
  - rewrite seq_S, foldl_app, map_app. simpl.
    rewrite IH by lia.
    rewrite insert_app_r_alt; rewrite length_map, length_seq; [|lia].
    rewrite Nat.sub_diag.
    destruct (drop m v) as [|x r] eqn:E.
    + apply (f_equal length) in E. rewrite length_drop in E. simpl in E. lia.
    + simpl. rewrite <- app_assoc. simpl. do 2 f_equal.
      assert (drop 1 (drop m v) = r) as Hr by (rewrite E; done).
      rewrite drop_drop in Hr. rewrite <- Hr. f_equal. lia.
Qed.

Lemma foldl_insert_seq_full {A} (f : nat -> A) (n : nat) (v : list A) :
  length v = n ->
  foldl (fun v i => <[i := f i]> v) v (seq 0 n) = map f (seq 0 n).
Proof.
  intros <-. rewrite foldl_insert_seq by lia. by rewrite drop_all, app_nil_r.
Qed.

Lemma lookup_map_seq {A} (f : nat -> A) (n j : nat) :
  (j < n)%nat -> map f (seq 0 n) !! j = Some (f j).
Proof.
  intros Hj. rewrite list_lookup_fmap, lookup_seq_lt by done. done.
Qed.

(** *** The record loop *)

Lemma sparse_fold_eq buf ss l cap :
  foldl (sparse_read_sample buf ss) cap l
  = mkWaveform (m_timescale cap) (m_startTimestamp cap)
      (m_startFemtoseconds cap) (m_triggerPhase cap)
      (foldl (fun v j => <[j := load_int64 buf (j * ss) 0]> v)
         (m_offsets cap) l)
      (foldl (fun v j => <[j := load_int64 buf (j * ss) 1]> v)
         (m_durations cap) l)
      (m_densePacked cap)
      (match m_samples cap with
       | AnalogSamples v =>
           AnalogSamples
             (foldl (fun v j => <[j := load_float buf (j * ss + 16)]> v) v l)
       | DigitalSamples v =>
           DigitalSamples
             (foldl (fun v j => <[j := load_bool buf (j * ss + 16)]> v) v l)
       end).
Proof.
  revert cap. induction l as [|j l IH]; intros cap.
  - simpl. by destruct cap as [? ? ? ? ? ? ? []].
  - simpl. rewrite IH.
    unfold sparse_read_sample. simpl. by destruct (m_samples cap).
Qed.

Lemma samplesize_Resize n cap : samplesize (Resize n cap) = samplesize cap.
Proof. unfold samplesize, acap, Resize. simpl. by destruct (m_samples cap). Qed.

Lemma samplesize_cases cap :
  samplesize cap = if acap cap then 20%nat else 17%nat.
Proof. unfold samplesize. by destruct (acap cap). Qed.

Lemma samplesize_pos cap : (0 < samplesize cap)%nat.
Proof. rewrite samplesize_cases. destruct (acap cap); lia. Qed.

(** The waveform after the record loop. *)
Lemma sparse_read_records_eq buf cap :
  sparse_read_records buf cap
  = let n := (length buf / samplesize cap)%nat in
    mkWaveform (m_timescale cap) (m_startTimestamp cap)
      (m_startFemtoseconds cap) (m_triggerPhase cap)
      (map (fun j => load_int64 buf (j * samplesize cap) 0) (seq 0 n))
      (map (fun j => load_int64 buf (j * samplesize cap) 1) (seq 0 n))
      (m_densePacked cap)
      (if acap cap then
         AnalogSamples
           (map (fun j => load_float buf (j * samplesize cap + 16)) (seq 0 n))
       else
         DigitalSamples
           (map (fun j => load_bool buf (j * samplesize cap + 16)) (seq 0 n))).
Proof.
  unfold sparse_read_records. rewrite sparse_fold_eq. simpl.
  unfold Resize, acap. simpl.
  rewrite !foldl_insert_seq_full by apply length_resize.
  destruct (m_samples cap) as [v|v];
    rewrite foldl_insert_seq_full by apply length_resize; done.
Qed.

(** *** Byte ranges *)

Lemma bytes_at_take buf m off k :
  (off + k <= m)%nat -> bytes_at (take m buf) off k = bytes_at buf off k.
Proof.
  intros H. unfold bytes_at.
  rewrite skipn_firstn_comm, take_take. f_equal. lia.
Qed.

Lemma record_field_bytes buf rsize j off k :
  (off + k <= rsize)%nat ->
  take k (drop off (record_bytes rsize buf j)) = bytes_at buf (j * rsize + off) k.
Proof.
  intros H. unfold record_bytes, bytes_at.
  rewrite skipn_firstn_comm, take_take, drop_drop. f_equal. lia.
Qed.

Lemma record_bytes_length buf rsize j :
  (j < length buf / rsize)%nat -> length (record_bytes rsize buf j) = rsize.
Proof.
  intros Hj. unfold record_bytes. rewrite length_take, length_drop.
  assert (rsize <> 0)%nat by (intros ->; simpl in Hj; lia).
  pose proof (Nat.Div0.mul_div_le (length buf) rsize).
  assert (S j * rsize <= (length buf / rsize) * rsize)%nat
    by (apply Nat.mul_le_mono_r; lia).
  lia.
Qed.

(** *** 64-bit conversions *)

Lemma as_int64_small u : 0 <= u < 2 ^ 63 -> as_int64 u = u.
Proof.
  intros H. unfold as_int64. destruct (Z.ltb_spec u (2 ^ 63)); lia.
Qed.

Lemma to_int64_small z : 0 <= z < 2 ^ 63 -> to_int64 z = z.
Proof.
  intros H. unfold to_int64. rewrite Z.mod_small by lia.
  by apply as_int64_small.
Qed.

(** *** The endpoint check only touches the flag *)

(** The result of the check, without the reads. *)
Lemma sparse_dense_check_eq n cap :
  sparse_dense_check n cap
  = let nlast := to_int64 (Z.of_nat n - 1) in
    o0 ← vec_at (m_offsets cap) 0;
    if negb (o0 =? 0) then Some cap else
    ol ← vec_at (m_offsets cap) nlast;
    if negb (ol =? nlast) then Some cap else
    dl ← vec_at (m_durations cap) nlast;
    if negb (dl =? 1) then Some cap else
    Some (set_densePacked true cap).
Proof.
  unfold sparse_dense_check, endpoint_check, read_at, result. cbn [vector].
  cbv zeta.
  destruct (vec_at (m_offsets cap) 0) as [o0|]; [|done]. cbn.
  destruct (negb (o0 =? 0)); [done|].
  destruct (vec_at (m_offsets cap) _) as [ol|]; [|done]. cbn.
  destruct (negb (ol =? _)); [done|].
  destruct (vec_at (m_durations cap) _) as [dl|]; [|done]. cbn.
  by destruct (negb (dl =? 1)).
Qed.

Lemma sparse_dense_check_cases n cap w :
  sparse_dense_check n cap = Some w ->
  w = cap \/ w = set_densePacked true cap.
Proof.
  rewrite sparse_dense_check_eq. cbv zeta. intros H.
  destruct (vec_at (m_offsets cap) 0) as [o0|]; simpl in H; [|done].
  destruct (negb (o0 =? 0)); [left; congruence|].
  destruct (vec_at (m_offsets cap) _) as [ol|]; simpl in H; [|done].
  destruct (negb (ol =? _)); [left; congruence|].
  destruct (vec_at (m_durations cap) _) as [dl|]; simpl in H; [|done].
  destruct (negb (dl =? 1)); [left; congruence|]. right; congruence.
Qed.

(** The record loop: [length buf / record size] samples, sample [j] with the
    fields of record [j], and no influence of the bytes after the last
    complete record. *)
Lemma sparse_read_records_fields buf cap :
  let rsize := record_size (acap cap) in
  let n := (length buf / rsize)%nat in
  let w := sparse_read_records buf cap in
  (length (m_offsets w) = n /\ length (m_durations w) = n /\ sample_count w = n)
  /\ (forall j, (j < n)%nat ->
        let r := record_bytes rsize buf j in
        length r = rsize /\
        m_offsets w !! j = Some (record_offset r) /\
        m_durations w !! j = Some (record_duration r) /\
        (if acap cap then analog_sample w j = Some (record_analog_value r)
         else digital_sample w j = Some (record_digital_value r)))
  /\ sparse_read_records (take (n * rsize) buf) cap = w
  /\ (forall w', load_sparsev1 buf cap = Some w' ->
        m_offsets w' = m_offsets w /\ m_durations w' = m_durations w /\
        m_samples w' = m_samples w).
Proof.
  intros rsize n w.
  assert (16 < rsize)%nat as Hrs.
  { unfold rsize, record_size. destruct (acap cap); lia. }
  assert (acap cap = true -> 20 <= rsize)%nat as Hra.
  { unfold rsize, record_size. by intros ->. }
  assert (samplesize cap = rsize) as Hss.
  { unfold rsize, record_size. rewrite samplesize_cases. by destruct (acap cap). }
  assert (n = length buf / rsize)%nat as Hn by done.
  clearbody rsize n.
  assert (n * rsize <= length buf)%nat as Hle.
  { subst n. rewrite Nat.mul_comm. apply Nat.Div0.mul_div_le. }
  assert (w = sparse_read_records buf cap) as Hw by done.
  rewrite sparse_read_records_eq in Hw. cbv zeta in Hw. rewrite Hss, <- Hn in Hw.
  split; [|split; [|split]].
  - rewrite Hw. unfold sample_count. cbn [m_offsets m_durations m_samples].
    destruct (acap cap); rewrite !length_map, !length_seq; done.
  - intros j Hj r. split; [apply record_bytes_length; by rewrite <- Hn|].
    rewrite Hw. cbn [m_offsets m_durations m_samples].
    rewrite !lookup_map_seq by done.
    unfold record_offset, record_duration, load_int64.
    rewrite <- (drop_0 r) at 1. unfold r.
    rewrite !record_field_bytes by lia.
    split; [do 3 f_equal; lia|]. split; [do 3 f_equal; lia|].
    unfold analog_sample, digital_sample.
    destruct (acap cap) eqn:Hac; cbn [m_samples]; rewrite lookup_map_seq by done.
    + unfold record_analog_value, load_float.
      rewrite record_field_bytes; [done|]. specialize (Hra eq_refl). lia.
    + unfold record_digital_value, load_bool. do 2 f_equal.
      unfold record_bytes. rewrite lookup_take_lt by lia. by rewrite lookup_drop.
  - rewrite Hw, sparse_read_records_eq. cbv zeta. rewrite Hss.
    assert (length (take (n * rsize) buf) / rsize = n)%nat as ->.
    { rewrite length_take, Nat.min_l by done. apply Nat.div_mul. lia. }
    assert (forall j, (j < n)%nat -> (j * rsize + rsize <= n * rsize)%nat) as Hin.
    { intros j Hj. nia. }
    f_equal.
    + apply map_ext_in. intros j [_ Hj]%in_seq. unfold load_int64.
      rewrite bytes_at_take; [done|]. specialize (Hin j). lia.
    + apply map_ext_in. intros j [_ Hj]%in_seq. unfold load_int64.
      rewrite bytes_at_take; [done|]. specialize (Hin j). lia.
    + destruct (acap cap) eqn:Hac; f_equal; apply map_ext_in;
        intros j [_ Hj]%in_seq.
      * unfold load_float. rewrite bytes_at_take; [done|].
        specialize (Hin j). specialize (Hra eq_refl). lia.
      * unfold load_bool. rewrite lookup_take_lt; [done|].
        specialize (Hin j). lia.
  - intros w' Hw'. unfold load_sparsev1 in Hw'.
    apply sparse_dense_check_cases in Hw'. fold w in Hw'.
    destruct Hw' as [->| ->]; done.
Qed.

(** *** densev1 *)

Lemma dense_fill_fold_eq l cap :
  foldl dense_fill_times cap l
  = mkWaveform (m_timescale cap) (m_startTimestamp cap)
      (m_startFemtoseconds cap) (m_triggerPhase cap)
      (foldl (fun v i => <[i := to_int64 (Z.of_nat i)]> v) (m_offsets cap) l)
      (foldl (fun v i => <[i := 1]> v) (m_durations cap) l)
      (m_densePacked cap) (m_samples cap).
Proof.
  revert cap. induction l as [|i l IH]; intros cap.
  - by destruct cap.
  - simpl. by rewrite IH.
Qed.

Lemma load_densev1_eq buf cap :
  load_densev1 buf cap
  = let n := (length buf / (if acap cap then 4 else 1))%nat in
    mkWaveform (m_timescale cap) (m_startTimestamp cap)
      (m_startFemtoseconds cap) (m_triggerPhase cap)
      (map (fun i => to_int64 (Z.of_nat i)) (seq 0 n))
      (map (fun _ => 1) (seq 0 n))
      true
      (if acap cap then
         AnalogSamples (map (fun i => load_float buf (i * 4)) (seq 0 n))
       else
         DigitalSamples (map (fun i => load_bool buf (i * 1)) (seq 0 n))).
Proof.
  unfold load_densev1. rewrite dense_fill_fold_eq.
  unfold dense_copy_samples, Resize, acap, sizeof_float, sizeof_bool.
  cbn [m_samples m_offsets m_durations m_densePacked m_timescale
       m_startTimestamp m_startFemtoseconds m_triggerPhase
       set_densePacked set_samples set_offsets set_durations].
  destruct (m_samples cap) as [v|v]; cbv zeta;
    cbn [m_samples m_offsets m_durations m_densePacked m_timescale
         m_startTimestamp m_startFemtoseconds m_triggerPhase
         set_densePacked set_samples set_offsets set_durations];
    rewrite !foldl_insert_seq_full by apply length_resize; done.
Qed.

(** C6.  For every densev1 buffer (of a length an [int64_t] can count) the
    decoded waveform has [length buf / value size] samples (4 bytes for an
    analog value, 1 for a digital one), sample [i] is the [i]-th value of the
    buffer, offset [i] is [i], duration [i] is 1, the dense flag is set, and
    the loader reports completion. *)
Theorem densev1_reconstruction buf cap :
  Z.of_nat (length buf) < 2 ^ 63 ->
  let vsize := if acap cap then 4%nat else 1%nat in
  let n := (length buf / vsize)%nat in
  let w := load_densev1 buf cap in
  (sample_count w = n /\ length (m_offsets w) = n /\ length (m_durations w) = n)
  /\ (forall i, (i < n)%nat ->
        m_offsets w !! i = Some (Z.of_nat i) /\
        m_durations w !! i = Some 1 /\
        (if acap cap
         then analog_sample w i = Some (le_value (take 4 (drop (i * 4) buf)))
         else digital_sample w i = buf !! i))
  /\ m_densePacked w = true
  /\ DoLoadWaveformDataForScope (Some buf) "densev1" cap
     = Some (mkLoader w 1 1 []).
Proof.
  intros Hlen vsize n w.
  assert (n <= length buf)%nat as Hn.
  { unfold n, vsize. destruct (acap cap).
    - apply Nat.Div0.div_le_upper_bound. lia.
    - by rewrite Nat.div_1_r. }
  assert (n = length buf / vsize)%nat as Hn' by done.
  assert (w = load_densev1 buf cap) as Hw by done.
  assert (vsize = if acap cap then 4%nat else 1%nat) as Hv by done.
  clearbody n vsize.
  rewrite load_densev1_eq in Hw. cbv zeta in Hw. rewrite <- Hv, <- Hn' in Hw.
  split; [|split; [|split]].
  - rewrite Hw. unfold sample_count. cbn [m_offsets m_durations m_samples].
    destruct (acap cap); rewrite !length_map, !length_seq; done.
  - intros i Hi. rewrite Hw. cbn [m_offsets m_durations m_samples].
    rewrite !lookup_map_seq by done.
    rewrite to_int64_small by lia. split; [done|]. split; [done|].
    unfold analog_sample, digital_sample.
    destruct (acap cap) eqn:Hac; cbn [m_samples]; rewrite lookup_map_seq by done.
    + done.
    + unfold load_bool. rewrite Nat.mul_1_r.
      destruct (buf !! i) eqn:E; [done|].
      apply lookup_ge_None in E. subst vsize. rewrite Nat.div_1_r in Hn'. lia.
  - by rewrite Hw.
  - reflexivity.
Qed.

(** The law above at the six-sample reading of [one_sample_buffer]. *)
Lemma densev1_reconstruction_witness :
  Z.of_nat (length one_sample_buffer) < 2 ^ 63 /\
  m_offsets (load_densev1 one_sample_buffer empty_analog) !! 5%nat = Some 5 /\
  m_densePacked (load_densev1 one_sample_buffer empty_analog) = true.
Proof.
  assert (Z.of_nat (length one_sample_buffer) < 2 ^ 63) as Hlen
    by (vm_compute; reflexivity).
  split; [exact Hlen|].
  destruct (densev1_reconstruction one_sample_buffer empty_analog Hlen)
    as (_ & Hfields & Hflag & _).
  split; [|exact Hflag].
  apply (Hfields 5%nat). vm_compute. lia.
Defined.

(** *** The endpoint check *)

Lemma vec_at_nat v (i : nat) : vec_at v (Z.of_nat i) = v !! i.
Proof.
  unfold vec_at. destruct (Z.ltb_spec (Z.of_nat i) 0); [lia|].
  by rewrite Nat2Z.id.
Qed.

Lemma vec_at_0 v : vec_at v 0 = v !! 0%nat.
Proof. done. Qed.

Lemma sparse_dense_check_spec n cap :
  length (m_offsets cap) = n -> length (m_durations cap) = n ->
  (1 <= n)%nat -> Z.of_nat n < 2 ^ 63 ->
  exists w, sparse_dense_check n cap = Some w
    /\ (w = cap \/ w = set_densePacked true cap)
    /\ (m_densePacked w = true <->
        m_densePacked cap = true \/ endpoints_dense cap).
Proof.
  intros Ho Hd Hn Hbig. rewrite sparse_dense_check_eq.
  unfold endpoints_dense. cbv zeta.
  rewrite Ho.
  replace (Z.of_nat n - 1) with (Z.of_nat (n - 1)) by lia.
  assert (0 <= Z.of_nat (n - 1) < 2 ^ 63) as Hr by lia.
  rewrite (to_int64_small _ Hr).
  rewrite vec_at_0, !vec_at_nat.
  destruct (lookup_lt_is_Some_2 (m_offsets cap) 0%nat) as [o0 E0]; [lia|].
  destruct (lookup_lt_is_Some_2 (m_offsets cap) (n - 1)%nat) as [ol El]; [lia|].
  destruct (lookup_lt_is_Some_2 (m_durations cap) (n - 1)%nat) as [dl Ed]; [lia|].
  rewrite E0. simpl.
  destruct (Z.eqb_spec o0 0) as [->|H0]; simpl.
  2:{ exists cap. split; [done|]. split; [by left|].
      split; [by left|]. intros [?|(? & _)]; [done|congruence]. }
  rewrite El. simpl.
  destruct (Z.eqb_spec ol (Z.of_nat (n - 1))) as [->|Hl]; simpl.
  2:{ exists cap. split; [done|]. split; [by left|].
      split; [by left|]. intros [?|(_ & ? & _)]; [done|congruence]. }
  rewrite Ed. simpl.
  destruct (Z.eqb_spec dl 1) as [->|H1]; simpl.
  2:{ exists cap. split; [done|]. split; [by left|].
      split; [by left|]. intros [?|(_ & _ & ?)]; [done|congruence]. }
  exists (set_densePacked true cap). split; [done|]. split; [by right|].
  split; [by right|done].
Qed.

(** Non-overlapping samples of positive duration advance by at least one
    tick per sample. *)
Lemma offsets_advance cap i k a b :
  length (m_durations cap) = length (m_offsets cap) ->
  non_overlapping cap -> positive_durations cap ->
  m_offsets cap !! i = Some a -> m_offsets cap !! (i + k)%nat = Some b ->
  a + Z.of_nat k <= b.
Proof.
  intros Hlen Hno Hpos Ha. revert b. induction k as [|k IH]; intros b Hb.
  - rewrite Nat.add_0_r in Hb. assert (a = b) by congruence. lia.
  - replace (i + S k)%nat with (S (i + k)) in Hb by lia.
    destruct (lookup_lt_is_Some_2 (m_offsets cap) (i + k)%nat) as [c Hc].
    { apply lookup_lt_Some in Hb. lia. }
    destruct (lookup_lt_is_Some_2 (m_durations cap) (i + k)%nat) as [d Hd].
    { apply lookup_lt_Some in Hc. lia. }
    specialize (IH c Hc). specialize (Hno _ _ _ _ Hc Hd Hb).
    specialize (Hpos _ _ Hd). lia.
Qed.

Lemma endpoints_dense_exact cap :
  length (m_durations cap) = length (m_offsets cap) ->
  non_overlapping cap -> positive_durations cap ->
  endpoints_dense cap -> dense cap.
Proof.
  intros Hlen Hno Hpos (H0 & Hl & Hdl) i Hi.
  set (n := length (m_offsets cap)) in *.
  destruct (lookup_lt_is_Some_2 (m_offsets cap) i) as [a Ha]; [done|].
  destruct (lookup_lt_is_Some_2 (m_durations cap) i) as [d Hd]; [lia|].
  assert (0 + Z.of_nat i <= a) as Hlo.
  { apply (offsets_advance cap 0 i); done. }
  assert (a + Z.of_nat (n - 1 - i) <= Z.of_nat (n - 1)) as Hhi.
  { apply (offsets_advance cap i (n - 1 - i)); try done.
    replace (i + (n - 1 - i))%nat with (n - 1)%nat by lia. done. }
  assert (a = Z.of_nat i) as -> by lia.
  split; [done|].
  destruct (decide (i = n - 1)%nat) as [->|Hne]; [done|].
  destruct (lookup_lt_is_Some_2 (m_offsets cap) (S i)) as [b Hb]; [lia|].
  pose proof (offsets_advance cap (S i) (n - 1 - S i) b (Z.of_nat (n - 1))
      Hlen Hno Hpos Hb) as Hx.
  replace (S i + (n - 1 - S i))%nat with (n - 1)%nat in Hx by lia.
  specialize (Hx Hl).
  specialize (Hno _ _ _ _ Ha Hd Hb). specialize (Hpos _ _ Hd).
  rewrite Hd. f_equal. lia.
Qed.

Lemma dense_endpoints cap :
  length (m_durations cap) = length (m_offsets cap) ->
  (1 <= length (m_offsets cap))%nat ->
  dense cap -> endpoints_dense cap.
Proof.
  intros Hlen Hn Hd. unfold endpoints_dense. cbv zeta.
  destruct (Hd 0%nat) as [H0 _]; [lia|].
  destruct (Hd (length (m_offsets cap) - 1)%nat) as [Hl Hdl]; [lia|].
  done.
Qed.

Lemma dense_no_gap cap : dense cap -> ~ has_gap cap /\ ~ has_overlap cap.
Proof.
  intros Hd. split; intros (i & a & d & b & Ha & Hdu & Hb & Hlt).
  - destruct (Hd i) as [Ha' Hd']; [by eapply lookup_lt_Some|].
    destruct (Hd (S i)) as [Hb' _]; [by eapply lookup_lt_Some|].
    rewrite Ha' in Ha. rewrite Hd' in Hdu. rewrite Hb' in Hb.
    simplify_eq. lia.
  - destruct (Hd i) as [Ha' Hd']; [by eapply lookup_lt_Some|].
    destruct (Hd (S i)) as [Hb' _]; [by eapply lookup_lt_Some|].
    rewrite Ha' in Ha. rewrite Hd' in Hdu. rewrite Hb' in Hb.
    simplify_eq. lia.
Qed.

Lemma sparse_read_records_lengths buf cap :
  length (m_offsets (sparse_read_records buf cap)) = (length buf / samplesize cap)%nat
  /\ length (m_durations (sparse_read_records buf cap)) = (length buf / samplesize cap)%nat.
Proof.
  rewrite sparse_read_records_eq. cbv zeta. cbn [m_offsets m_durations].
  by rewrite !length_map, !length_seq.
Qed.

Lemma records_fit_int64 (buf : list byte) cap :
  Z.of_nat (length buf) < 2 ^ 63 ->
  Z.of_nat (length buf / samplesize cap) < 2 ^ 63.
Proof.
  intros H. pose proof (Nat.Div0.div_le_upper_bound (length buf) (samplesize cap) (length buf)) as Hd.
  pose proof (samplesize_pos cap).
  assert (length buf / samplesize cap <= length buf)%nat; [|lia].
  apply Hd. nia.
Qed.

(** C5 (as amended).  Decoding a sparsev1 buffer with at least one complete
    record into a waveform whose dense flag is clear succeeds, and the flag
    ends up set exactly when sample 0 has offset 0 and the last sample has
    offset equal to its index and duration 1.  Offsets 0..n-1 with durations
    1 therefore decode as dense.  When the samples do not overlap and every
    duration is at least 1, the endpoint test is exact: the flag is set
    exactly for dense waveforms, and a waveform with a gap (or an overlap)
    decodes with the flag clear. *)
Theorem sparsev1_dense_detection buf cap :
  m_densePacked cap = false ->
  (1 <= length buf / samplesize cap)%nat ->
  Z.of_nat (length buf) < 2 ^ 63 ->
  exists w, load_sparsev1 buf cap = Some w
    /\ (m_densePacked w = true <-> endpoints_dense w)
    /\ (dense w -> m_densePacked w = true)
    /\ (monotonic w -> non_overlapping w -> positive_durations w ->
        (m_densePacked w = true <-> dense w)
        /\ (has_gap w \/ has_overlap w -> m_densePacked w = false)).
Proof.
  intros Hfresh Hn Hbig.
  destruct (sparse_read_records_lengths buf cap) as [Ho Hd].
  destruct (sparse_dense_check_spec _ _ Ho Hd Hn (records_fit_int64 _ _ Hbig))
    as (w & Hw & Hcases & Hflag).
  assert (m_densePacked (sparse_read_records buf cap) = false) as Hf0
    by (rewrite sparse_read_records_eq; exact Hfresh).
  rewrite Hf0 in Hflag.
  exists w. split; [exact Hw|].
  assert (m_offsets w = m_offsets (sparse_read_records buf cap)
          /\ m_durations w = m_durations (sparse_read_records buf cap)) as [Eo Ed].
  { by destruct Hcases as [->| ->]. }
  assert (endpoints_dense w <-> endpoints_dense (sparse_read_records buf cap)) as Hend.
  { unfold endpoints_dense. by rewrite Eo, Ed. }
  assert (length (m_durations w) = length (m_offsets w)) as Hlen
    by (rewrite Eo, Ed; congruence).
  assert (1 <= length (m_offsets w))%nat as Hpos by (rewrite Eo; lia).
  assert (m_densePacked w = true <-> endpoints_dense w) as Hiff.
  { rewrite Hflag, Hend. split; [intros [?|?]; [done|done]|by right]. }
  split; [exact Hiff|].
  split. { intros Hdense. apply Hiff. by apply dense_endpoints. }
  intros _ Hno Hpd.
  assert (m_densePacked w = true <-> dense w) as Hexact.
  { rewrite Hiff. split; [by apply endpoints_dense_exact|by apply dense_endpoints]. }
  split; [exact Hexact|].
  intros Hgap. destruct (m_densePacked w) eqn:E; [|done].
  destruct (dense_no_gap w) as [Hg Hov]; [by apply Hexact|].
  destruct Hgap; done.
Qed.

(** The detection theorem at the one-record buffer. *)
Lemma sparsev1_dense_detection_witness :
  exists w, load_sparsev1 one_sample_buffer empty_analog = Some w
    /\ (m_densePacked w = true <-> endpoints_dense w).
Proof.
  destruct (sparsev1_dense_detection one_sample_buffer empty_analog)
    as (w & Hw & Hiff & _).
  - reflexivity.
  - vm_compute. lia.
  - vm_compute. reflexivity.
  - exists w. split; [exact Hw|exact Hiff].
Defined.

(** C5, counterexample.  Three digital records with
    offsets 0, 1, 2 and durations 0, 1, 1 are monotonic and do not overlap,
    sample 0 ends at 0 while sample 1 starts at 1 (a gap), and the decoder
    still sets the dense flag. *)
Lemma sparsev1_zero_duration_gap_marked_dense :
  exists w, load_sparsev1 zero_duration_buffer empty_digital = Some w
    /\ monotonic w /\ non_overlapping w /\ has_gap w
    /\ m_densePacked w = true.
Proof.
  eexists. split; [vm_compute; reflexivity|].
  split; [|split; [|split]].
  - intros i a b Ha Hb. cbn [m_offsets] in *.
    destruct i as [|[|[|i]]]; simpl in *; simplify_eq; lia.
  - intros i a d b Ha Hd Hb. cbn [m_offsets m_durations] in *.
    destruct i as [|[|[|i]]]; simpl in *; simplify_eq; lia.
  - exists 0%nat, 0, 0, 1. cbn. repeat split; lia.
  - reflexivity.
Qed.

(** C7, the code on both sides of the failing input.  On a sparsev1 buffer
    that holds at least one complete record the decode is defined: the
    waveform has [length buf / record size] samples (integer division), where
    a record is 16 bytes of offset and duration plus 4 bytes (analog) or 1
    byte (digital); sample [j] carries the offset, duration and value fields
    of record [j]; and the bytes after the last complete record are dropped
    silently, the buffer cut after that record decoding to the same
    waveform.  On a buffer that holds no complete record the record loop
    leaves no sample, and the endpoint check that follows reads outside the
    empty vectors: the decode is undefined instead of giving the empty
    waveform. *)
Theorem sparsev1_record_count_and_fields buf cap :
  Z.of_nat (length buf) < 2 ^ 63 ->
  let rsize := record_size (acap cap) in
  let n := (length buf / rsize)%nat in
  ((1 <= n)%nat ->
   exists w, load_sparsev1 buf cap = Some w
     /\ (length (m_offsets w) = n /\ length (m_durations w) = n
         /\ sample_count w = n)
     /\ (forall j, (j < n)%nat ->
           let r := record_bytes rsize buf j in
           length r = rsize /\
           m_offsets w !! j = Some (record_offset r) /\
           m_durations w !! j = Some (record_duration r) /\
           (if acap cap then analog_sample w j = Some (record_analog_value r)
            else digital_sample w j = Some (record_digital_value r)))
     /\ load_sparsev1 (take (n * rsize) buf) cap = Some w)
  /\ (n = 0%nat ->
      sample_count (sparse_read_records buf cap) = 0%nat
      /\ load_sparsev1 buf cap = None).
Proof.
  intros Hbig rsize n.
  assert (samplesize cap = rsize) as Hss.
  { unfold rsize, record_size. rewrite samplesize_cases. by destruct (acap cap). }
  assert (0 < rsize)%nat as Hrs by (rewrite <- Hss; apply samplesize_pos).
  destruct (sparse_read_records_fields buf cap)
    as ((Ho & Hd & Hc) & Hfields & Hcut & _).
  fold rsize n in Ho, Hd, Hc, Hfields, Hcut.
  split.
  - intros Hn.
    destruct (sparse_dense_check_spec n (sparse_read_records buf cap) Ho Hd Hn)
      as (w & Hw & Hcases & _).
    { pose proof (records_fit_int64 buf cap Hbig) as Hfit.
      by rewrite Hss in Hfit. }
    assert (m_offsets w = m_offsets (sparse_read_records buf cap)
            /\ m_durations w = m_durations (sparse_read_records buf cap)
            /\ m_samples w = m_samples (sparse_read_records buf cap))
      as (Eo & Ed & Es) by (by destruct Hcases as [->| ->]).
    exists w. split; [|split; [|split]].
    + unfold load_sparsev1. by rewrite Hss.
    + unfold sample_count in *. by rewrite Eo, Ed, Es.
    + intros j Hj r. destruct (Hfields j Hj) as (Hlen & Hoj & Hdj & Hsj).
      fold r in Hlen, Hoj, Hdj, Hsj.
      unfold analog_sample, digital_sample in *. by rewrite Eo, Ed, Es.
    + unfold load_sparsev1. rewrite Hss, Hcut.
      assert (length (take (n * rsize) buf) / rsize = n)%nat as ->; [|done].
      rewrite length_take, Nat.min_l; [by apply Nat.div_mul; lia|].
      unfold n. rewrite Nat.mul_comm. apply Nat.Div0.mul_div_le.
  - intros Hn. split; [by rewrite Hc|].
    unfold load_sparsev1. rewrite Hss. fold n.
    rewrite sparse_dense_check_eq. cbv zeta.
    rewrite Hn in Ho. apply nil_length_inv in Ho. by rewrite Ho.
Qed.

(** The theorem at a record followed by four stray bytes, and at an analog
    record cut one byte short. *)
Lemma sparsev1_record_count_and_fields_witness :
  (exists w, load_sparsev1 one_sample_buffer empty_analog = Some w
     /\ sample_count w = 1%nat
     /\ load_sparsev1 (take 20 one_sample_buffer) empty_analog = Some w)
  /\ length partial_record_buffer = 19%nat
  /\ load_sparsev1 partial_record_buffer empty_analog = None.
Proof.
  split; [|split; [reflexivity|]].
  - destruct (proj1 (sparsev1_record_count_and_fields one_sample_buffer
                       empty_analog ltac:(vm_compute; reflexivity)))
      as (w & Hw & (_ & _ & Hc) & _ & Hcut); [vm_compute; lia|].
    exists w. split; [exact Hw|]. split; [exact Hc|exact Hcut].
  - apply (proj2 (sparsev1_record_count_and_fields partial_record_buffer
                    empty_analog ltac:(vm_compute; reflexivity))).
    reflexivity.
Defined.

(** *** Which elements the endpoint check reads *)

Lemma endpoint_check_reads n cap :
  length (m_offsets cap) = n -> length (m_durations cap) = n ->
  Z.of_nat n < 2 ^ 63 ->
  let nlast := Z.of_nat n - 1 in
  let reads := (endpoint_check n cap).1 in
  (exists more, reads = (Offsets, 0) :: more
     /\ more `prefix_of` [(Offsets, nlast); (Durations, nlast)])
  /\ ((2 <= length reads)%nat <-> m_offsets cap !! 0%nat = Some 0)
  /\ ((3 <= length reads)%nat <->
      m_offsets cap !! 0%nat = Some 0
      /\ m_offsets cap !! (n - 1)%nat = Some nlast)
  /\ (Forall (fun rd => is_Some (vec_at (vector rd.1 cap) rd.2)) reads
      <-> (1 <= n)%nat).
Proof.
  intros Ho Hd Hbig nlast reads. subst reads.
  unfold endpoint_check, read_at, result. cbn [vector]. cbv zeta.
  destruct n as [|n'].
  { apply nil_length_inv in Ho. rewrite vec_at_0, Ho. cbn [lookup list_lookup fst snd].
    split; [exists []; split; [done|by exists [(Offsets, nlast); (Durations, nlast)]]|].
    split; [split; [intros H; cbn in H; lia|done]|].
    split; [split; [intros H; cbn in H; lia|by intros [? _]]|].
    split; [|lia]. intros H. apply Forall_cons in H as [[x Hx] _].
    cbn [fst snd vector] in Hx. by rewrite Ho in Hx. }
  set (n := S n') in *.
  assert (to_int64 (Z.of_nat n - 1) = nlast) as ->
    by (apply to_int64_small; unfold nlast; lia).
  assert (nlast = Z.of_nat (n - 1)) as Hnl by (unfold nlast; lia).
  rewrite vec_at_0. rewrite Hnl, !vec_at_nat.
  destruct (lookup_lt_is_Some_2 (m_offsets cap) 0%nat) as [o0 E0]; [lia|].
  destruct (lookup_lt_is_Some_2 (m_offsets cap) (n - 1)%nat) as [ol El]; [lia|].
  destruct (lookup_lt_is_Some_2 (m_durations cap) (n - 1)%nat) as [dl Ed]; [lia|].
  assert (is_Some (vec_at (m_offsets cap) 0)) as B0
    by (rewrite vec_at_0, E0; eauto).
  assert (is_Some (vec_at (m_offsets cap) (Z.of_nat (n - 1)))) as Bl
    by (rewrite vec_at_nat, El; eauto).
  assert (is_Some (vec_at (m_durations cap) (Z.of_nat (n - 1)))) as Bd
    by (rewrite vec_at_nat, Ed; eauto).
  rewrite E0. cbn [fst snd].
  destruct (Z.eqb_spec o0 0) as [->|H0]; cbn [negb fst snd].
  2:{ split; [exists []; split; [done|by eexists]|].
      split; [split; [cbn; lia|congruence]|].
      split; [split; [cbn; lia|intros [? _]; congruence]|].
      split; [lia|]. intros _. by repeat constructor. }
  rewrite El. cbn [fst snd].
  destruct (Z.eqb_spec ol (Z.of_nat (n - 1))) as [->|Hl]; cbn [negb fst snd].
  2:{ split; [exists [(Offsets, Z.of_nat (n - 1))]; split;
               [done|by exists [(Durations, Z.of_nat (n - 1))]]|].
      split; [split; [done|cbn; lia]|].
      split; [split; [cbn; lia|intros [_ ?]; congruence]|].
      split; [lia|]. intros _. by repeat constructor. }
  rewrite Ed. cbn [fst snd].
  destruct (negb (dl =? 1)); cbn [fst snd].
  all: split; [eexists; split; [done|by exists []]|].
  all: split; [split; [done|cbn; lia]|].
  all: split; [split; [done|cbn; lia]|].
  all: split; [lia|]; intros _; by repeat constructor.
Qed.

(** C9 (as amended).  The endpoint check is reached for every buffer,
    without a test of the sample count.  It always reads the offset of
    sample 0, first; it goes on to the offset of sample nsamples-1 exactly
    when the first offset is 0, and to the duration of sample nsamples-1
    exactly when that offset is nsamples-1 as well; it reads nothing else.
    Every read it makes is inside its vector exactly when the buffer holds
    at least one complete record, and exactly then the decode is defined.
    With no complete record the vectors are empty and the first read, of
    element 0, is outside them. *)
Theorem sparsev1_endpoint_reads buf cap :
  Z.of_nat (length buf) < 2 ^ 63 ->
  let n := (length buf / samplesize cap)%nat in
  let r := sparse_read_records buf cap in
  let nlast := Z.of_nat n - 1 in
  let reads := endpoint_reads buf cap in
  (length (m_offsets r) = n /\ length (m_durations r) = n)
  /\ (exists more, reads = (Offsets, 0) :: more
        /\ more `prefix_of` [(Offsets, nlast); (Durations, nlast)])
  /\ ((2 <= length reads)%nat <-> m_offsets r !! 0%nat = Some 0)
  /\ ((3 <= length reads)%nat <->
      m_offsets r !! 0%nat = Some 0
      /\ m_offsets r !! (n - 1)%nat = Some nlast)
  /\ (Forall (fun rd => is_Some (vec_at (vector rd.1 r) rd.2)) reads
      <-> (1 <= n)%nat)
  /\ (is_Some (load_sparsev1 buf cap) <-> (1 <= n)%nat)
  /\ (n = 0%nat ->
      m_offsets r = [] /\ m_durations r = []
      /\ reads = [(Offsets, 0)]
      /\ vec_at (m_offsets r) 0 = None
      /\ load_sparsev1 buf cap = None).
Proof.
  intros Hbig n r nlast reads.
  destruct (sparse_read_records_lengths buf cap) as [Ho Hd].
  fold n r in Ho, Hd.
  assert (Z.of_nat n < 2 ^ 63) as Hnb by (by apply records_fit_int64).
  destruct (endpoint_check_reads n r Ho Hd Hnb) as (Hfirst & H2 & H3 & Hin).
  assert (n = 0%nat -> m_offsets r = [] /\ m_durations r = []) as Hnil.
  { intros E. rewrite E in Ho, Hd. split; by apply nil_length_inv. }
  assert (n = 0%nat -> load_sparsev1 buf cap = None) as Hnone.
  { intros E. unfold load_sparsev1. fold n r. rewrite sparse_dense_check_eq.
    cbv zeta. destruct (Hnil E) as [-> _]. done. }
  assert ((1 <= n)%nat -> is_Some (load_sparsev1 buf cap)) as Hsome.
  { intros Hn. destruct (sparse_dense_check_spec n r Ho Hd Hn Hnb)
      as (w & Hw & _). exists w. exact Hw. }
  split; [done|]. split; [exact Hfirst|]. split; [exact H2|].
  split; [exact H3|]. split; [exact Hin|]. split.
  - split; [|exact Hsome].
    intros [w Hw]. destruct n; [|lia]. rewrite Hnone in Hw; done.
  - intros E. destruct (Hnil E) as [Eo Ed].
    split; [exact Eo|]. split; [exact Ed|]. split; [|split].
    + unfold reads, endpoint_reads. fold n r.
      unfold endpoint_check, read_at. cbn [vector]. by rewrite Eo.
    + by rewrite Eo.
    + by apply Hnone.
Qed.

(** The theorem at the one-record buffer. *)
Lemma sparsev1_endpoint_reads_witness :
  Z.of_nat (length one_sample_buffer) < 2 ^ 63 /\
  (is_Some (load_sparsev1 one_sample_buffer empty_analog)
   <-> (1 <= length one_sample_buffer / samplesize empty_analog)%nat).
Proof.
  assert (Z.of_nat (length one_sample_buffer) < 2 ^ 63) as Hlen
    by (vm_compute; reflexivity).
  split; [exact Hlen|].
  exact (proj1 (proj2 (proj2 (proj2 (proj2 (proj2
    (sparsev1_endpoint_reads one_sample_buffer empty_analog Hlen))))))).
Defined.

(** C9, counterexample.  Two analog records with offsets 5 and 6: the decode
    is defined, the check reads the offset of sample 0, finds it different
    from 0 and stops; neither the offset nor the duration of sample
    nsamples-1 = 1 is read. *)
Lemma endpoint_check_stops_early :
  (length late_start_buffer / samplesize empty_analog = 2)%nat
  /\ is_Some (load_sparsev1 late_start_buffer empty_analog)
  /\ endpoint_reads late_start_buffer empty_analog = [(Offsets, 0)]
  /\ ~ (Offsets, 1) ∈ endpoint_reads late_start_buffer empty_analog
  /\ ~ (Durations, 1) ∈ endpoint_reads late_start_buffer empty_analog.
Proof.
  split; [reflexivity|]. split; [by eexists; vm_compute|].
  split; [reflexivity|].
  assert (endpoint_reads late_start_buffer empty_analog = [(Offsets, 0)])
    as -> by reflexivity.
  split; by intros H%list_elem_of_singleton.
Qed.

(** *** The progress loop *)

Lemma wait_for_loaders_stuck snapshot :
  (forall k, all_done (snapshot k) = false) ->
  forall fuel k, wait_for_loaders fuel snapshot k = None.
Proof.
  intros Hstuck fuel. induction fuel as [|fuel IH]; intros k; [done|].
  simpl. by rewrite Hstuck.
Qed.

Lemma all_done_zero_cell cells i :
  cells !! i = Some 0 -> all_done cells = false.
Proof.
  intros Hi. destruct (all_done cells) eqn:E; [|done].
  unfold all_done in E. rewrite forallb_forall in E.
  specialize (E 0). rewrite <- list_elem_of_In in E.
  assert (0 ∈ cells) as Hin by (by eapply list_elem_of_lookup_2).
  specialize (E Hin). done.
Qed.

Lemma done_cells_stuck results finish i st :
  results !! i = Some st -> ld_done st = 0 ->
  forall k, all_done (done_cells results finish k) = false.
Proof.
  intros Hi Hd k. apply (all_done_zero_cell _ i).
  unfold done_cells. rewrite list_lookup_imap, Hi. simpl.
  rewrite Hd. by destruct (finish i <=? k)%nat.
Qed.

Lemma missing_file_leaves_done_clear format cap :
  DoLoadWaveformDataForScope None format cap
  = Some (mkLoader cap 0 0 [LogError "couldn't open"]).
Proof. done. Qed.

Lemma unknown_format_signals_done buf format cap :
  format <> "sparsev1" -> format <> "densev1" ->
  DoLoadWaveformDataForScope (Some buf) format cap
  = Some (mkLoader cap 1 1 [LogError "Unknown waveform format"]).
Proof.
  intros H1 H2. unfold DoLoadWaveformDataForScope.
  rewrite !bool_decide_eq_false_2 by done. done.
Qed.

Lemma missing_file_blocks_load channels results i format cap :
  mapM (fun '(file, format, cap) =>
          DoLoadWaveformDataForScope file format cap) channels = Some results ->
  channels !! i = Some (None, format, cap) ->
  forall fuel finish, load_one_waveform fuel finish channels = StillWaiting.
Proof.
  intros Hruns Hi fuel finish. unfold load_one_waveform. rewrite Hruns.
  rewrite wait_for_loaders_stuck; [done|].
  apply mapM_Some in Hruns.
  destruct (Forall2_lookup_l _ _ _ _ _ Hruns Hi) as (st & Hst & Hrun).
  apply (done_cells_stuck _ _ i st); [done|].
  cbn in Hrun. by injection Hrun as <-.
Qed.

Lemma wait_for_loaders_breaks snapshot K :
  all_done (snapshot K) = true ->
  forall k, (k <= K)%nat ->
  exists k', wait_for_loaders (S (K - k)) snapshot k = Some k'.
Proof.
  intros HK k Hk. remember (K - k)%nat as d eqn:Hd.
  revert k Hk Hd. induction d as [|d IH]; intros k Hk Hd.
  - assert (k = K) as -> by lia. simpl. rewrite HK. eauto.
  - cbn [wait_for_loaders]. destruct (all_done (snapshot k)); [eauto|].
    apply IH; lia.
Qed.

(** C8, the code at the failing input.  A loader whose body file cannot be
    opened logs the error and returns with its [done] cell still 0, so the
    progress loop of a waveform event that contains such a channel breaks
    out for no amount of fuel and no thread timing.  The unknown-format path
    of the same loader does store 1 into [done], and a load with only that
    failure completes. *)
Theorem missing_body_file_never_completes :
  DoLoadWaveformDataForScope None "sparsev1" empty_analog
    = Some (mkLoader empty_analog 0 0 [LogError "couldn't open"])
  /\ (forall fuel finish,
        load_one_waveform fuel finish missing_file_channels = StillWaiting)
  /\ DoLoadWaveformDataForScope (Some one_sample_buffer) "sparsev9" empty_analog
    = Some (mkLoader empty_analog 1 1 [LogError "Unknown waveform format"])
  /\ (forall finish, exists results,
        load_one_waveform (S (finish 0%nat))  finish
          [(Some one_sample_buffer, "sparsev9", empty_analog)]
        = Loaded results).
Proof.
  split; [done|]. split.
  { eapply (missing_file_blocks_load _ _ 0%nat "sparsev1" empty_analog);
      [vm_compute; reflexivity|done]. }
  split; [done|].
  intros finish. unfold load_one_waveform.
  change (mapM _ [(Some one_sample_buffer, "sparsev9", empty_analog)])
    with (Some [mkLoader empty_analog 1 1
                  [LogError "Unknown waveform format"]]).
  cbv beta iota.
  destruct (wait_for_loaders_breaks
    (done_cells [mkLoader empty_analog 1 1
                   [LogError "Unknown waveform format"]] finish)
    (finish 0%nat)) with (k := 0%nat) as [k' Hk'].
  - cbn. rewrite Nat.leb_refl. done.
  - lia.
  - rewrite Nat.sub_0_r in Hk'. rewrite Hk'. eauto.
Qed.

End CodecFacts.

(* ===================================================================== *)
(** * Properties of the trigger coordination                              *)
(* ===================================================================== *)

Section TriggerFacts.

Import Trigger.

Lemma any_online_all_offline env ix w :
  (forall i, i ∈ ix -> offline env i = true) ->
  exists w', any_online env ix w = Some (false, w')
    /\ trace_extended w w' (offline_queries ix).
Proof.
  revert w. induction ix as [|i ix IH]; intros w Hoff.
  - exists w. split; [done|].
    unfold trace_extended, same_fields, same_flags. simpl.
    by rewrite app_nil_r.
  - simpl. unfold bind at 1. unfold scope_IsOffline, call, emit, bind, ret.
    rewrite Hoff by set_solver. simpl.
    edestruct IH as (w' & Hrun & Hext); [intros; apply Hoff; set_solver|].
    exists w'. split; [exact Hrun|].
    unfold trace_extended, same_fields, same_flags in *. simpl in Hext.
    rewrite <- app_assoc in Hext. simpl in Hext. exact Hext.
Qed.

(** C10.  When every scope of the session is offline (in particular when
    there is none), [CheckForPendingWaveforms] only asks each scope whether
    it is offline, asks no scope for pending data or for its armed state,
    sends no command, and returns the trigger-armed flag; [ArmTrigger] in the
    same situation sends no command either, sets the armed flag and stores
    the current time as arm timestamp. *)
Theorem no_online_scopes env fuel type w :
  (forall i, (i < nscopes env)%nat -> offline env i = true) ->
  (exists w', CheckForPendingWaveforms env fuel w = Some (m_triggerArmed w, w')
     /\ trace_extended w w' (offline_queries (seq 0 (nscopes env))))
  /\ (exists w', ArmTrigger env fuel type w = Some (tt, w')
     /\ trace w' = trace w ++ offline_queries (seq 0 (nscopes env))
     /\ m_triggerArmed w' = true
     /\ m_tArm w' = clock env (n_clock w)
     /\ n_pending w' = n_pending w /\ n_armed w' = n_armed w).
Proof.
  intros Hoff.
  assert (forall i, i ∈ seq 0 (nscopes env) -> offline env i = true) as Hall.
  { intros i Hi%elem_of_seq. apply Hoff. lia. }
  split.
  - destruct (any_online_all_offline env _ w Hall) as (w' & Hrun & Hext).
    exists w'. split; [|done].
    unfold CheckForPendingWaveforms, HasOnlineScopes, scopes, bind at 1.
    rewrite Hrun. simpl. unfold get.
    destruct Hext as (((-> & _) & _) & _). done.
  - unfold ArmTrigger, HasOnlineScopes, scopes, bind, set_triggerOneShot.
    match goal with |- context [any_online env _ ?w0] =>
      destruct (any_online_all_offline env _ w0 Hall) as (w' & Hrun & Hext) end.
    rewrite Hrun. simpl.
    unfold GetTime, set_tArm, set_triggerArmed. simpl.
    eexists. split; [reflexivity|]. simpl.
    destruct Hext as ((_ & Hp) & Ha & Hc & Ht). simpl in *.
    rewrite Hc. done.
Qed.

(** The offline theorem at two offline scopes. *)
Lemma no_online_scopes_witness :
  (forall i, (i < nscopes all_offline)%nat -> offline all_offline i = true) /\
  exists w', ArmTrigger all_offline 0 TRIGGER_TYPE_NORMAL initial_window
             = Some (tt, w')
    /\ m_triggerArmed w' = true.
Proof.
  assert (forall i, (i < nscopes all_offline)%nat -> offline all_offline i = true)
    as Hoff by (intros i _; reflexivity).
  split; [exact Hoff|].
  destruct (no_online_scopes all_offline 0 TRIGGER_TYPE_NORMAL initial_window Hoff)
    as (_ & w' & Hrun & _ & Harmed & _).
  exists w'. split; [exact Hrun|exact Harmed].
Defined.

(** *** Polling while a secondary has no data *)

Lemma silent_poll clock fuel w :
  CheckForPendingWaveforms (secondary_silent clock) fuel w
  = Some (false,
          mkWindow (m_triggerArmed w) (m_triggerOneShot w)
            (m_multiScopeFreeRun w) (m_tPrimaryTrigger w) (m_tArm w)
            (S (S (n_pending w))) (n_armed w) (n_clock w)
            (trace w ++ silent_poll_events)).
Proof.
  unfold CheckForPendingWaveforms, HasOnlineScopes, scopes, bind. simpl.
  unfold bind. simpl. rewrite <- !app_assoc. done.
Qed.

Lemma silent_polls clock fuel n w :
  exists w', poll_repeatedly (secondary_silent clock) fuel n w
             = Some (replicate n false, w')
    /\ trace w' = trace w ++ concat (replicate n silent_poll_events)
    /\ m_triggerArmed w' = m_triggerArmed w
    /\ m_multiScopeFreeRun w' = m_multiScopeFreeRun w
    /\ m_tPrimaryTrigger w' = m_tPrimaryTrigger w
    /\ n_clock w' = n_clock w.
Proof.
  revert w. induction n as [|n IH]; intros w.
  - exists w. simpl. by rewrite app_nil_r.
  - cbn [poll_repeatedly]. unfold bind. rewrite silent_poll.
    match goal with |- context [poll_repeatedly _ _ _ ?w0] =>
      destruct (IH w0) as (w' & Hrun & Htr & Hfl) end.
    rewrite Hrun. exists w'. split; [done|].
    split; [|exact Hfl]. rewrite Htr. simpl. by rewrite <- app_assoc.
Qed.

Lemma silent_arming clock fuel :
  ArmTrigger (secondary_silent clock) (S fuel) TRIGGER_TYPE_NORMAL
    initial_window = Some (tt, silent_armed clock).
Proof. reflexivity. Qed.

(** C2, the code at the failing input.  Two online scopes are armed with a
    normal trigger (free-run mode); from then on the primary reports pending
    data at every poll and the secondary never does.  Whatever the clock
    reads and however often the window polls, every poll returns false after
    asking only [IsOffline] and [HasPendingWaveforms]: nothing is stopped,
    nothing is cleared, the trigger is not re-armed, the clock is not read
    and the time of the primary's trigger is never recorded. *)
Theorem free_run_watchdog_not_reached :
  forall clock fuel n, exists w',
    ArmTrigger (secondary_silent clock) (S fuel) TRIGGER_TYPE_NORMAL
      initial_window = Some (tt, silent_armed clock)
    /\ poll_repeatedly (secondary_silent clock) fuel n (silent_armed clock)
       = Some (replicate n false, w')
    /\ trace w' = trace (silent_armed clock)
                  ++ concat (replicate n silent_poll_events)
    /\ m_triggerArmed w' = true /\ m_multiScopeFreeRun w' = true
    /\ m_tPrimaryTrigger w' = double_of_Z (-1)
    /\ n_clock w' = 2%nat.
Proof.
  intros clock fuel n.
  destruct (silent_polls clock fuel n (silent_armed clock))
    as (w' & Hrun & Htr & Ha & Hf & Htp & Hc).
  exists w'. split; [apply silent_arming|].
  split; [exact Hrun|]. split; [exact Htr|].
  split; [by rewrite Ha|]. split; [by rewrite Hf|].
  split; [by rewrite Htp|]. by rewrite Hc.
Qed.

(** *** The confirmation loop *)

Lemma wait_until_armed_out_of_fuel env i fuel :
  forall start w,
  (forall j, (j < fuel)%nat -> armed env i (n_armed w + j) = false) ->
  wait_until_armed env fuel i start w = None.
Proof.
  induction fuel as [|fuel IH]; intros start w Hf; [done|].
  assert (armed env i (n_armed w) = false) as H0.
  { rewrite <- (Nat.add_0_r (n_armed w)). apply Hf. lia. }
  cbn [wait_until_armed]. unfold bind, scope_PeekTriggerArmed.
  rewrite H0. unfold GetTime. cbn [n_clock n_armed].
  destruct (double_ltb _ _); cbn.
  - apply IH. intros j Hj. cbn.
    replace (S (n_armed w + j)) with (n_armed w + S j)%nat by lia.
    apply Hf. lia.
  - apply IH. intros j Hj. cbn.
    replace (S (n_armed w + j)) with (n_armed w + S j)%nat by lia.
    apply Hf. lia.
Qed.

Lemma wait_until_armed_run env i k :
  forall start w,
  (forall j, (j < k)%nat -> armed env i (n_armed w + j) = false) ->
  armed env i (n_armed w + k) = true ->
  exists w',
    (forall fuel, (k < fuel)%nat ->
       wait_until_armed env fuel i start w = Some (tt, w'))
    /\ trace w' = trace w
         ++ concat (map (poll_events i)
                      (timeout_windows start (map (clock env) (seq (n_clock w) k))))
         ++ [ScopeCall i PeekTriggerArmed]
    /\ n_armed w' = (n_armed w + S k)%nat
    /\ n_clock w' = (n_clock w + k)%nat
    /\ same_fields w w'.
Proof.
  induction k as [|k IH]; intros start w Hfalse Htrue.
  - eexists. split.
    + intros [|fuel] Hfuel; [lia|]. cbn [wait_until_armed].
      unfold bind, scope_PeekTriggerArmed.
      rewrite Nat.add_0_r in Htrue. rewrite Htrue. reflexivity.
    + cbn. unfold same_fields, same_flags. cbn. repeat split; lia.
  - assert (armed env i (n_armed w) = false) as H0.
    { rewrite <- (Nat.add_0_r (n_armed w)). apply Hfalse. lia. }
    cbn [seq map timeout_windows].
    set (now := clock env (n_clock w)).
    destruct (double_ltb (double_of_Z 3) (double_sub now start)) eqn:Hto.
    + edestruct (IH now) as (w' & Hrun & Htr & Hna & Hnc & Hsame);
        [ | | exists w'; split; [|split; [|split; [|split]]]].
      3:{ intros [|fuel] Hfuel; [lia|]. cbn [wait_until_armed].
          unfold bind, scope_PeekTriggerArmed. rewrite H0.
          unfold GetTime. cbn [n_clock]. fold now. rewrite Hto. cbn.
          apply Hrun. lia. }
      * intros j Hj. cbn.
        replace (S (n_armed w + j)) with (n_armed w + S j)%nat by lia.
        apply Hfalse. lia.
      * cbn. replace (S (n_armed w + k)) with (n_armed w + S k)%nat by lia.
        exact Htrue.
      * rewrite Htr. cbn. rewrite <- !app_assoc. reflexivity.
      * rewrite Hna. cbn. lia.
      * rewrite Hnc. cbn. lia.
      * exact Hsame.
    + edestruct (IH start) as (w' & Hrun & Htr & Hna & Hnc & Hsame);
        [ | | exists w'; split; [|split; [|split; [|split]]]].
      3:{ intros [|fuel] Hfuel; [lia|]. cbn [wait_until_armed].
          unfold bind, scope_PeekTriggerArmed. rewrite H0.
          unfold GetTime. cbn [n_clock]. fold now. rewrite Hto. cbn.
          apply Hrun. lia. }
      * intros j Hj. cbn.
        replace (S (n_armed w + j)) with (n_armed w + S j)%nat by lia.
        apply Hfalse. lia.
      * cbn. replace (S (n_armed w + k)) with (n_armed w + S k)%nat by lia.
        exact Htrue.
      * rewrite Htr. cbn. rewrite <- !app_assoc. reflexivity.
      * rewrite Hna. cbn. lia.
      * rewrite Hnc. cbn. lia.
      * exact Hsame.
Qed.

Lemma bounded_search (f : nat -> bool) (n : nat) :
  (exists k, (k < n)%nat /\ f k = true /\ forall j, (j < k)%nat -> f j = false)
  \/ (forall j, (j < n)%nat -> f j = false).
Proof.
  induction n as [|n [(k & Hk & Ht & Hl)|Hnone]].
  - right. intros j Hj. lia.
  - left. exists k. split; [lia|done].
  - destruct (f n) eqn:E.
    + left. exists n. split; [lia|done].
    + right. intros j Hj. destruct (decide (j = n)) as [->|]; [done|].
      apply Hnone. lia.
Qed.

Lemma confirm_armed_unfold env fuel i w :
  i <> 0%nat ->
  confirm_armed env fuel i w
  = match wait_until_armed env fuel i (clock env (n_clock w))
            (mkWindow (m_triggerArmed w) (m_triggerOneShot w)
               (m_multiScopeFreeRun w) (m_tPrimaryTrigger w) (m_tArm w)
               (n_pending w) (n_armed w) (S (n_clock w)) (trace w)) with
    | Some (_, w') => call i ClearPendingWaveforms w'
    | None => None
    end.
Proof.
  intros Hi. unfold confirm_armed.
  destruct (Nat.eqb_spec i 0) as [|_]; [done|]. cbn [negb].
  unfold bind, GetTime. destruct (wait_until_armed _ _ _ _ _) as [[[] ?]|]; done.
Qed.

(** With the first successful poll known, the confirmation step is
    determined: how much fuel it needs, what it leaves in the trace. *)
Lemma confirm_armed_run env i w k :
  i <> 0%nat ->
  (forall j, (j < k)%nat -> armed env i (n_armed w + j) = false) ->
  armed env i (n_armed w + k) = true ->
  exists w',
    (forall fuel, (k < fuel)%nat ->
       confirm_armed env fuel i w = Some (tt, w'))
    /\ (forall fuel, (fuel <= k)%nat -> confirm_armed env fuel i w = None)
    /\ trace w' = trace w
         ++ concat (map (poll_events i)
              (timeout_windows (clock env (n_clock w))
                 (map (clock env) (seq (S (n_clock w)) k))))
         ++ [ScopeCall i PeekTriggerArmed;
             ScopeCall i ClearPendingWaveforms]
    /\ n_armed w' = (n_armed w + S k)%nat
    /\ same_fields w w'.
Proof.
  intros Hi Hfalse Htrue.
  set (w1 := mkWindow (m_triggerArmed w) (m_triggerOneShot w)
             (m_multiScopeFreeRun w) (m_tPrimaryTrigger w) (m_tArm w)
             (n_pending w) (n_armed w) (S (n_clock w)) (trace w)).
  destruct (wait_until_armed_run env i k (clock env (n_clock w)) w1)
    as (w2 & Hwait & Htr & Hna & Hnc & Hsame); [done|done|].
  eexists. split; [|split].
  - intros fuel Hfuel. rewrite confirm_armed_unfold by done.
    fold w1. rewrite (Hwait fuel Hfuel). reflexivity.
  - intros fuel Hfuel. rewrite confirm_armed_unfold by done. fold w1.
    rewrite wait_until_armed_out_of_fuel; [done|].
    intros j Hj. apply Hfalse. lia.
  - cbn. rewrite Htr. cbn. rewrite <- !app_assoc. cbn.
    split; [done|]. split; [exact Hna|]. exact Hsame.
Qed.

(** C4 (as amended).  The confirmation step of a secondary terminates
    exactly when one of its polls finds the armed flag set.  If the first
    such poll is number [k] (counting from 0), the step needs [k+1] loop
    iterations; each of the [k] unsuccessful polls reads the clock, and a
    reading whose difference to the start of the current window, subtracted
    as [double]s, is more than 3 logs a warning, stops the scope, arms it
    single-shot again and starts a new window at that reading; the step ends
    with the successful poll and [ClearPendingWaveforms].  The number of
    retries is not limited. *)
Theorem confirm_armed_termination env i w :
  i <> 0%nat ->
  ((exists fuel w', confirm_armed env fuel i w = Some (tt, w'))
   <-> (exists k, armed env i (n_armed w + k) = true))
  /\ (forall k,
        (forall j, (j < k)%nat -> armed env i (n_armed w + j) = false) ->
        armed env i (n_armed w + k) = true ->
        exists w',
          (forall fuel, (k < fuel)%nat ->
             confirm_armed env fuel i w = Some (tt, w'))
          /\ (forall fuel, (fuel <= k)%nat -> confirm_armed env fuel i w = None)
          /\ trace w' = trace w
               ++ concat (map (poll_events i)
                    (timeout_windows (clock env (n_clock w))
                       (map (clock env) (seq (S (n_clock w)) k))))
               ++ [ScopeCall i PeekTriggerArmed;
                   ScopeCall i ClearPendingWaveforms]
          /\ n_armed w' = (n_armed w + S k)%nat
          /\ same_fields w w').
Proof.
  intros Hi. split; [|intros k; by apply confirm_armed_run]. split.
  - intros (fuel & w' & Hc). rewrite confirm_armed_unfold in Hc by done.
    destruct (bounded_search (fun j => armed env i (n_armed w + j)) fuel)
      as [(k & _ & Ht & _)|Hnone]; [by exists k|].
    rewrite wait_until_armed_out_of_fuel in Hc; [done|]. exact Hnone.
  - intros (k & Hk).
    destruct (bounded_search (fun j => armed env i (n_armed w + j)) (S k))
      as [(k' & _ & Ht & Hl)|Hnone].
    + destruct (confirm_armed_run env i w k' Hi Hl Ht) as (w' & Hw' & _).
      exists (S k'), w'. apply Hw'. lia.
    + rewrite Hnone in Hk by lia. done.
Qed.

(** C4, counterexample.  For a secondary whose armed
    flag is never seen set, the confirmation step does not terminate,
    whatever the fuel. *)
Lemma never_armed_never_confirmed :
  ~ (exists fuel w', confirm_armed never_armed fuel 1 initial_window
                     = Some (tt, w')).
Proof.
  intros (fuel & w' & H).
  rewrite confirm_armed_unfold in H by done.
  rewrite wait_until_armed_out_of_fuel in H; done.
Qed.

(** The termination theorem at a scope that reports armed at its third
    poll, and at a scope that reports armed at its second poll, 3.1 - 0.1
    seconds after the start of the window: in [double]s that difference is
    3, not more, and the scope is not armed again. *)
Lemma confirm_armed_termination_witness :
  1%nat <> 0%nat /\
  ((exists fuel w', confirm_armed armed_at_third_poll fuel 1 initial_window
                    = Some (tt, w'))
   <-> (exists k, armed armed_at_third_poll 1 (n_armed initial_window + k)
                  = true))
  /\ (exists w', confirm_armed slow_to_arm 2 1 initial_window = Some (tt, w')
       /\ trace w' = [ScopeCall 1 PeekTriggerArmed;
                      ScopeCall 1 PeekTriggerArmed;
                      ScopeCall 1 ClearPendingWaveforms]).
Proof.
  assert (1%nat <> 0%nat) as H by lia.
  split; [exact H|]. split.
  - exact (proj1 (confirm_armed_termination armed_at_third_poll 1
                    initial_window H)).
  - destruct (proj2 (confirm_armed_termination slow_to_arm 1 initial_window H)
                1%nat) as (w' & Hrun & _ & Htr & _).
    + intros j Hj. assert (j = 0%nat) as -> by lia. reflexivity.
    + reflexivity.
    + exists w'. split; [apply Hrun; lia|exact Htr].
Defined.

(** *** Arming several scopes *)

Lemma bind_Some {A B} (m : M A) (f : A -> M B) w a w1 :
  m w = Some (a, w1) -> bind m f w = f a w1.
Proof. intros H. unfold bind. by rewrite H. Qed.

Lemma same_flags_refl w : same_flags w w.
Proof. by unfold same_flags. Qed.

Lemma same_flags_trans w1 w2 w3 :
  same_flags w1 w2 -> same_flags w2 w3 -> same_flags w1 w3.
Proof.
  unfold same_flags. intros (?&?&?&?&?) (?&?&?&?&?).
  repeat split; congruence.
Qed.



Lemma any_online_true env ix w :
  (exists i, i ∈ ix /\ offline env i = false) ->
  exists w' es, any_online env ix w = Some (true, w')
    /\ trace_extended w w' es /\ arm_commands es = [].
Proof.
  revert w. induction ix as [|i ix IH]; intros w (j & Hj & Hoff).
  - by apply elem_of_nil in Hj.
  - cbn [any_online]. unfold bind at 1.
    unfold scope_IsOffline, call, emit, bind, ret.
    destruct (offline env i) eqn:Ei; cbn.
    + edestruct IH as (w' & es & Hrun & Hext & Harm).
      { exists j. split; [|done].
        apply elem_of_cons in Hj as [->|Hj]; [congruence|done]. }
      exists w', (ScopeCall i IsOffline :: es). split; [exact Hrun|].
      split; [|done].
      unfold trace_extended, same_fields, same_flags in *. cbn in Hext.
      rewrite <- app_assoc in Hext. exact Hext.
    + eexists _, [ScopeCall i IsOffline]. split; [reflexivity|].
      split; [|done]. unfold trace_extended, same_fields, same_flags. done.
Qed.














(** *** Polls that find a scope without data *)

Lemma any_online_queries env ix w :
  exists r w' es, any_online env ix w = Some (r, w')
    /\ trace_extended w w' es /\ Forall (fun e => is_query e = true) es.
Proof.
  revert w. induction ix as [|i ix IH]; intros w.
  - exists false, w, []. split; [done|]. split; [|constructor].
    unfold trace_extended, same_fields, same_flags. by rewrite app_nil_r.
  - cbn [any_online]. unfold bind at 1.
    unfold scope_IsOffline, call, emit, bind, ret.
    destruct (offline env i) eqn:Ei; cbn.
    + edestruct IH as (r & w' & es & Hrun & Hext & Hq).
      exists r, w', (ScopeCall i IsOffline :: es). split; [exact Hrun|].
      split; [|by constructor].
      unfold trace_extended, same_fields, same_flags in *. cbn in Hext.
      rewrite <- app_assoc in Hext. exact Hext.
    + eexists true, _, [ScopeCall i IsOffline]. split; [reflexivity|].
      split; [|by repeat constructor].
      unfold trace_extended, same_fields, same_flags. done.
Qed.

Lemma all_online_pending_not_ready env ix w :
  (exists i, i ∈ ix /\ offline env i = false
             /\ forall k, pending env i k = false) ->
  exists w' es, all_online_pending env ix w = Some (false, w')
    /\ same_flags w w' /\ n_armed w' = n_armed w /\ n_clock w' = n_clock w
    /\ trace w' = trace w ++ es /\ Forall (fun e => is_query e = true) es.
Proof.
  revert w. induction ix as [|i ix IH]; intros w (j & Hj & Hon & Hnp).
  - by apply elem_of_nil in Hj.
  - cbn [all_online_pending]. unfold bind at 1.
    unfold scope_IsOffline, call, emit, bind, ret.
    destruct (offline env i) eqn:Ei; cbn.
    + edestruct IH as (w' & es & Hrun & Hfl & Ha & Hc & Htr & Hq).
      { exists j. split; [|done].
        apply elem_of_cons in Hj as [->|Hj]; [congruence|done]. }
      exists w', (ScopeCall i IsOffline :: es). split; [exact Hrun|].
      split; [exact Hfl|]. split; [exact Ha|]. split; [exact Hc|].
      split; [|by constructor]. rewrite Htr. cbn. by rewrite <- app_assoc.
    + unfold scope_HasPendingWaveforms. cbn.
      destruct (pending env i (n_pending w)) eqn:Ep; cbn.
      * edestruct IH as (w' & es & Hrun & Hfl & Ha & Hc & Htr & Hq).
        { exists j. split; [|done].
          apply elem_of_cons in Hj as [->|Hj]; [|done].
          rewrite Hnp in Ep. done. }
        exists w', (ScopeCall i IsOffline :: ScopeCall i HasPendingWaveforms :: es).
        split; [exact Hrun|].
        split; [exact Hfl|]. split; [exact Ha|]. split; [exact Hc|].
        split; [|by repeat constructor].
        rewrite Htr. cbn. by rewrite <- !app_assoc.
      * eexists _, [ScopeCall i IsOffline; ScopeCall i HasPendingWaveforms].
        split; [reflexivity|]. cbn. rewrite <- app_assoc.
        split; [by unfold same_flags|]. split; [done|]. split; [done|].
        split; [done|]. by repeat constructor.
Qed.

(** A poll made while some online scope has no pending data returns false
    and is inert: it only asks [IsOffline] and [HasPendingWaveforms], keeps
    every trigger field and does not read the clock. *)
Lemma poll_inert_while_not_ready env fuel w :
  (exists i, (i < nscopes env)%nat /\ offline env i = false
             /\ forall k, pending env i k = false) ->
  exists w' es, CheckForPendingWaveforms env fuel w = Some (false, w')
    /\ same_flags w w' /\ n_armed w' = n_armed w /\ n_clock w' = n_clock w
    /\ trace w' = trace w ++ es /\ Forall (fun e => is_query e = true) es.
Proof.
  intros (i & Hi & Hon & Hnp).
  assert (i ∈ scopes env) as Hin by (apply elem_of_seq; lia).
  destruct (any_online_true env (scopes env) w) as (w1 & es1' & H1 & _ & _).
  { by exists i. }
  destruct (any_online_queries env (scopes env) w)
    as (r & w1' & es1 & H1' & Hx1 & Hq1).
  rewrite H1 in H1'. injection H1' as <- <-.
  destruct Hx1 as ([Hf1 _] & Ha1 & Hc1 & Ht1).
  destruct (all_online_pending_not_ready env (scopes env) w1)
    as (w2 & es2 & H2 & Hf2 & Ha2 & Hc2 & Ht2 & Hq2).
  { by exists i. }
  exists w2, (es1 ++ es2).
  split.
  { unfold CheckForPendingWaveforms, HasOnlineScopes.
    rewrite (bind_Some _ _ _ _ _ H1). cbn [negb].
    rewrite (bind_Some _ _ _ _ _ H2). reflexivity. }
  split; [by eapply same_flags_trans|].
  split; [congruence|]. split; [congruence|].
  split; [by rewrite Ht2, Ht1, app_assoc|]. by apply Forall_app.
Qed.

End TriggerFacts.

(* ===================================================================== *)
(** * Properties of the filter scheduler                                  *)
(* ===================================================================== *)

Section SchedulerFacts.

Import Scheduler.

Variable g : FilterGraph.

#[local] Abbreviation leveled := (Scheduler.leveled g).

Lemma inputs_ok_spec (working : gset ptr) ins :
  inputs_ok working ins = true <-> forall c, c ∈ ins -> c ∉ working.
Proof.
  induction ins as [|c ins IH]; simpl.
  - split; [|done]. intros _ c Hc. by apply elem_of_nil in Hc.
  - case_bool_decide as Hc.
    + split; [done|]. intros H. exfalso. apply (H c); [left|done].
    + rewrite IH. split.
      * intros H c' [->|Hc']%elem_of_cons; auto.
      * intros H c' Hc'. apply H. by right.
Qed.

Lemma elem_of_current_block working d :
  d ∈ current_block g working
  <-> d ∈ working /\ forall c, c ∈ inputs g d -> c ∉ working.
Proof.
  unfold current_block. rewrite list_elem_of_filter, elem_of_elements.
  rewrite inputs_ok_spec. tauto.
Qed.

Lemma NoDup_current_block working : NoDup (current_block g working).
Proof. apply NoDup_filter, NoDup_elements. Qed.

Lemma erase_all_spec working block :
  erase_all working block = working ∖ list_to_set block.
Proof.
  unfold erase_all. revert working.
  induction block as [|d block IH]; intros working; simpl.
  - apply set_eq. intros x. rewrite elem_of_difference.
    split; [|tauto]. intros Hx. split; [done|]. apply not_elem_of_empty.
  - rewrite IH. apply set_eq. intros x.
    rewrite !elem_of_difference, elem_of_union, elem_of_singleton.
    tauto.
Qed.

(** In an acyclic graph a non-empty working set has a filter none of whose
    inputs is in the working set. *)
Lemma feeds_back_tc (working : gset ptr) x y :
  tc (fun x y => y ∈ working /\ x ∈ working /\ feeds g y x) x y ->
  tc (feeds g) y x /\ y ∈ working.
Proof.
  induction 1 as [x y (Hy & Hx & Hf)|x y z (Hy & Hx & Hf) _ [IH Hz]].
  - split; [by apply tc_once|done].
  - split; [|done]. eapply tc_r; eauto.
Qed.

Lemma current_block_nonempty (working : gset ptr) :
  acyclic g -> working ⊆ instances g -> working <> ∅ ->
  current_block g working <> [].
Proof.
  intros Hacyc Hsub Hne.
  set (R := fun x y : ptr => y ∈ working /\ x ∈ working /\ feeds g y x).
  assert (forall x, sn R x) as Hsn.
  { intros x. apply tc_finite_sn.
    - intros y Hy. apply feeds_back_tc in Hy as [Hy _]. by apply (Hacyc y).
    - exists (elements working). intros y Hy.
      apply feeds_back_tc in Hy as [_ Hy]. by apply elem_of_elements. }
  assert (exists x, x ∈ working) as [x Hx].
  { apply set_choose_L. done. }
  assert (exists d, d ∈ current_block g working) as [d Hd].
  { revert Hx. induction (Hsn x) as [x _ IH]. intros Hx.
    destruct (inputs_ok working (inputs g x)) eqn:Hok.
    - exists x. apply elem_of_current_block. split; [done|].
      by apply inputs_ok_spec.
    - assert (exists c, c ∈ inputs g x /\ c ∈ working) as (c & Hc & Hcw).
      { clear IH. induction (inputs g x) as [|c ins IHins]; [done|].
        simpl in Hok. case_bool_decide as Hc.
        - exists c. split; [left|done].
        - destruct (IHins Hok) as (c' & ? & ?). exists c'. split; [by right|done]. }
      apply (IH c); [|done]. unfold R. simpl. split; [done|]. split; [done|].
      unfold feeds. auto. }
  intros E. rewrite E in Hd. by apply elem_of_nil in Hd.
Qed.

Lemma elem_of_concat_block (blocks : list FilterBlock) d :
  d ∈ concat blocks <-> exists k, in_block blocks k d.
Proof.
  rewrite list_elem_of_In, in_concat. split.
  - intros (block & Hb & Hd). apply list_elem_of_In in Hb.
    apply list_elem_of_lookup in Hb as [k Hk].
    exists k, block. split; [done|]. by apply list_elem_of_In.
  - intros (k & block & Hk & Hd). exists block.
    split; apply list_elem_of_In; [|done]. by eapply list_elem_of_lookup_2.
Qed.

Lemma leveled_start : leveled (instances g) [].
Proof.
  split; [done|]. split; [constructor|]. split; [|split].
  - intros d. simpl. split; [by intros ?%elem_of_nil|]. intros [? ?]; done.
  - intros k d c (block & Hb & _). by rewrite lookup_nil in Hb.
  - constructor.
Qed.

Lemma leveled_step working blocks :
  acyclic g -> working <> ∅ -> leveled working blocks ->
  leveled (erase_all working (current_block g working))
    (blocks ++ [current_block g working])
  /\ (size (erase_all working (current_block g working)) < size working)%nat.
Proof.
  intros Hacyc Hne (Hsub & Hnd & Hmem & Hord & Hnonempty).
  pose proof (current_block_nonempty working Hacyc Hsub Hne) as Hcur.
  set (cur := current_block g working) in *.
  assert (forall d, d ∈ cur -> d ∈ working) as Hcw.
  { intros d Hd. by apply elem_of_current_block in Hd as [? _]. }
  rewrite erase_all_spec.
  split.
  - split; [by etrans; [apply subseteq_difference_l|]|]. split; [|split; [|split]].
    + rewrite concat_app. simpl. rewrite app_nil_r. apply NoDup_app.
      split; [done|]. split; [|apply NoDup_current_block].
      intros d Hd Hdc. apply Hmem in Hd as [_ Hd]. apply Hd. by apply Hcw.
    + intros d. rewrite concat_app. simpl. rewrite app_nil_r.
      rewrite elem_of_app, Hmem, elem_of_difference, elem_of_list_to_set.
      split.
      * intros [[Hi Hw]|Hd]; [split; [done|]; tauto|].
        split; [apply Hsub; by apply Hcw|]. tauto.
      * intros [Hi Hn]. destruct (decide (d ∈ working)) as [Hw|Hw]; [|by left].
        right. destruct (decide (d ∈ cur)); [done|]. exfalso. by apply Hn.
    + intros k d c (block & Hb & Hd) Hc Hci.
      apply lookup_app_Some in Hb as [Hb|[Hlen Hb]].
      * destruct (Hord k d c) as (j & Hj & block' & Hb' & Hc'); [by exists block|done|done|].
        exists j. split; [done|]. exists block'. split; [|done].
        by apply lookup_app_l_Some.
      * apply list_lookup_singleton_Some in Hb as [Hk <-].
        apply elem_of_current_block in Hd as [_ Hd].
        assert (c ∈ concat blocks) as Hcb by (apply Hmem; split; [done|by apply Hd]).
        apply elem_of_concat_block in Hcb as (j & block' & Hb' & Hc').
        exists j. split; [apply lookup_lt_Some in Hb'; lia|].
        exists block'. split; [by apply lookup_app_l_Some|done].
    + apply Forall_app. split; [done|]. by constructor.
  - apply subset_size. destruct (cur) as [|d cur'] eqn:E; [done|].
    assert (d ∈ working) as Hd by (apply Hcw; left).
    split; [apply subseteq_difference_l; done|].
    intros Hback. specialize (Hback d Hd).
    apply elem_of_difference in Hback as [_ Hback]. apply Hback.
    apply elem_of_list_to_set. left.
Qed.

(** With fuel for one iteration per filter the loop runs to completion. *)
Lemma level_loop_total n :
  acyclic g ->
  forall working blocks,
  (size working <= n)%nat -> leveled working blocks ->
  exists blocks',
    (forall fuel, (n <= fuel)%nat ->
       level_loop g fuel working blocks = Some blocks')
    /\ leveled ∅ blocks'.
Proof.
  intros Hacyc. induction n as [|n IH]; intros working blocks Hsize Hlev.
  - assert (working = ∅) as ->.
    { apply leibniz_equiv, size_empty_inv. lia. }
    exists blocks. split; [|done].
    intros [|fuel] _; simpl; by rewrite decide_True.
  - destruct (decide (working = ∅)) as [->|Hne].
    + exists blocks. split; [|done].
      intros [|fuel] _; simpl; by rewrite decide_True.
    + destruct (leveled_step working blocks Hacyc Hne Hlev) as [Hlev' Hlt].
      assert (size (erase_all working (current_block g working)) <= n)%nat
        as Hle by lia.
      destruct (IH _ _ Hle Hlev') as (blocks' & Hrun & Hfin).
      exists blocks'. split; [|done].
      intros [|fuel] Hfuel; [lia|]. simpl. rewrite decide_False by done.
      apply Hrun. lia.
Qed.





End SchedulerFacts.

Section SchedulerExample.

Import Scheduler.

Lemma ranked_acyclic g (rank : ptr -> nat) :
  (forall input consumer, feeds g input consumer ->
     (rank input < rank consumer)%nat) ->
  acyclic g.
Proof.
  intros Hrank.
  assert (forall x y, tc (feeds g) x y -> (rank x < rank y)%nat) as Htc.
  { induction 1 as [x y H|x y z H _ IH]; [by apply Hrank|].
    apply Hrank in H. lia. }
  intros d Hd. apply Htc in Hd. lia.
Qed.

Lemma chain_graph_acyclic : acyclic chain_graph.
Proof.
  apply (ranked_acyclic _ N.to_nat).
  intros input consumer (Hi & Hc & Hin).
  apply elem_of_list_to_set, list_elem_of_In in Hi, Hc.
  simpl in Hi, Hc.
  destruct Hc as [<-|[<-|[<-|[]]]]; apply list_elem_of_In in Hin;
    simpl in Hin; intuition (subst; try lia; try discriminate).
Qed.


End SchedulerExample.

Section SchedulerMoreFacts.

Import Scheduler.

Variable g : FilterGraph.

Lemma inputs_not_ok (working : gset ptr) ins :
  inputs_ok working ins = false -> exists c, c ∈ ins /\ c ∈ working.
Proof.
  induction ins as [|c ins IH]; [done|]. simpl.
  case_bool_decide as Hc.
  - intros _. exists c. split; [left|done].
  - intros Hok. destruct (IH Hok) as (c' & ? & ?).
    exists c'. split; [by right|done].
Qed.

Lemma waiting_has_waiting_input (working : gset ptr) d :
  d ∈ working -> d ∉ current_block g working ->
  exists c, c ∈ inputs g d /\ c ∈ working.
Proof.
  intros Hd Hn. apply inputs_not_ok.
  destruct (inputs_ok working (inputs g d)) eqn:E; [|done].
  exfalso. apply Hn. apply elem_of_current_block. split; [done|].
  by apply inputs_ok_spec.
Qed.

Lemma tc_last {A} (R : relation A) x z :
  tc R x z -> exists y, rtc R x y /\ R y z.
Proof.
  induction 1 as [x z H|x y z H _ (y' & Hrtc & Hlast)].
  - exists x. split; [constructor|done].
  - exists y'. split; [by econstructor|done].
Qed.

Lemma cycle_predecessor d :
  tc (feeds g) d d -> exists c, feeds g c d /\ tc (feeds g) c c.
Proof.
  intros (c & Hrtc & Hlast)%tc_last. exists c. split; [done|].
  eapply tc_rtc_r; [by apply tc_once|done].
Qed.

Lemma level_loop_cyclic fuel :
  forall working blocks,
  (exists d, tc (feeds g) d d) ->
  (forall d, tc (feeds g) d d -> d ∈ working) ->
  level_loop g fuel working blocks = None.
Proof.
  induction fuel as [|fuel IH]; intros working blocks [d Hd] Hin.
  - simpl. rewrite decide_False; [done|].
    intros ->. by apply (not_elem_of_empty (C:=gset ptr) d), Hin.
  - simpl. rewrite decide_False.
    2:{ intros ->. by apply (not_elem_of_empty (C:=gset ptr) d), Hin. }
    apply IH; [by exists d|].
    intros x Hx. rewrite erase_all_spec.
    apply elem_of_difference. split; [by apply Hin|].
    rewrite elem_of_list_to_set. intros [_ Hok]%elem_of_current_block.
    destruct (cycle_predecessor x Hx) as (c & (_ & _ & Hc) & Hcc).
    apply (Hok c Hc). by apply Hin.
Qed.

(** X1.  The leveling loop terminates for some amount of fuel exactly when
    the filter graph is acyclic: on a graph with a cycle every filter of the
    cycle stays in the working set for ever. *)
Theorem leveling_terminates_iff_acyclic :
  (exists fuel blocks, build_blocks g fuel = Some blocks) <-> acyclic g.
Proof.
  split.
  - intros (fuel & blocks & Hrun) d Hd.
    unfold build_blocks in Hrun. rewrite level_loop_cyclic in Hrun; [done| |].
    + by exists d.
    + intros x Hx. apply cycle_predecessor in Hx as (_ & (_ & Hx & _) & _).
      done.
  - intros Hacyc.
    destruct (level_loop_total g (size (instances g)) Hacyc (instances g) [])
      as (blocks & Hrun & _); [done|apply leveled_start|].
    exists (size (instances g)), blocks. by apply Hrun.
Qed.

Lemma eager_start : eager g (instances g) [].
Proof.
  split; [done|]. split; [|split].
  - intros b Hb. by rewrite lookup_nil in Hb.
  - intros k d (b & Hb & _). by rewrite lookup_nil in Hb.
  - intros b d Hb. done.
Qed.

Lemma eager_step working blocks :
  eager g working blocks ->
  eager g (erase_all working (current_block g working))
    (blocks ++ [current_block g working]).
Proof.
  intros (Hnil & Hfirst & Hprev & Hwait).
  set (cur := current_block g working).
  rewrite erase_all_spec. split; [|split; [|split]].
  - intros E. by apply app_eq_nil in E as [_ ?].
  - intros b Hb. destruct blocks as [|b0 blocks].
    + simpl in Hb. injection Hb as <-. unfold cur. by rewrite Hnil.
    + simpl in Hb. injection Hb as <-. by apply Hfirst.
  - intros k d (b & Hb & Hd).
    apply lookup_app_Some in Hb as [Hb|[Hlen Hb]].
    + destruct (Hprev k d) as (c & Hc & bc & Hbc & Hcb); [by exists b|].
      exists c. split; [done|]. exists bc. split; [|done].
      by apply lookup_app_l_Some.
    + apply list_lookup_singleton_Some in Hb as [Hk <-].
      assert (length blocks = S k) as Hlen' by lia.
      destruct (last blocks) as [bl|] eqn:Hlast.
      2:{ apply last_None in Hlast. subst. simpl in Hlen'. lia. }
      apply elem_of_current_block in Hd as [Hdw Hok].
      destruct (Hwait bl d eq_refl Hdw) as (c & Hc & [Hcw|Hcl]).
      { exfalso. by apply (Hok c). }
      exists c. split; [done|]. exists bl. split; [|done].
      apply lookup_app_l_Some. rewrite last_lookup in Hlast.
      by rewrite Hlen' in Hlast.
  - intros b d Hb Hd. rewrite last_snoc in Hb. injection Hb as <-.
    apply elem_of_difference in Hd as [Hd Hn].
    rewrite elem_of_list_to_set in Hn.
    destruct (waiting_has_waiting_input working d Hd Hn) as (c & Hc & Hcw).
    exists c. split; [done|].
    destruct (decide (c ∈ cur)) as [Hcc|Hcc]; [by right|left].
    apply elem_of_difference. split; [done|]. by rewrite elem_of_list_to_set.
Qed.

Lemma level_loop_total_eager n :
  acyclic g ->
  forall working blocks,
  (size working <= n)%nat -> leveled g working blocks ->
  eager g working blocks ->
  exists blocks',
    (forall fuel, (n <= fuel)%nat ->
       level_loop g fuel working blocks = Some blocks')
    /\ leveled g ∅ blocks' /\ eager g ∅ blocks'.
Proof.
  intros Hacyc. induction n as [|n IH]; intros working blocks Hsize Hlev Heag.
  - assert (working = ∅) as ->.
    { apply leibniz_equiv, size_empty_inv. lia. }
    exists blocks. split; [|done].
    intros [|fuel] _; simpl; by rewrite decide_True.
  - destruct (decide (working = ∅)) as [->|Hne].
    + exists blocks. split; [|done].
      intros [|fuel] _; simpl; by rewrite decide_True.
    + destruct (leveled_step g working blocks Hacyc Hne Hlev) as [Hlev' Hlt].
      assert (size (erase_all working (current_block g working)) <= n)%nat
        as Hle by lia.
      destruct (IH _ _ Hle Hlev' (eager_step _ _ Heag))
        as (blocks' & Hrun & Hfin).
      exists blocks'. split; [|done].
      intros [|fuel] Hfuel; [lia|]. simpl. rewrite decide_False by done.
      apply Hrun. lia.
Qed.

Lemma nonempty_blocks_length (blocks : list FilterBlock) :
  Forall (fun b => b <> []) blocks -> (length blocks <= length (concat blocks))%nat.
Proof.
  induction 1 as [|b blocks Hb _ IH]; [done|].
  simpl. rewrite length_app. destruct b; [done|]. simpl. lia.
Qed.

(** X2.  On an acyclic graph no block is empty, there are at most as many
    blocks as filters, block 0 holds exactly the filters none of whose inputs
    is a filter, and every filter of a later block has an input in the block
    just before it: each filter is placed in the earliest block its inputs
    allow. *)
Theorem leveling_is_eager :
  acyclic g ->
  exists blocks,
    (forall fuel, (size (instances g) <= fuel)%nat ->
       build_blocks g fuel = Some blocks)
    /\ Forall (fun b => b <> []) blocks
    /\ (length blocks <= size (instances g))%nat
    /\ (forall d, in_block blocks 0 d <->
          d ∈ instances g /\ forall c, c ∈ inputs g d -> c ∉ instances g)
    /\ (forall k d, in_block blocks (S k) d ->
          exists c, c ∈ inputs g d /\ in_block blocks k c).
Proof.
  intros Hacyc.
  destruct (level_loop_total_eager (size (instances g)) Hacyc (instances g) [])
    as (blocks & Hrun & (_ & Hnd & Hmem & _ & Hne) & (_ & Hfirst & Hprev & _));
    [done|apply leveled_start|apply eager_start|].
  exists blocks. split; [exact Hrun|]. split; [exact Hne|].
  split; [|split; [|exact Hprev]].
  - etrans; [by apply nonempty_blocks_length|].
    unfold size, set_size. simpl. apply submseteq_length.
    apply NoDup_submseteq; [done|]. intros d Hd.
    apply elem_of_elements. by apply Hmem in Hd as [? _].
  - intros d. split.
    + intros (b & Hb & Hd). rewrite (Hfirst b Hb) in Hd.
      by apply elem_of_current_block in Hd.
    + intros Hd.
      assert (d ∈ concat blocks) as Hc.
      { apply Hmem. split; [by destruct Hd|apply not_elem_of_empty]. }
      apply elem_of_concat_block in Hc as ([|k] & Hk); [done|].
      destruct (Hprev k d Hk) as (c & Hc & Hkc).
      destruct Hd as [_ Hd]. exfalso. apply (Hd c Hc).
      assert (c ∈ concat blocks) as Hcc by (apply elem_of_concat_block; eauto).
      by apply Hmem in Hcc as [? _].
Qed.

End SchedulerMoreFacts.

Section SchedulerMoreExamples.

Import Scheduler.

(** The eager-placement theorem at the three-filter chain. *)
Lemma leveling_is_eager_witness :
  acyclic chain_graph /\
  exists blocks,
    build_blocks chain_graph 3 = Some blocks
    /\ (length blocks <= size (instances chain_graph))%nat.
Proof.
  split; [exact chain_graph_acyclic|].
  destruct (leveling_is_eager chain_graph chain_graph_acyclic)
    as (blocks & Hrun & _ & Hlen & _).
  exists blocks. split; [|exact Hlen].
  apply Hrun. vm_compute. lia.
Defined.

End SchedulerMoreExamples.

(* ===================================================================== *)
(** * More on the trigger: stopping, polling, the watchdog, harvesting    *)
(* ===================================================================== *)

Section TriggerMoreFacts.

Import Trigger.

Lemma for_each_stop_events ix w :
  exists w', for_each ix (fun i => do _ <- call i Stop;
                                   call i ClearPendingWaveforms) w
             = Some (tt, w')
    /\ trace_extended w w' (stop_events ix).
Proof.
  revert w. induction ix as [|i ix IH]; intros w.
  - exists w. split; [done|].
    unfold trace_extended, same_fields, same_flags. simpl.
    by rewrite app_nil_r.
  - cbn [for_each]. unfold bind at 1. unfold bind at 1. cbn [call emit].
    match goal with |- context [for_each ix _ ?w0] =>
      destruct (IH w0) as (w' & Hrun & Hext) end.
    exists w'. split; [exact Hrun|].
    unfold trace_extended, same_fields, same_flags in *. cbn in Hext.
    rewrite <- !app_assoc in Hext. exact Hext.
Qed.

Lemma OnStop_run env w :
  exists w', OnStop env w = Some (tt, w')
    /\ w' = mkWindow false (m_triggerOneShot w) false (m_tPrimaryTrigger w)
              (m_tArm w) (n_pending w) (n_armed w) (n_clock w)
              (trace w ++ stop_events (scopes env)).
Proof.
  unfold OnStop. unfold bind at 1. unfold bind at 1.
  cbn [set_multiScopeFreeRun set_triggerArmed].
  match goal with |- context [for_each _ _ ?w0] =>
    destruct (for_each_stop_events (scopes env) w0)
      as (w' & Hrun & ((Hf & Hp) & Ha & Hc & Ht)) end.
  destruct Hf as (Harm & Hone & Hfree & Htp & Hta).
  exists w'. split; [exact Hrun|]. cbn in *.
  destruct w'; cbn in *. congruence.
Qed.

Lemma online_count_cons_offline env i ix :
  offline env i = true -> online_count env (i :: ix) = online_count env ix.
Proof.
  intros H. unfold online_count. rewrite filter_cons_False; [done|].
  rewrite H. done.
Qed.

Lemma online_count_cons_online env i ix :
  offline env i = false -> online_count env (i :: ix) = S (online_count env ix).
Proof.
  intros H. unfold online_count. by rewrite filter_cons_True.
Qed.

Lemma all_answer_ready_offline env i ix base :
  offline env i = true ->
  all_answer_ready env (i :: ix) base <-> all_answer_ready env ix base.
Proof.
  intros Hoff. split; intros H pre j post E Hj.
  - specialize (H (i :: pre) j post). rewrite online_count_cons_offline in H by done.
    apply H; [by rewrite E|done].
  - destruct pre as [|p pre]; simpl in E; injection E as -> ->.
    + congruence.
    + rewrite online_count_cons_offline by done. by eapply H.
Qed.

Lemma all_answer_ready_online env i ix base :
  offline env i = false ->
  all_answer_ready env (i :: ix) base
  <-> pending env i base = true /\ all_answer_ready env ix (S base).
Proof.
  intros Hon. split.
  - intros H. split.
    + specialize (H [] i ix eq_refl Hon). by rewrite Nat.add_0_r in H.
    + intros pre j post E Hj. specialize (H (i :: pre) j post).
      rewrite online_count_cons_online in H by done.
      rewrite Nat.add_succ_comm. apply H; [by rewrite E|done].
  - intros [Hp H] pre j post E Hj.
    destruct pre as [|p pre]; simpl in E; injection E as -> ->.
    + by rewrite Nat.add_0_r.
    + rewrite online_count_cons_online by done.
      rewrite <- Nat.add_succ_comm. by eapply H.
Qed.

#[local] Arguments online_count : simpl never.
#[local] Arguments readiness_queries : simpl never.

Lemma all_online_pending_run env ix w :
  exists r w', all_online_pending env ix w = Some (r, w')
    /\ same_flags w w' /\ n_armed w' = n_armed w /\ n_clock w' = n_clock w
    /\ (r = true <-> all_answer_ready env ix (n_pending w))
    /\ (r = true ->
        trace w' = trace w ++ readiness_queries env ix
        /\ n_pending w' = (n_pending w + online_count env ix)%nat).
Proof.
  revert w. induction ix as [|i ix IH]; intros w.
  - exists true, w. split; [done|]. split; [apply same_flags_refl|].
    split; [done|]. split; [done|]. split.
    + split; [|done]. intros _ pre i post E. by destruct pre.
    + intros _. cbn. rewrite app_nil_r. split; [done|]. unfold online_count. cbn. lia.
  - cbn [all_online_pending]. unfold bind at 1.
    unfold scope_IsOffline, call, emit, bind, ret.
    destruct (offline env i) eqn:Ei; cbn.
    + match goal with |- context [all_online_pending env ix ?w0] =>
        destruct (IH w0) as (r & w' & Hrun & Hfl & Ha & Hc & Hiff & Htr) end.
      exists r, w'. split; [exact Hrun|]. split; [exact Hfl|].
      split; [exact Ha|]. split; [exact Hc|]. split.
      * rewrite all_answer_ready_offline by done. exact Hiff.
      * intros Hr. destruct (Htr Hr) as [Ht Hp]. cbn in Ht, Hp.
        rewrite online_count_cons_offline by done.
        unfold readiness_queries. cbn [flat_map]. rewrite Ei.
        split; [|done]. rewrite Ht. by rewrite <- app_assoc.
    + unfold scope_HasPendingWaveforms. cbn.
      destruct (pending env i (n_pending w)) eqn:Ep; cbn.
      * match goal with |- context [all_online_pending env ix ?w0] =>
          destruct (IH w0) as (r & w' & Hrun & Hfl & Ha & Hc & Hiff & Htr) end.
        exists r, w'. split; [exact Hrun|]. split; [exact Hfl|].
        split; [exact Ha|]. split; [exact Hc|]. split.
        -- rewrite all_answer_ready_online by done. cbn in Hiff. tauto.
        -- intros Hr. destruct (Htr Hr) as [Ht Hp]. cbn in Ht, Hp.
           rewrite online_count_cons_online by done.
           unfold readiness_queries. cbn [flat_map]. rewrite Ei.
           split; [|lia]. rewrite Ht. by rewrite <- !app_assoc.
      * eexists false, _. split; [reflexivity|]. cbn.
        split; [by unfold same_flags|]. split; [done|]. split; [done|].
        split; [|done]. split; [done|].
        rewrite all_answer_ready_online by done. intros [? _]. congruence.
Qed.

Lemma seq_split_at i n :
  (i < n)%nat -> seq 0 n = seq 0 i ++ i :: seq (S i) (n - S i).
Proof.
  intros Hi. replace n with (i + S (n - S i))%nat at 1 by lia.
  rewrite seq_app. simpl. done.
Qed.


Lemma check_unfold env fuel w :
  (exists i, (i < nscopes env)%nat /\ offline env i = false) ->
  exists (r : bool) w2 qs,
    Forall (fun e => is_query e = true) qs
    /\ same_flags w w2 /\ n_armed w2 = n_armed w /\ n_clock w2 = n_clock w
    /\ (r = true <-> all_answer_ready env (scopes env) (n_pending w))
    /\ (r = true ->
        trace w2 = trace w ++ qs ++ readiness_queries env (scopes env)
        /\ n_pending w2 = (n_pending w + online_count env (scopes env))%nat)
    /\ CheckForPendingWaveforms env fuel w
       = if negb r then Some (false, w2)
         else if m_multiScopeFreeRun w
              then free_run_watchdog env fuel w2 else Some (true, w2).
Proof.
  intros (io & Hio & Hon).
  assert (io ∈ scopes env) as Hin by (apply elem_of_seq; lia).
  destruct (any_online_true env (scopes env) w) as (w1 & es1' & H1 & _ & _).
  { by exists io. }
  destruct (any_online_queries env (scopes env) w)
    as (r & w1' & es1 & H1' & Hx1 & Hq1).
  rewrite H1 in H1'. injection H1' as <- <-.
  destruct Hx1 as ([Hf1 Hp1] & Ha1 & Hc1 & Ht1).
  destruct (all_online_pending_run env (scopes env) w1)
    as (r & w2 & H2 & Hf2 & Ha2 & Hc2 & Hiff & Htr).
  rewrite Hp1 in Hiff.
  exists r, w2, es1. split; [exact Hq1|].
  split; [by eapply same_flags_trans|].
  split; [congruence|]. split; [congruence|]. split; [exact Hiff|]. split.
  - intros Hr. destruct (Htr Hr) as [Ht Hp].
    split; [|congruence]. by rewrite Ht, Ht1, app_assoc.
  - unfold CheckForPendingWaveforms, HasOnlineScopes.
    rewrite (bind_Some _ _ _ _ _ H1). cbn [negb].
    rewrite (bind_Some _ _ _ _ _ H2). destruct r; [|reflexivity].
    cbn [negb]. unfold bind, get.
    assert (m_multiScopeFreeRun w2 = m_multiScopeFreeRun w) as ->.
    { destruct Hf2 as (_ & _ & -> & _). by destruct Hf1 as (_ & _ & -> & _). }
    by destruct (m_multiScopeFreeRun w).
Qed.

(** X3.  Readiness of a session with at least one online scope.  A poll
    that reports ready has asked every online scope, in scope order, whether
    it has data, and each of them answered yes.  Conversely, outside free-run
    mode, if each online scope answers yes the poll reports ready, after
    offline questions and one data question per online scope only, and
    leaves every trigger field as it was. *)
Theorem readiness env fuel w :
  (exists i, (i < nscopes env)%nat /\ offline env i = false) ->
  (forall w', CheckForPendingWaveforms env fuel w = Some (true, w') ->
     forall i, (i < nscopes env)%nat -> offline env i = false ->
       pending env i (n_pending w + online_count env (seq 0 i)) = true)
  /\ (m_multiScopeFreeRun w = false ->
      all_answer_ready env (scopes env) (n_pending w) ->
      exists w' qs,
        CheckForPendingWaveforms env fuel w = Some (true, w')
        /\ same_flags w w' /\ n_armed w' = n_armed w /\ n_clock w' = n_clock w
        /\ n_pending w' = (n_pending w + online_count env (scopes env))%nat
        /\ trace w' = trace w ++ qs ++ readiness_queries env (scopes env)
        /\ Forall (fun e => is_query e = true) qs).
Proof.
  intros Hon.
  destruct (check_unfold env fuel w Hon)
    as (r & w2 & qs & Hq & Hfl & Ha & Hc & Hiff & Htr & Hcheck).
  split.
  - intros w' Hrun i Hi Hoff. rewrite Hcheck in Hrun.
    destruct r; [|done].
    apply (proj1 Hiff eq_refl (seq 0 i) i (seq (S i) (nscopes env - S i)));
      [|done].
    by apply seq_split_at.
  - intros Hfree Hready. apply Hiff in Hready. subst r.
    destruct (Htr eq_refl) as [Ht2 Hp2].
    exists w2, qs. rewrite Hcheck, Hfree. cbn [negb].
    repeat (split; [done|]). done.
Qed.


Lemma for_each_discard env ix w :
  exists w', for_each ix (discard_pending env) w = Some (tt, w')
    /\ trace_extended w w' (discard_events env ix).
Proof.
  revert w. induction ix as [|i ix IH]; intros w.
  - exists w. split; [done|].
    unfold trace_extended, same_fields, same_flags. simpl.
    by rewrite app_nil_r.
  - cbn [for_each]. unfold bind at 1. unfold discard_pending.
    unfold bind at 1. unfold scope_IsOffline, bind, call, emit, ret.
    cbn [discard_events flat_map].
    destruct (offline env i) eqn:Ei.
    + match goal with |- context [for_each ix _ ?w0] =>
        destruct (IH w0) as (w' & Hrun & Hext) end.
      exists w'. split; [exact Hrun|].
      unfold trace_extended, same_fields, same_flags in *. cbn in Hext.
      rewrite <- !app_assoc in Hext. exact Hext.
    + match goal with |- context [for_each ix _ ?w0] =>
        destruct (IH w0) as (w' & Hrun & Hext) end.
      exists w'. split; [exact Hrun|].
      unfold trace_extended, same_fields, same_flags in *. cbn in Hext.
      rewrite <- !app_assoc in Hext. exact Hext.
Qed.

Lemma double_pos_not_neg t :
  double_ltb (double_of_Z 0) t = true -> double_ltb t (double_of_Z 0) = false.
Proof.
  by destruct t as [[]|[]| |[] ? ?].
Qed.

Lemma free_run_watchdog_reset env fuel w :
  double_ltb (double_of_Z 0) (m_tPrimaryTrigger w) = true ->
  double_ltb (double_of_Z 1)
      (double_sub (clock env (n_clock w)) (m_tPrimaryTrigger w)) = true ->
  free_run_watchdog env fuel w
  = (do _ <- OnStop env;
     do _ <- for_each (scopes env) (discard_pending env);
     do _ <- OnStart env fuel;
     ret false)
      (mkWindow (m_triggerArmed w) (m_triggerOneShot w)
         (m_multiScopeFreeRun w) (m_tPrimaryTrigger w) (m_tArm w)
         (n_pending w) (n_armed w) (S (n_clock w))
         (trace w ++ [Warning "Timed out waiting for one or more secondary instruments to trigger"])).
Proof.
  intros Hpos Hlate. unfold free_run_watchdog.
  unfold bind at 1. unfold get at 1.
  rewrite (double_pos_not_neg _ Hpos).
  unfold bind at 1. unfold ret at 1.
  unfold bind at 1. unfold GetTime at 1.
  unfold bind at 1. unfold get at 1.
  cbn [m_tPrimaryTrigger n_clock]. rewrite Hpos, Hlate. cbn [andb].
  unfold bind at 1. unfold emit at 1. reflexivity.
Qed.

(** X4.  The free-run watchdog.  In free-run mode, when every online scope
    has data, the primary trigger time is positive and [twait], the clock
    reading of the poll minus that time, subtracted as [double]s, is more
    than 1, the poll logs the timeout, stops
    every scope and clears its data ([OnStop]), pings every online scope and
    clears its data again, re-arms with [ArmTrigger(TRIGGER_TYPE_NORMAL)]
    from that disarmed window, and reports not ready, although all data had
    arrived. *)
Theorem watchdog_reset env fuel w :
  (exists i, (i < nscopes env)%nat /\ offline env i = false) ->
  all_answer_ready env (scopes env) (n_pending w) ->
  m_multiScopeFreeRun w = true ->
  double_ltb (double_of_Z 0) (m_tPrimaryTrigger w) = true ->
  double_ltb (double_of_Z 1)
      (double_sub (clock env (n_clock w)) (m_tPrimaryTrigger w)) = true ->
  exists w0 qs,
    Forall (fun e => is_query e = true) qs
    /\ trace w0 = trace w ++ qs ++ readiness_queries env (scopes env)
         ++ Warning "Timed out waiting for one or more secondary instruments to trigger"
         :: stop_events (scopes env) ++ discard_events env (scopes env)
    /\ m_triggerArmed w0 = false
    /\ m_multiScopeFreeRun w0 = false
    /\ m_triggerOneShot w0 = m_triggerOneShot w
    /\ m_tPrimaryTrigger w0 = m_tPrimaryTrigger w
    /\ n_clock w0 = S (n_clock w)
    /\ n_armed w0 = n_armed w
    /\ n_pending w0 = (n_pending w + online_count env (scopes env))%nat
    /\ CheckForPendingWaveforms env fuel w
       = match ArmTrigger env fuel TRIGGER_TYPE_NORMAL w0 with
         | Some (_, w') => Some (false, w')
         | None => None
         end.
Proof.
  intros Hon Hready Hfree Hpos Hlate.
  destruct (check_unfold env fuel w Hon)
    as (r & w2 & qs & Hq & Hfl & Ha & Hc & Hiff & Htr & Hcheck).
  apply Hiff in Hready. subst r. destruct (Htr eq_refl) as [Ht2 Hp2].
  destruct Hfl as (Harm & Hone & Hfr & Htp & Hta).
  rewrite Hfree in Hcheck. cbn [negb] in Hcheck.
  set (w3 := mkWindow (m_triggerArmed w2) (m_triggerOneShot w2)
               (m_multiScopeFreeRun w2) (m_tPrimaryTrigger w2) (m_tArm w2)
               (n_pending w2) (n_armed w2) (S (n_clock w2))
               (trace w2 ++ [Warning "Timed out waiting for one or more secondary instruments to trigger"])).
  destruct (OnStop_run env w3) as (w4 & H4 & E4). rewrite E4 in H4.
  destruct (for_each_discard env (scopes env) w4)
    as (w5 & H5 & ((Hf5 & Hp5) & Ha5 & Hc5 & Ht5)).
  destruct Hf5 as (Harm5 & Hone5 & Hfr5 & Htp5 & Hta5).
  exists w5, qs. split; [exact Hq|].
  rewrite E4 in Harm5, Hone5, Hfr5, Htp5, Hta5, Hp5, Ha5, Hc5, Ht5.
  unfold w3 in Harm5, Hone5, Hfr5, Htp5, Hta5, Hp5, Ha5, Hc5, Ht5.
  cbn [m_triggerArmed m_triggerOneShot m_multiScopeFreeRun m_tPrimaryTrigger
       m_tArm n_pending n_armed n_clock trace]
    in Harm5, Hone5, Hfr5, Htp5, Hta5, Hp5, Ha5, Hc5, Ht5.
  split. { rewrite Ht5, Ht2. by rewrite <- !app_assoc. }
  split; [done|]. split; [done|]. split; [congruence|]. split; [congruence|].
  split; [congruence|]. split; [congruence|]. split; [congruence|].
  rewrite Hcheck, free_run_watchdog_reset; [|by rewrite Htp|by rewrite Htp, Hc].
  fold w3.
  rewrite (bind_Some _ _ _ _ _ H4).
  rewrite <- E4.
  rewrite (bind_Some _ _ _ _ _ H5).
  unfold OnStart, bind at 1, ret.
  destruct (ArmTrigger env fuel TRIGGER_TYPE_NORMAL w5) as [[[] w6]|]; reflexivity.
Qed.

(** The watchdog subtracts as the program does.  With the primary trigger
    at 0.1 and the clock at 1.1 the difference of the two [double]s is 1,
    not more, and the poll reports ready; with the clock at 1.2 the poll
    resets and reports not ready. *)
Lemma watchdog_threshold_in_doubles :
  double_sub (tenths 11) (tenths 1) = double_of_Z 1
  /\ fst <$> CheckForPendingWaveforms (always_ready (fun _ => tenths 11)) 1
               (mkWindow true false true (tenths 1) (double_of_Z 0) 0 0 0 [])
     = Some true
  /\ fst <$> CheckForPendingWaveforms (always_ready (fun _ => tenths 12)) 1
               (mkWindow true false true (tenths 1) (double_of_Z 0) 0 0 0 [])
     = Some false.
Proof. split; [|split]; vm_compute; reflexivity. Qed.

Lemma stop_events_no_arm ix : arm_commands (stop_events ix) = [].
Proof. induction ix as [|i ix IH]; [done|exact IH]. Qed.





Lemma check_all_offline env fuel w :
  (forall i, (i < nscopes env)%nat -> offline env i = true) ->
  exists w', CheckForPendingWaveforms env fuel w = Some (m_triggerArmed w, w')
    /\ trace_extended w w' (offline_queries (scopes env)).
Proof.
  intros Hoff.
  destruct (any_online_all_offline env (scopes env) w) as (w' & Hrun & Hext).
  { intros i Hi%elem_of_seq. apply Hoff. lia. }
  exists w'. split; [|done].
  unfold CheckForPendingWaveforms, HasOnlineScopes.
  rewrite (bind_Some _ _ _ _ _ Hrun). cbn [negb]. unfold get.
  destruct Hext as (((-> & _) & _) & _). done.
Qed.

Lemma arm_all_offline env fuel type w :
  (forall i, (i < nscopes env)%nat -> offline env i = true) ->
  exists w', ArmTrigger env fuel type w = Some (tt, w')
    /\ m_triggerArmed w' = true
    /\ m_triggerOneShot w' = is_oneshot type
    /\ m_multiScopeFreeRun w' = m_multiScopeFreeRun w
    /\ trace w' = trace w ++ offline_queries (scopes env).
Proof.
  intros Hoff.
  set (w0 := mkWindow (m_triggerArmed w) (is_oneshot type)
               (m_multiScopeFreeRun w)
               (m_tPrimaryTrigger w) (m_tArm w) (n_pending w) (n_armed w)
               (n_clock w) (trace w)).
  destruct (any_online_all_offline env (scopes env) w0)
    as (w' & Hrun & ((Hf & Hp) & Ha & Hc & Ht)).
  { intros i Hi%elem_of_seq. apply Hoff. lia. }
  destruct Hf as (Harm & Hone & Hfree & Htp & Hta).
  unfold ArmTrigger. unfold bind at 1. cbn [set_triggerOneShot].
  change (match type with
          | TRIGGER_TYPE_SINGLE | TRIGGER_TYPE_FORCED => true
          | _ => false
          end) with (is_oneshot type).
  fold w0.
  unfold HasOnlineScopes. rewrite (bind_Some _ _ _ _ _ Hrun). cbn [negb].
  unfold bind, GetTime, set_tArm, set_triggerArmed.
  eexists. split; [reflexivity|]. cbn in *.
  repeat split; done.
Qed.

(** X7.  [OnStop] always completes.  It clears the armed flag and the
    free-run flag, leaves the one-shot flag and the recorded times alone,
    asks no scope anything, and sends every scope of the session, offline or
    not, a [Stop] followed by a [ClearPendingWaveforms], in scope order and
    nothing else; in particular no arming command.  When no scope is online,
    the poll that follows reports that nothing is ready. *)
Theorem stop_disarms env fuel w :
  exists w',
    OnStop env w = Some (tt, w')
    /\ m_triggerArmed w' = false
    /\ m_multiScopeFreeRun w' = false
    /\ m_triggerOneShot w' = m_triggerOneShot w
    /\ m_tPrimaryTrigger w' = m_tPrimaryTrigger w
    /\ m_tArm w' = m_tArm w
    /\ n_pending w' = n_pending w /\ n_armed w' = n_armed w
    /\ n_clock w' = n_clock w
    /\ trace w' = trace w ++ stop_events (scopes env)
    /\ arm_commands (stop_events (scopes env)) = []
    /\ ((forall i, (i < nscopes env)%nat -> offline env i = true) ->
        exists w'', CheckForPendingWaveforms env fuel w' = Some (false, w'')).
Proof.
  destruct (OnStop_run env w) as (w' & Hrun & ->).
  eexists. split; [exact Hrun|]. cbn.
  repeat (split; [done|]). split; [apply stop_events_no_arm|].
  intros Hoff.
  match goal with |- context [CheckForPendingWaveforms env fuel ?w0] =>
    destruct (check_all_offline env fuel w0 Hoff) as (w'' & Hc & _) end.
  by exists w''.
Qed.

(** Stopping two offline scopes. *)
Lemma stop_disarms_witness :
  exists w' w'',
    OnStop all_offline initial_window = Some (tt, w')
    /\ CheckForPendingWaveforms all_offline 0 w' = Some (false, w'').
Proof.
  destruct (stop_disarms all_offline 0 initial_window)
    as (w' & Hrun & _ & _ & _ & _ & _ & _ & _ & _ & _ & _ & Hpoll).
  destruct Hpoll as (w'' & Hpoll); [intros i _; reflexivity|].
  exists w', w''. split; [exact Hrun|exact Hpoll].
Defined.

(** The readiness theorem on two scopes that always have data. *)
Lemma readiness_witness :
  exists w',
    CheckForPendingWaveforms (always_ready (fun _ => double_of_Z 0)) 0 initial_window
    = Some (true, w')
    /\ n_pending w' = 2%nat.
Proof.
  destruct (readiness (always_ready (fun _ => double_of_Z 0)) 0 initial_window)
    as [_ Hready].
  - exists 0%nat. split; [simpl; lia|reflexivity].
  - destruct Hready as (w' & qs & Hrun & _ & _ & _ & Hp & _).
    + reflexivity.
    + intros pre i post _ _. reflexivity.
    + exists w'. split; [exact Hrun|exact Hp].
Defined.

(** The reset on two ready scopes, four seconds after the primary trigger. *)
Lemma watchdog_reset_witness :
  exists w0,
    m_triggerArmed w0 = false
    /\ CheckForPendingWaveforms (always_ready (fun _ => double_of_Z 5)) 1 free_running
       = match ArmTrigger (always_ready (fun _ => double_of_Z 5)) 1
                 TRIGGER_TYPE_NORMAL w0 with
         | Some (_, w') => Some (false, w')
         | None => None
         end.
Proof.
  destruct (watchdog_reset (always_ready (fun _ => double_of_Z 5)) 1 free_running)
    as (w0 & qs & _ & _ & Harm & _ & _ & _ & _ & _ & _ & Hrun).
  - exists 0%nat. split; [simpl; lia|reflexivity].
  - intros pre i post _ _. reflexivity.
  - reflexivity.
  - reflexivity.
  - reflexivity.
  - exists w0. split; [exact Harm|exact Hrun].
Defined.

Lemma free_run_watchdog_first env fuel w :
  double_ltb (m_tPrimaryTrigger w) (double_of_Z 0) = true ->
  pending env 0 (n_pending w) = true ->
  double_ltb (double_of_Z 0) (clock env (n_clock w))
  && double_ltb (double_of_Z 1)
       (double_sub (clock env (S (n_clock w))) (clock env (n_clock w))) = false ->
  free_run_watchdog env fuel w
  = Some (true,
          mkWindow (m_triggerArmed w) (m_triggerOneShot w)
            (m_multiScopeFreeRun w) (clock env (n_clock w)) (m_tArm w)
            (S (n_pending w)) (n_armed w) (S (S (n_clock w)))
            (trace w ++ [ScopeCall 0 HasPendingWaveforms])).
Proof.
  intros Hneg Hp Hin. unfold free_run_watchdog.
  unfold bind at 1. unfold get at 1. rewrite Hneg.
  unfold bind at 1. unfold bind at 1.
  unfold scope_HasPendingWaveforms at 1. rewrite Hp.
  unfold bind at 1. unfold GetTime at 1.
  cbn [n_clock]. unfold set_tPrimaryTrigger at 1.
  cbn [m_triggerArmed m_triggerOneShot m_multiScopeFreeRun m_tPrimaryTrigger
       m_tArm n_pending n_armed n_clock trace].
  unfold bind at 1. unfold GetTime at 1.
  cbn [m_triggerArmed m_triggerOneShot m_multiScopeFreeRun m_tPrimaryTrigger
       m_tArm n_pending n_armed n_clock trace].
  unfold bind at 1. unfold get at 1.
  cbn [m_triggerArmed m_triggerOneShot m_multiScopeFreeRun m_tPrimaryTrigger
       m_tArm n_pending n_armed n_clock trace].
  rewrite Hin. reflexivity.
Qed.

Lemma free_run_watchdog_steady env fuel w :
  double_ltb (m_tPrimaryTrigger w) (double_of_Z 0) = false ->
  double_ltb (double_of_Z 0) (m_tPrimaryTrigger w)
  && double_ltb (double_of_Z 1)
      (double_sub (clock env (n_clock w)) (m_tPrimaryTrigger w)) = false ->
  free_run_watchdog env fuel w
  = Some (true,
          mkWindow (m_triggerArmed w) (m_triggerOneShot w)
            (m_multiScopeFreeRun w) (m_tPrimaryTrigger w) (m_tArm w)
            (n_pending w) (n_armed w) (S (n_clock w)) (trace w)).
Proof.
  intros Hneg Hin. unfold free_run_watchdog.
  unfold bind at 1. unfold get at 1. rewrite Hneg.
  unfold bind at 1. unfold ret at 1.
  unfold bind at 1. unfold GetTime at 1.
  unfold bind at 1. unfold get at 1.
  cbn [m_tPrimaryTrigger n_clock]. rewrite Hin. reflexivity.
Qed.

(** X8.  Free-run mode, the first complete poll after arming (the primary
    trigger time is still negative): every online scope has data, so the
    poll asks scope 0 once more whether it has data; if it has, the poll
    reads the clock, stores that reading as the time of the primary
    trigger, reads the clock a second time and, unless the first reading is
    positive and the second is more than a second later (the difference of
    the two, subtracted as [double]s, is more than 1), reports ready. *)
Theorem free_run_first_ready env fuel w :
  (exists i, (i < nscopes env)%nat /\ offline env i = false) ->
  all_answer_ready env (scopes env) (n_pending w) ->
  m_multiScopeFreeRun w = true ->
  double_ltb (m_tPrimaryTrigger w) (double_of_Z 0) = true ->
  pending env 0 (n_pending w + online_count env (scopes env)) = true ->
  double_ltb (double_of_Z 0) (clock env (n_clock w))
  && double_ltb (double_of_Z 1)
       (double_sub (clock env (S (n_clock w))) (clock env (n_clock w))) = false ->
  exists w' qs,
    CheckForPendingWaveforms env fuel w = Some (true, w')
    /\ Forall (fun e => is_query e = true) qs
    /\ trace w' = trace w ++ qs ++ readiness_queries env (scopes env)
         ++ [ScopeCall 0 HasPendingWaveforms]
    /\ m_tPrimaryTrigger w' = clock env (n_clock w)
    /\ n_clock w' = S (S (n_clock w))
    /\ n_pending w' = S (n_pending w + online_count env (scopes env))
    /\ n_armed w' = n_armed w
    /\ m_triggerArmed w' = m_triggerArmed w
    /\ m_triggerOneShot w' = m_triggerOneShot w
    /\ m_multiScopeFreeRun w' = true
    /\ m_tArm w' = m_tArm w.
Proof.
  intros Hon Hready Hfree Hneg Hp0 Hin.
  destruct (check_unfold env fuel w Hon)
    as (r & w2 & qs & Hq & Hfl & Ha & Hc & Hiff & Htr & Hcheck).
  apply Hiff in Hready. subst r. destruct (Htr eq_refl) as [Ht2 Hp2].
  destruct Hfl as (Harm & Hone & Hfr & Htp & Hta).
  rewrite Hfree in Hcheck. cbn [negb] in Hcheck.
  rewrite free_run_watchdog_first in Hcheck;
    [|by rewrite Htp|by rewrite Hp2|by rewrite Hc].
  eexists _, qs. split; [exact Hcheck|]. cbn.
  split; [exact Hq|]. split; [by rewrite Ht2, <- !app_assoc|].
  split; [by rewrite Hc|]. split; [by rewrite Hc|]. split; [by rewrite Hp2|].
  split; [done|]. split; [done|]. split; [done|]. split; [congruence|done].
Qed.

(** The first complete poll on two ready scopes with a clock that stands. *)
Lemma free_run_first_ready_witness :
  exists w',
    CheckForPendingWaveforms (always_ready (fun _ => double_of_Z 5)) 0
      (mkWindow true false true (double_of_Z (-1)) (double_of_Z 0) 0 0 0 []) = Some (true, w')
    /\ m_tPrimaryTrigger w' = double_of_Z 5.
Proof.
  destruct (free_run_first_ready (always_ready (fun _ => double_of_Z 5)) 0
              (mkWindow true false true (double_of_Z (-1)) (double_of_Z 0) 0 0 0 []))
    as (w' & qs & Hrun & _ & _ & Htp & _).
  - exists 0%nat. split; [simpl; lia|reflexivity].
  - intros pre i post _ _. reflexivity.
  - reflexivity.
  - reflexivity.
  - reflexivity.
  - reflexivity.
  - exists w'. split; [exact Hrun|exact Htp].
Defined.

(** X9.  Free-run mode with the primary trigger time already recorded (not
    negative): a complete poll reads the clock once and, unless the recorded
    time is positive and more than a second old (the reading minus that
    time, subtracted as [double]s, is more than 1), reports ready and changes
    no trigger field. *)
Theorem free_run_steady env fuel w :
  (exists i, (i < nscopes env)%nat /\ offline env i = false) ->
  all_answer_ready env (scopes env) (n_pending w) ->
  m_multiScopeFreeRun w = true ->
  double_ltb (m_tPrimaryTrigger w) (double_of_Z 0) = false ->
  double_ltb (double_of_Z 0) (m_tPrimaryTrigger w)
  && double_ltb (double_of_Z 1)
      (double_sub (clock env (n_clock w)) (m_tPrimaryTrigger w)) = false ->
  exists w' qs,
    CheckForPendingWaveforms env fuel w = Some (true, w')
    /\ Forall (fun e => is_query e = true) qs
    /\ trace w' = trace w ++ qs ++ readiness_queries env (scopes env)
    /\ same_flags w w'
    /\ n_clock w' = S (n_clock w)
    /\ n_pending w' = (n_pending w + online_count env (scopes env))%nat
    /\ n_armed w' = n_armed w.
Proof.
  intros Hon Hready Hfree Hneg Hin.
  destruct (check_unfold env fuel w Hon)
    as (r & w2 & qs & Hq & Hfl & Ha & Hc & Hiff & Htr & Hcheck).
  apply Hiff in Hready. subst r. destruct (Htr eq_refl) as [Ht2 Hp2].
  rewrite Hfree in Hcheck. cbn [negb] in Hcheck.
  pose proof Hfl as (Harm & Hone & Hfr & Htp & Hta).
  rewrite free_run_watchdog_steady in Hcheck;
    [|by rewrite Htp|by rewrite Htp, Hc].
  eexists _, qs. split; [exact Hcheck|]. cbn.
  split; [exact Hq|]. split; [done|]. split; [exact Hfl|].
  split; [by rewrite Hc|]. done.
Qed.

(** A complete poll half a second after the primary trigger. *)
Lemma free_run_steady_witness :
  exists w',
    CheckForPendingWaveforms (always_ready (fun _ => tenths 15)) 0 free_running
    = Some (true, w')
    /\ n_clock w' = 1%nat.
Proof.
  destruct (free_run_steady (always_ready (fun _ => tenths 15)) 0 free_running)
    as (w' & qs & Hrun & _ & _ & _ & Hc & _).
  - exists 0%nat. split; [simpl; lia|reflexivity].
  - intros pre i post _ _. reflexivity.
  - reflexivity.
  - reflexivity.
  - reflexivity.
  - exists w'. split; [exact Hrun|exact Hc].
Defined.

Lemma download_each_run env layout ix w :
  exists w',
    download_each env layout ix w
    = Some (flat_map (fun i => detach_calls layout i ++ [PopPendingWaveform i])
              (filter (fun i => offline env i = false) ix), w')
    /\ trace_extended w w' (offline_queries ix).
Proof.
  revert w. induction ix as [|i ix IH]; intros w.
  - exists w. split; [done|].
    unfold trace_extended, same_fields, same_flags. simpl.
    by rewrite app_nil_r.
  - cbn [download_each]. unfold scope_IsOffline, call, emit, ret, bind.
    cbv beta iota.
    match goal with |- context [download_each env layout ix ?w0] =>
      destruct (IH w0) as (w' & Hrun & Hext) end.
    exists w'. split.
    + rewrite Hrun.
      destruct (offline env i) eqn:Ei.
      * rewrite filter_cons_False by (rewrite Ei; done). done.
      * rewrite filter_cons_True by done. cbn [flat_map].
        by rewrite <- !app_assoc.
    + unfold trace_extended, same_fields, same_flags in *. cbn in Hext.
      rewrite <- !app_assoc in Hext. exact Hext.
Qed.

Lemma elem_of_collect {A} (ix : list nat) (body : nat -> list A) x :
  x ∈ collect ix body <-> exists i, i ∈ ix /\ x ∈ body i.
Proof.
  induction ix as [|i ix IH]; cbn [collect].
  - split; [intros H; inversion H|intros (i & H & _); inversion H].
  - rewrite elem_of_app, IH. split.
    + intros [H|(j & Hj & H)]; [exists i|exists j]; (split; [|done]).
      * left. * by right.
    + intros (j & Hj & H). apply elem_of_cons in Hj as [->|Hj]; [by left|].
      right. by exists j.
Qed.

Lemma elem_of_flat_map {A B} (f : A -> list B) (l : list A) x :
  x ∈ flat_map f l <-> exists y, y ∈ l /\ x ∈ f y.
Proof.
  rewrite list_elem_of_In, in_flat_map. split.
  - intros (y & Hy & Hx). exists y. by rewrite !list_elem_of_In.
  - intros (y & Hy & Hx). exists y. by rewrite <- !list_elem_of_In.
Qed.

Lemma elem_of_detach_calls layout i x :
  x ∈ detach_calls layout i
  <-> exists c s, x = Detach i c s /\ (c < channel_count layout i)%nat
                  /\ (s < stream_count layout i c)%nat.
Proof.
  unfold detach_calls. rewrite elem_of_collect. split.
  - intros (c & Hc%elem_of_seq & (s & Hs%elem_of_seq & ->%list_elem_of_singleton)%elem_of_collect).
    exists c, s. split; [done|lia].
  - intros (c & s & -> & Hc & Hs). exists c. split; [apply elem_of_seq; lia|].
    apply elem_of_collect. exists s. split; [apply elem_of_seq; lia|].
    by apply list_elem_of_singleton.
Qed.

Lemma DownloadWaveforms_run env layout w :
  exists w',
    DownloadWaveforms env layout w
    = Some (flat_map (fun i => detach_calls layout i ++ [PopPendingWaveform i])
              (filter (fun i => offline env i = false) (scopes env)), w')
    /\ trace w' = trace w ++ offline_queries (scopes env)
    /\ m_triggerArmed w'
       = (if (nscopes env =? 0)%nat && m_triggerOneShot w then false
          else m_triggerArmed w)
    /\ m_triggerOneShot w' = m_triggerOneShot w
    /\ m_multiScopeFreeRun w' = m_multiScopeFreeRun w
    /\ m_tPrimaryTrigger w' = m_tPrimaryTrigger w
    /\ m_tArm w' = m_tArm w
    /\ n_pending w' = n_pending w /\ n_armed w' = n_armed w
    /\ n_clock w' = n_clock w.
Proof.
  destruct (download_each_run env layout (scopes env) w)
    as (w1 & Hrun & ((Hf & Hp) & Ha & Hc & Ht)).
  destruct Hf as (Harm & Hone & Hfree & Htp & Hta).
  exists (if (nscopes env =? 0)%nat && m_triggerOneShot w1
          then mkWindow false (m_triggerOneShot w1)
                 (m_multiScopeFreeRun w1) (m_tPrimaryTrigger w1)
                 (m_tArm w1) (n_pending w1) (n_armed w1)
                 (n_clock w1) (trace w1)
          else w1).
  split.
  { unfold DownloadWaveforms. rewrite (bind_Some _ _ _ _ _ Hrun).
    unfold bind at 1. unfold get at 1. unfold bind at 1.
    destruct ((nscopes env =? 0)%nat && m_triggerOneShot w1); reflexivity. }
  rewrite Hone.
  destruct ((nscopes env =? 0)%nat && m_triggerOneShot w); cbn;
    repeat split; congruence.
Qed.

(** X10.  [DownloadWaveforms] always completes.  It asks every scope whether
    it is offline; for each online scope, in scope order, it detaches
    every stream of every channel and then pops the pending waveform; an
    offline scope gets no call.  The armed flag is cleared only when the
    session has no scope at all and the trigger is one-shot; no other field
    changes. *)
Theorem download_touches_online_scopes env layout w :
  exists calls w',
    DownloadWaveforms env layout w = Some (calls, w')
    /\ calls = flat_map (fun i => detach_calls layout i ++ [PopPendingWaveform i])
                 (filter (fun i => offline env i = false) (scopes env))
    /\ (forall i, PopPendingWaveform i ∈ calls
          <-> (i < nscopes env)%nat /\ offline env i = false)
    /\ (forall i c s, Detach i c s ∈ calls
          <-> (i < nscopes env)%nat /\ offline env i = false
              /\ (c < channel_count layout i)%nat
              /\ (s < stream_count layout i c)%nat)
    /\ trace w' = trace w ++ offline_queries (scopes env)
    /\ m_triggerArmed w'
       = (if (nscopes env =? 0)%nat && m_triggerOneShot w then false
          else m_triggerArmed w)
    /\ m_triggerOneShot w' = m_triggerOneShot w
    /\ m_multiScopeFreeRun w' = m_multiScopeFreeRun w
    /\ m_tPrimaryTrigger w' = m_tPrimaryTrigger w
    /\ m_tArm w' = m_tArm w
    /\ n_pending w' = n_pending w /\ n_armed w' = n_armed w
    /\ n_clock w' = n_clock w.
Proof.
  destruct (DownloadWaveforms_run env layout w) as (w' & Hrun & Hrest).
  eexists _, w'. split; [exact Hrun|].
  split; [reflexivity|]. split; [|split].
  - intros i. rewrite elem_of_flat_map. split.
    + intros (j & Hj%list_elem_of_filter & Hin).
      destruct Hj as [Hoff Hj%elem_of_seq].
      apply elem_of_app in Hin as [Hin|Hin].
      * apply elem_of_detach_calls in Hin as (c & s & ? & _). done.
      * apply list_elem_of_singleton in Hin. injection Hin as ->.
        split; [lia|done].
    + intros [Hi Hoff]. exists i. split.
      * apply list_elem_of_filter.
        split; [done|apply elem_of_seq; lia].
      * apply elem_of_app. right. by apply list_elem_of_singleton.
  - intros i c s. rewrite elem_of_flat_map. split.
    + intros (j & Hj%list_elem_of_filter & Hin).
      destruct Hj as [Hoff Hj%elem_of_seq].
      apply elem_of_app in Hin as [Hin|Hin].
      * apply elem_of_detach_calls in Hin as (c' & s' & E & Hc' & Hs').
        injection E as -> -> ->. split; [lia|done].
      * apply list_elem_of_singleton in Hin. done.
    + intros (Hi & Hoff & Hc' & Hs'). exists i. split.
      * apply list_elem_of_filter.
        split; [done|apply elem_of_seq; lia].
      * apply elem_of_app. left.
        apply elem_of_detach_calls. by exists c, s.
  - exact Hrest.
Qed.

(** X11.  A session without online scopes, armed for a single acquisition:
    arming succeeds at once and the next poll reports ready;
    [DownloadWaveforms] then makes no call on any scope.  The poll after it
    reports not ready when the session has no scope at all, but reports
    ready again when the session has scopes that are all offline, because
    the armed flag is only cleared for an empty scope list. *)
Theorem one_shot_without_online_scopes env layout fuel w :
  (forall i, (i < nscopes env)%nat -> offline env i = true) ->
  exists w1 w2 w3 w4,
    ArmTrigger env fuel TRIGGER_TYPE_SINGLE w = Some (tt, w1)
    /\ CheckForPendingWaveforms env fuel w1 = Some (true, w2)
    /\ DownloadWaveforms env layout w2 = Some ([], w3)
    /\ CheckForPendingWaveforms env fuel w3
       = Some (negb (nscopes env =? 0)%nat, w4).
Proof.
  intros Hoff.
  destruct (arm_all_offline env fuel TRIGGER_TYPE_SINGLE w Hoff)
    as (w1 & H1 & Harm1 & Hone1 & _).
  destruct (check_all_offline env fuel w1 Hoff)
    as (w2 & H2 & ((Hf2 & _) & _)).
  destruct Hf2 as (Harm2 & Hone2 & _).
  destruct (DownloadWaveforms_run env layout w2) as (w3 & H3 & _ & Harm3 & _).
  assert (filter (fun i => offline env i = false) (scopes env) = []) as Hnone.
  { destruct (filter _ (scopes env)) as [|i rest] eqn:E; [done|].
    assert (i ∈ filter (fun i => offline env i = false) (scopes env)) as Hi
      by (rewrite E; left).
    apply list_elem_of_filter in Hi as [Hi Hin%elem_of_seq].
    rewrite Hoff in Hi by lia. done. }
  rewrite Hnone in H3. cbn [flat_map] in H3.
  destruct (check_all_offline env fuel w3 Hoff) as (w4 & H4 & _).
  exists w1, w2, w3, w4. rewrite Harm1 in H2.
  split; [exact H1|]. split; [exact H2|]. split; [exact H3|].
  rewrite H4. f_equal. f_equal. rewrite Harm3, Hone2, Hone1, Harm2, Harm1.
  cbn [is_oneshot]. by destruct (nscopes env =? 0)%nat.
Qed.

(** A single acquisition on two offline scopes, and on a session without
    scopes: the poll after the download reports ready in the first and not
    ready in the second. *)
Lemma one_shot_without_online_scopes_witness :
  (forall i, (i < nscopes all_offline)%nat -> offline all_offline i = true)
  /\ (exists w1 w2 w3 w4,
        ArmTrigger all_offline 0 TRIGGER_TYPE_SINGLE initial_window
        = Some (tt, w1)
        /\ CheckForPendingWaveforms all_offline 0 w1 = Some (true, w2)
        /\ DownloadWaveforms all_offline
             (mkLayout (fun _ => 0%nat) (fun _ _ => 0%nat)) w2 = Some ([], w3)
        /\ CheckForPendingWaveforms all_offline 0 w3 = Some (true, w4))
  /\ (exists w1 w2 w3 w4,
        ArmTrigger no_scopes 0 TRIGGER_TYPE_SINGLE initial_window
        = Some (tt, w1)
        /\ CheckForPendingWaveforms no_scopes 0 w1 = Some (true, w2)
        /\ DownloadWaveforms no_scopes
             (mkLayout (fun _ => 0%nat) (fun _ _ => 0%nat)) w2 = Some ([], w3)
        /\ CheckForPendingWaveforms no_scopes 0 w3 = Some (false, w4)).
Proof.
  assert (forall i, (i < nscopes all_offline)%nat -> offline all_offline i = true)
    as Hoff by (intros i _; reflexivity).
  split; [exact Hoff|]. split.
  - exact (one_shot_without_online_scopes all_offline
             (mkLayout (fun _ => 0%nat) (fun _ _ => 0%nat)) 0
             initial_window Hoff).
  - apply (one_shot_without_online_scopes no_scopes
             (mkLayout (fun _ => 0%nat) (fun _ _ => 0%nat)) 0
             initial_window).
    intros i Hi. simpl in Hi. lia.
Defined.

Lemma trim_times_drop (times : list double) :
  trim_times times = drop (length times - 10) times.
Proof.
  induction times as [|t times IH]; [done|].
  cbn [trim_times]. destruct (10 <? length (t :: times))%nat eqn:E.
  - apply Nat.ltb_lt in E. cbn [length] in *. rewrite IH.
    replace (S (length times) - 10)%nat with (S (length times - 10)) by lia.
    done.
  - apply Nat.ltb_ge in E. cbn [length] in *.
    replace (S (length times) - 10)%nat with 0%nat by lia. done.
Qed.

Lemma drop_window_app {A} (l r : list A) :
  drop (length (drop (length l - 10) l ++ r) - 10) (drop (length l - 10) l ++ r)
  = drop (length (l ++ r) - 10) (l ++ r).
Proof.
  assert (drop (length l - 10) l ++ r = drop (length l - 10) (l ++ r)) as ->.
  { rewrite drop_app. replace (length l - 10 - length l)%nat with 0%nat by lia.
    done. }
  rewrite drop_drop, length_drop. f_equal. rewrite length_app. lia.
Qed.

(** X12.  The window of waveform times kept for the rate display: starting
    from a list of at most ten times, after any sequence of waveforms the
    list holds the last ten of all times pushed so far (all of them while
    there are at most ten), oldest first. *)
Theorem waveform_times_window (times readings : list double) :
  (length times <= 10)%nat ->
  foldl (fun ts now => record_waveform_time now ts) times readings
  = drop (length (times ++ readings) - 10) (times ++ readings).
Proof.
  intros Hlen. induction readings as [|r readings IH] using rev_ind.
  - rewrite app_nil_r. replace (length times - 10)%nat with 0%nat by lia. done.
  - rewrite foldl_snoc, IH. unfold record_waveform_time.
    rewrite trim_times_drop, drop_window_app. by rewrite <- app_assoc.
Qed.

(** Twelve waveforms into an empty window. *)
Lemma waveform_times_window_witness :
  foldl (fun ts now => record_waveform_time now ts) []
    (map (fun k => double_of_Z (Z.of_nat k)) (seq 0 12))
  = map (fun k => double_of_Z (Z.of_nat k)) (seq 2 10).
Proof.
  rewrite (waveform_times_window []
             (map (fun k => double_of_Z (Z.of_nat k)) (seq 0 12)));
    [reflexivity|simpl; lia].
Defined.

End TriggerMoreFacts.

(* ===================================================================== *)
(** * Looking for an online scope                                          *)
(* ===================================================================== *)

Section OnlineFacts.

Import Trigger.

Lemma any_online_run env (a len : nat) w :
  exists (k : nat) w',
    (k <= len)%nat
    /\ (forall i, (i < k)%nat -> offline env (a + i) = true)
    /\ ((k < len)%nat -> offline env (a + k) = false)
    /\ any_online env (seq a len) w = Some ((k <? len)%nat, w')
    /\ trace_extended w w' (offline_queries (seq a (Nat.min (S k) len))).
Proof.
  revert a w. induction len as [|len IH]; intros a w.
  - exists 0%nat, w. split; [done|]. split; [lia|]. split; [lia|].
    split; [done|].
    unfold trace_extended, same_fields, same_flags. cbn. by rewrite app_nil_r.
  - cbn [seq any_online]. unfold bind at 1.
    unfold scope_IsOffline, call, emit, bind, ret.
    destruct (offline env a) eqn:Ea; cbn [negb].
    + match goal with |- context [any_online env _ ?w0] =>
        destruct (IH (S a) w0) as (k & w' & Hk & Hoff & Hon & Hrun & Hext) end.
      exists (S k), w'. split; [lia|]. split; [|split; [|split]].
      * intros [|i] Hi; [by rewrite Nat.add_0_r|].
        rewrite <- Nat.add_succ_comm. apply Hoff. lia.
      * intros Hlt. rewrite <- Nat.add_succ_comm. apply Hon. lia.
      * rewrite Hrun. do 2 f_equal.
      * replace (Nat.min (S (S k)) (S len)) with (S (Nat.min (S k) len)) by lia.
        unfold trace_extended, same_fields, same_flags in *. cbn in Hext |- *.
        rewrite <- app_assoc in Hext. exact Hext.
    + eexists 0%nat, _. split; [lia|]. split; [lia|].
      split; [by rewrite Nat.add_0_r|]. split; [reflexivity|].
      unfold trace_extended, same_fields, same_flags. done.
Qed.

(** X13.  [HasOnlineScopes] always completes and reports whether some scope
    of the session is online.  It asks the scopes in order whether they are
    offline and stops at the first one that is not, so it asks exactly the
    leading offline scopes and the first online one (all scopes when none is
    online); it sends no command and changes no trigger field. *)
Theorem has_online_scopes env w :
  exists (k : nat) w',
    HasOnlineScopes env w = Some ((k <? nscopes env)%nat, w')
    /\ (k <= nscopes env)%nat
    /\ (forall i, (i < k)%nat -> offline env i = true)
    /\ ((k < nscopes env)%nat -> offline env k = false)
    /\ ((k <? nscopes env)%nat = true
        <-> exists i, (i < nscopes env)%nat /\ offline env i = false)
    /\ trace_extended w w'
         (offline_queries (seq 0 (Nat.min (S k) (nscopes env)))).
Proof.
  destruct (any_online_run env 0 (nscopes env) w)
    as (k & w' & Hk & Hoff & Hon & Hrun & Hext).
  exists k, w'. split; [exact Hrun|]. split; [exact Hk|].
  split; [exact Hoff|]. split; [exact Hon|]. split; [|exact Hext].
  rewrite Nat.ltb_lt. split.
  - intros Hlt. exists k. split; [done|by apply Hon].
  - intros (i & Hi & Hoffi).
    destruct (Nat.lt_ge_cases k (nscopes env)) as [|Hge]; [done|].
    assert (i < k)%nat as Hik by lia.
    specialize (Hoff i Hik). cbn in Hoff. congruence.
Qed.

End OnlineFacts.

(* ===================================================================== *)
(** * More on loading: completion, overwriting, newest time, autofit      *)
(* ===================================================================== *)

Section CodecMoreFacts.

Import Codec.

Lemma wait_for_loaders_within snapshot K fuel k :
  all_done (snapshot K) = true -> (k <= K)%nat -> (K - k < fuel)%nat ->
  exists k', wait_for_loaders fuel snapshot k = Some k' /\ (k' <= K)%nat.
Proof.
  intros HK. revert k. induction fuel as [|fuel IH]; intros k Hk Hf; [lia|].
  cbn [wait_for_loaders]. destruct (all_done (snapshot k)) eqn:E.
  - exists k. split; [done|lia].
  - assert (k <> K) by (intros ->; congruence).
    apply IH; lia.
Qed.

Lemma loader_done_iff_opened file format cap st :
  DoLoadWaveformDataForScope file format cap = Some st ->
  (ld_done st = 1 /\ file <> None) \/ (ld_done st = 0 /\ file = None).
Proof.
  unfold DoLoadWaveformDataForScope. destruct file as [buf|].
  - intros H. left. split; [|done].
    destruct (bool_decide (format = "sparsev1")).
    + destruct (load_sparsev1 buf cap); simpl in H; [|done].
      by injection H as <-.
    + destruct (bool_decide (format = "densev1")); by injection H as <-.
  - intros H. right. by injection H as <-.
Qed.

(** X14.  When the progress loop of a waveform event ends, for an event
    whose loaders all stay inside their vectors.  If the body file of every
    channel opens, the loop breaks out as soon as the fuel outlasts the
    slowest thread, whatever the formats are, and the event yields what the
    loaders left.  If the body file of some channel does not open, the loop
    breaks out for no fuel and no thread timing. *)
Theorem load_completes_exactly_when_all_open finish
    (channels : list (option (list byte) * string * WaveformBase)) results :
  mapM (fun '(file, format, cap) =>
          DoLoadWaveformDataForScope file format cap) channels = Some results ->
  let opened := fun ch : option (list byte) * string * WaveformBase =>
                  ch.1.1 <> None in
  (Forall opened channels ->
   forall fuel, (forall i, (i < length channels)%nat -> (finish i < fuel)%nat) ->
     (0 < fuel)%nat ->
     load_one_waveform fuel finish channels = Loaded results)
  /\ (~ Forall opened channels ->
      forall fuel, load_one_waveform fuel finish channels = StillWaiting).
Proof.
  intros Hruns opened. split.
  - intros Hall fuel Hfuel Hpos. unfold load_one_waveform. rewrite Hruns.
    destruct (wait_for_loaders_within
                (done_cells results finish) (fuel - 1) fuel 0)
      as (k' & -> & _); [|lia|lia|done].
    unfold all_done. apply forallb_forall. intros d Hd%list_elem_of_In.
    unfold done_cells in Hd.
    apply elem_of_lookup_imap in Hd as (i & st & -> & Hst).
    apply mapM_Some in Hruns.
    destruct (Forall2_lookup_r _ _ _ _ _ Hruns Hst) as (ch & Hch & Hrun).
    pose proof (lookup_lt_Some _ _ _ Hch) as Hi.
    rewrite Forall_forall in Hall.
    assert (opened ch) as Hfile by (by eapply Hall, list_elem_of_lookup_2).
    destruct ch as [[file format] cap]. cbn in Hfile, Hrun.
    destruct (loader_done_iff_opened _ _ _ _ Hrun) as [[-> _]|[_ ?]]; [|done].
    specialize (Hfuel i Hi).
    destruct (Nat.leb_spec (finish i) (fuel - 1)); [done|lia].
  - intros Hnot fuel.
    apply not_Forall_Exists in Hnot; [|intros ch; unfold opened; apply _].
    apply Exists_exists in Hnot as (ch & Hin & Hbad).
    apply list_elem_of_lookup in Hin as [i Hi].
    destruct ch as [[file format] cap]. unfold opened in Hbad. cbn in Hbad.
    destruct file as [buf|]; [by destruct Hbad|].
    by apply (missing_file_blocks_load channels results i format cap).
Qed.

(** Two channels whose files open, one sparsev1 record and a format the
    loader does not know; and two channels of which the first has no body
    file. *)
Lemma load_completes_exactly_when_all_open_witness :
  (exists results,
     load_one_waveform 3 (fun i => i)
       [(Some one_sample_buffer, "sparsev1", empty_analog);
        (Some one_sample_buffer, "sparsev9", empty_analog)] = Loaded results)
  /\ load_one_waveform 3 (fun i => i) missing_file_channels = StillWaiting.
Proof.
  split.
  - eexists.
    apply (proj1 (load_completes_exactly_when_all_open (fun i => i)
                    [(Some one_sample_buffer, "sparsev1", empty_analog);
                     (Some one_sample_buffer, "sparsev9", empty_analog)]
                    _ ltac:(vm_compute; reflexivity))).
    + repeat constructor; done.
    + simpl. intros i Hi. lia.
    + lia.
  - apply (proj2 (load_completes_exactly_when_all_open (fun i => i)
                    missing_file_channels _ ltac:(vm_compute; reflexivity))).
    intros H. apply Forall_cons in H as [H _]. by apply H.
Defined.

Lemma sparse_dense_check_vectors n cap cap' :
  m_offsets cap' = m_offsets cap -> m_durations cap' = m_durations cap ->
  match sparse_dense_check n cap, sparse_dense_check n cap' with
  | Some w, Some w' =>
      (w = cap /\ w' = cap')
      \/ (w = set_densePacked true cap /\ w' = set_densePacked true cap')
  | None, None => True
  | _, _ => False
  end.
Proof.
  intros Ho Hd. rewrite !sparse_dense_check_eq. cbv zeta. rewrite Ho, Hd.
  destruct (vec_at (m_offsets cap) 0) as [o0|]; simpl; [|done].
  destruct (negb (o0 =? 0)); [by left|].
  destruct (vec_at (m_offsets cap) _) as [ol|]; simpl; [|done].
  destruct (negb (ol =? _)); [by left|].
  destruct (vec_at (m_durations cap) _) as [dl|]; simpl; [|done].
  destruct (negb (dl =? 1)); [by left|by right].
Qed.

(** X15.  Decoding overwrites.  What a loader leaves in the offset,
    duration and sample vectors depends only on the bytes of the file, the
    format and the kind of the waveform (analog or digital), not on what the
    waveform held before: two waveforms of the same kind decode alike,
    sample for sample, and a run that reads outside a vector does so for
    both.  The time base, the start time and the trigger phase are not
    touched.  The dense flag is never cleared: a waveform that comes with
    the flag set keeps it whatever the records say. *)
Theorem decoding_overwrites buf format cap cap' :
  acap cap' = acap cap ->
  match DoLoadWaveformDataForScope (Some buf) format cap,
        DoLoadWaveformDataForScope (Some buf) format cap' with
  | Some st, Some st' =>
      (format = "sparsev1" \/ format = "densev1" ->
       m_offsets (ld_cap st') = m_offsets (ld_cap st)
       /\ m_durations (ld_cap st') = m_durations (ld_cap st)
       /\ m_samples (ld_cap st') = m_samples (ld_cap st))
      /\ m_timescale (ld_cap st) = m_timescale cap
      /\ m_startTimestamp (ld_cap st) = m_startTimestamp cap
      /\ m_startFemtoseconds (ld_cap st) = m_startFemtoseconds cap
      /\ m_triggerPhase (ld_cap st) = m_triggerPhase cap
      /\ (m_densePacked cap = true -> m_densePacked (ld_cap st) = true)
  | None, None => True
  | _, _ => False
  end.
Proof.
  intros Hkind. unfold DoLoadWaveformDataForScope.
  destruct (bool_decide (format = "sparsev1")) eqn:Es.
  - unfold load_sparsev1.
    assert (samplesize cap' = samplesize cap) as Hss
      by (unfold samplesize; by rewrite Hkind).
    rewrite Hss.
    pose proof (sparse_dense_check_vectors (length buf / samplesize cap)
                  (sparse_read_records buf cap) (sparse_read_records buf cap'))
      as H.
    rewrite !sparse_read_records_eq in H |- *. cbv zeta in H |- *.
    rewrite Hss, Hkind in H |- *.
    specialize (H eq_refl eq_refl).
    destruct (sparse_dense_check _ _) as [w|], (sparse_dense_check _ _) as [w'|];
      simpl; try done.
    destruct H as [[-> ->]|[-> ->]]; cbn; repeat split; done.
  - destruct (bool_decide (format = "densev1")) eqn:Ed; simpl.
    + rewrite !load_densev1_eq. cbv zeta. rewrite Hkind. cbn.
      repeat split; done.
    + apply bool_decide_eq_false in Es, Ed. cbn.
      split; [intros [?|?]; done|]. done.
Qed.


(** One record decoded into a fresh and into a used analog waveform. *)
Lemma decoding_overwrites_witness :
  acap used_analog = acap empty_analog /\
  exists st st',
    DoLoadWaveformDataForScope (Some one_sample_buffer) "sparsev1" empty_analog
    = Some st
    /\ DoLoadWaveformDataForScope (Some one_sample_buffer) "sparsev1" used_analog
       = Some st'
    /\ m_offsets (ld_cap st') = m_offsets (ld_cap st).
Proof.
  split; [reflexivity|].
  pose proof (decoding_overwrites one_sample_buffer "sparsev1"
                empty_analog used_analog eq_refl) as H.
  destruct (DoLoadWaveformDataForScope _ _ empty_analog) as [st|] eqn:E1;
    [|vm_compute in E1; discriminate].
  destruct (DoLoadWaveformDataForScope _ _ used_analog) as [st'|] eqn:E2;
    [|vm_compute in E2; discriminate].
  exists st, st'. split; [reflexivity|]. split; [reflexivity|].
  destruct H as [H _]. apply H. by left.
Defined.

Lemma later_spec (a b : TimePoint) :
  later a b = true <-> b.1 < a.1 \/ (a.1 = b.1 /\ b.2 < a.2).
Proof.
  unfold later. rewrite orb_true_iff, andb_true_iff.
  rewrite !Z.ltb_lt, Z.eqb_eq. done.
Qed.

Lemma not_later_spec (a b : TimePoint) :
  later a b = false <-> a.1 < b.1 \/ (a.1 = b.1 /\ a.2 <= b.2).
Proof.
  destruct (later a b) eqn:E.
  - apply later_spec in E. split; [done|]. lia.
  - split; [intros _|done].
    assert (~ (b.1 < a.1 \/ (a.1 = b.1 /\ b.2 < a.2))) as H.
    { intros H%later_spec. congruence. }
    lia.
Qed.

Lemma track_from (init : TimePoint) (times : list TimePoint) :
  let r := foldl (fun newest time => if later time newest then time else newest)
             init times in
  (r = init \/ r ∈ times)
  /\ later init r = false
  /\ (forall t, t ∈ times -> later t r = false)
  /\ ((forall t, t ∈ times -> later t init = false) -> r = init).
Proof.
  revert init. induction times as [|t times IH]; intros init; cbn [foldl].
  - split; [by left|]. split; [apply not_later_spec; lia|].
    split; [intros t H; inversion H|done].
  - cbv zeta in IH.
    destruct (IH (if later t init then t else init)) as (Hin & Hge & Hall & Hstay).
    set (r := foldl _ _ times) in *.
    assert (later init (if later t init then t else init) = false
            /\ later t (if later t init then t else init) = false)
      as [Hi Ht].
    { destruct (later t init) eqn:E.
      - apply later_spec in E. rewrite !not_later_spec. lia.
      - apply not_later_spec in E. rewrite !not_later_spec. lia. }
    split; [|split; [|split]].
    + destruct Hin as [->|Hin]; [|right; by right].
      destruct (later t init); [right; left|by left].
    + apply not_later_spec in Hge, Hi. apply not_later_spec. lia.
    + intros t' [->|Hin']%elem_of_cons; [|by apply Hall].
      apply not_later_spec in Hge, Ht. apply not_later_spec. lia.
    + intros Hnone. rewrite Hstay.
      * rewrite Hnone; [done|left].
      * intros t' Hin'. rewrite Hnone by left. apply Hnone. by right.
Qed.

(** X16.  The time handed to the history window after a file is loaded.  It
    is (0, 0) or the time of a waveform of the file; no waveform of the file
    is later (seconds first, then femtoseconds); when some waveform is later
    than (0, 0) it is the time of a waveform, and when none is, for instance
    for an empty file or for times before the epoch, it is (0, 0), which is
    then not the time of any waveform unless one carries exactly that
    time. *)
Theorem newest_is_latest (times : list TimePoint) :
  let newest := track_newest times in
  (newest = (0, 0) \/ newest ∈ times)
  /\ later (0, 0) newest = false
  /\ (forall t, t ∈ times -> later t newest = false)
  /\ ((exists t, t ∈ times /\ later t (0, 0) = true) -> newest ∈ times)
  /\ ((forall t, t ∈ times -> later t (0, 0) = false) -> newest = (0, 0)).
Proof.
  cbv zeta. unfold track_newest.
  destruct (track_from (0, 0) times) as (Hin & Hge & Hall & Hstay).
  split; [exact Hin|]. split; [exact Hge|]. split; [exact Hall|].
  split; [|exact Hstay].
  intros (t & Ht & Hlater). destruct Hin as [E|Hin]; [|done].
  specialize (Hall t Ht). rewrite E in Hall. congruence.
Qed.

Lemma autofit_short (wfms : list WaveformBase) (d : Z) :
  Forall (fun w => (length (m_offsets w) < 2)%nat) wfms ->
  foldl (fun acc w => d ← acc; autofit_step d w) (Some d) wfms = Some d.
Proof.
  induction 1 as [|w wfms Hw _ IH]; [done|].
  cbn [foldl]. simpl. unfold autofit_step.
  destruct (Nat.ltb_spec (length (m_offsets w)) 2); [exact IH|lia].
Qed.

(** X17.  The span used by the horizontal autofit.  A group whose waveforms
    all have fewer than two samples gives the span 0, by which the plot
    width is then divided.  For a single waveform decoded from a densev1
    file with [n >= 2] samples and a time base that is not negative, the
    span is [n] times the time base (as long as [n] and the product fit 64
    bits): the waveform counts from its first offset to the end of its last
    sample. *)
Theorem autofit_span buf cap (wfms : list WaveformBase) :
  let n := (length buf / (if acap cap then 4 else 1))%nat in
  (Forall (fun w => (length (m_offsets w) < 2)%nat) wfms ->
   autofit_duration wfms = Some 0)
  /\ ((2 <= n)%nat -> Z.of_nat n < 2 ^ 63 -> 0 <= m_timescale cap ->
      Z.of_nat n * m_timescale cap < 2 ^ 63 ->
      autofit_duration [load_densev1 buf cap]
      = Some (Z.of_nat n * m_timescale cap)).
Proof.
  cbv zeta. split; [apply autofit_short|].
  intros Hn Hnfit Hts Hfit.
  set (n := (length buf / (if acap cap then 4 else 1))%nat) in *.
  unfold autofit_duration. cbn [foldl]. simpl.
  unfold autofit_step. rewrite load_densev1_eq. cbv zeta. fold n.
  cbn [m_offsets m_durations m_timescale].
  rewrite length_map, length_seq.
  destruct (Nat.ltb_spec n 2); [lia|].
  rewrite !lookup_map_seq by lia. simpl.
  rewrite (to_int64_small (Z.of_nat (n - 1))) by lia.
  rewrite (to_int64_small (Z.of_nat 0)) by lia.
  rewrite (to_int64_small (Z.of_nat (n - 1) + 1)) by lia.
  replace (Z.of_nat (n - 1) + 1 - Z.of_nat 0) with (Z.of_nat n) by lia.
  rewrite (to_int64_small (Z.of_nat n)) by lia.
  rewrite to_int64_small by nia. f_equal. nia.
Qed.

(** Three dense samples at time base 1. *)
Lemma autofit_span_witness :
  autofit_duration [load_densev1 three_sample_buffer empty_analog] = Some 3.
Proof.
  apply (proj2 (autofit_span three_sample_buffer empty_analog []));
    simpl; lia.
Defined.

End CodecMoreFacts.

(* ===================================================================== *)
(** * The two formats on the images of a waveform                         *)
(* ===================================================================== *)

Section ImageFacts.

Import Codec.

Lemma byte_val_of (z : Z) : byte_val (byte_of z) = z mod 256.
Proof.
  unfold byte_val, byte_of.
  pose proof (Z.mod_pos_bound z 256 ltac:(lia)) as Hr.
  destruct (Byte.of_N (Z.to_N (z mod 256))) as [b|] eqn:E.
  - apply Byte.to_of_N in E. cbn. rewrite E. lia.
  - apply Byte.of_N_None_iff in E. lia.
Qed.

Lemma byte_of_val (b : byte) : byte_of (byte_val b) = b.
Proof.
  unfold byte_of, byte_val. pose proof (Byte.to_N_bounded b).
  rewrite Z.mod_small by lia. rewrite N2Z.id, Byte.of_to_N. done.
Qed.

Lemma length_le_bytes k z : length (le_bytes k z) = k.
Proof. revert z. induction k as [|k IH]; intros z; [done|]. cbn. by rewrite IH. Qed.

Lemma le_value_le_bytes k z : le_value (le_bytes k z) = z mod 256 ^ Z.of_nat k.
Proof.
  revert z. induction k as [|k IH]; intros z.
  - cbn. by rewrite Z.mod_1_r.
  - cbn [le_bytes le_value]. rewrite byte_val_of, IH.
    replace (256 ^ Z.of_nat (S k)) with (256 * 256 ^ Z.of_nat k)
      by (rewrite Nat2Z.inj_succ, Z.pow_succ_r; lia).
    rewrite Z.rem_mul_r by lia. lia.
Qed.

Lemma to_int64_id z : - 2 ^ 63 <= z < 2 ^ 63 -> as_int64 (z mod 2 ^ 64) = z.
Proof.
  intros Hz. unfold as_int64.
  destruct (Z.lt_ge_cases z 0) as [Hneg|Hpos].
  - replace (z mod 2 ^ 64) with (z + 2 ^ 64)
      by (apply Z.mod_unique with (q := -1); lia).
    destruct (Z.ltb_spec (z + 2 ^ 64) (2 ^ 63)); lia.
  - rewrite Z.mod_small by lia. destruct (Z.ltb_spec z (2 ^ 63)); lia.
Qed.

(** A buffer made of chunks of one size: chunk [j] starts at [j * size]. *)
Lemma drop_chunks {A} (chunks : list (list A)) (size j : nat) :
  Forall (fun c => length c = size) chunks ->
  drop (j * size) (concat chunks) = concat (drop j chunks).
Proof.
  revert j. induction chunks as [|c chunks IH]; intros j Hall.
  - cbn [concat]. by rewrite !drop_nil.
  - apply Forall_cons in Hall as [Hc Hall]. destruct j as [|j]; [done|].
    cbn [concat drop]. rewrite <- (IH j Hall).
    replace (S j * size)%nat with (length c + j * size)%nat by lia.
    by rewrite drop_app_add.
Qed.

Lemma bytes_at_chunk (chunks : list (list byte)) (size j off k : nat) c :
  Forall (fun c => length c = size) chunks ->
  chunks !! j = Some c -> (off + k <= size)%nat ->
  bytes_at (concat chunks) (j * size + off) k = take k (drop off c).
Proof.
  intros Hall Hj Hfit. unfold bytes_at.
  rewrite <- drop_drop, (drop_chunks _ _ _ Hall).
  rewrite (drop_S _ _ _ Hj). cbn [concat].
  assert (length c = size) as Hc.
  { rewrite Forall_forall in Hall. apply Hall. by eapply list_elem_of_lookup_2. }
  rewrite drop_app_le by lia. rewrite take_app_le; [done|].
  rewrite length_drop. lia.
Qed.

Lemma lookup_chunk (chunks : list (list byte)) (size j off : nat) c :
  Forall (fun c => length c = size) chunks ->
  chunks !! j = Some c -> (off < size)%nat ->
  concat chunks !! (j * size + off)%nat = c !! off.
Proof.
  intros Hall Hj Hfit.
  rewrite <- lookup_drop, (drop_chunks _ _ _ Hall).
  rewrite (drop_S _ _ _ Hj). cbn [concat].
  assert (length c = size) as Hc.
  { rewrite Forall_forall in Hall. apply Hall. by eapply list_elem_of_lookup_2. }
  rewrite lookup_app_l by lia. done.
Qed.

Lemma length_chunks {A} (chunks : list (list A)) (size : nat) :
  Forall (fun c => length c = size) chunks ->
  length (concat chunks) = (length chunks * size)%nat.
Proof.
  induction 1 as [|c chunks Hc _ IH]; [done|].
  cbn [concat length]. rewrite length_app, IH, Hc. lia.
Qed.

Lemma map_seq_lookup {A} (d : A) (l : list A) :
  map (fun j => default d (l !! j)) (seq 0 (length l)) = l.
Proof.
  apply list_eq. intros j. rewrite list_lookup_fmap.
  destruct (l !! j) as [x|] eqn:E.
  - rewrite lookup_seq_lt by (by eapply lookup_lt_Some). cbn. by rewrite E.
  - rewrite lookup_seq_ge by (by apply lookup_ge_None). done.
Qed.

Lemma map_seq_ext {A} (f g : nat -> A) n :
  (forall j, (j < n)%nat -> f j = g j) ->
  map f (seq 0 n) = map g (seq 0 n).
Proof.
  intros H. apply map_ext_in. intros j Hj%in_seq. apply H. lia.
Qed.

Lemma value_size_pos analog : (1 <= value_size analog <= 4)%nat.
Proof. unfold value_size, sizeof_float, sizeof_bool. destruct analog; lia. Qed.

Lemma samplesize_value cap :
  samplesize cap = (16 + value_size (acap cap))%nat.
Proof. unfold samplesize, value_size, sizeof_int64. destruct (acap cap); done. Qed.

Lemma sparse_record_length analog s :
  length (sparse_record analog s) = (16 + value_size analog)%nat.
Proof. unfold sparse_record. rewrite !length_app, !length_le_bytes. lia. Qed.

Lemma sparse_image_chunks analog samples :
  sparse_image analog samples = concat (map (sparse_record analog) samples)
  /\ Forall (fun c => length c = (16 + value_size analog)%nat)
       (map (sparse_record analog) samples).
Proof.
  split; [done|]. apply Forall_fmap, Forall_forall. intros s _.
  apply sparse_record_length.
Qed.

Lemma dense_image_chunks analog values :
  Forall (fun c => length c = value_size analog)
    (map (le_bytes (value_size analog)) values).
Proof.
  apply Forall_fmap, Forall_forall. intros v _. apply length_le_bytes.
Qed.

Lemma le_value_small k z :
  0 <= z < 256 ^ Z.of_nat k -> le_value (le_bytes k z) = z.
Proof. intros H. rewrite le_value_le_bytes. by apply Z.mod_small. Qed.

Lemma le_int64 z :
  - 2 ^ 63 <= z < 2 ^ 63 -> as_int64 (le_value (le_bytes 8 z)) = z.
Proof. intros H. rewrite le_value_le_bytes. by apply to_int64_id. Qed.

(** The records read back from the image of a list of samples. *)
Lemma sparse_image_records analog samples cap :
  acap cap = analog ->
  Forall (fun s => - 2 ^ 63 <= s.1.1 < 2 ^ 63 /\ - 2 ^ 63 <= s.1.2 < 2 ^ 63
                   /\ 0 <= s.2 < 256 ^ Z.of_nat (value_size analog)) samples ->
  sparse_read_records (sparse_image analog samples) cap
  = mkWaveform (m_timescale cap) (m_startTimestamp cap)
      (m_startFemtoseconds cap) (m_triggerPhase cap)
      (map (fun s => s.1.1) samples) (map (fun s => s.1.2) samples)
      (m_densePacked cap) (sample_vector analog (map snd samples)).
Proof.
  intros Hkind Hrange.
  destruct (sparse_image_chunks analog samples) as [Himg Hchunks].
  pose proof (value_size_pos analog) as Hvs.
  rewrite sparse_read_records_eq. cbv zeta.
  rewrite samplesize_value, Hkind.
  set (ss := (16 + value_size analog)%nat).
  assert (length (sparse_image analog samples) / ss = length samples)%nat as ->.
  { rewrite Himg, (length_chunks _ ss Hchunks), length_map.
    apply Nat.div_mul. unfold ss. lia. }
  assert (forall j s, samples !! j = Some s ->
            map (sparse_record analog) samples !! j
            = Some (sparse_record analog s)) as Hrec.
  { intros j s Hs. by rewrite list_lookup_fmap, Hs. }
  rewrite Forall_forall in Hrange.
  f_equal.
  - etrans; [|apply (map_seq_lookup 0 (map (fun s => s.1.1) samples))].
    rewrite !length_map. apply map_seq_ext. intros j Hj.
    destruct (lookup_lt_is_Some_2 samples j Hj) as [s Hs].
    rewrite list_lookup_fmap, Hs. cbn [fmap option_fmap option_map default].
    unfold load_int64. rewrite Himg.
    replace (j * ss + 8 * 0)%nat with (j * ss + 0)%nat by lia.
    rewrite (bytes_at_chunk _ ss j 0 8 _ Hchunks (Hrec j s Hs)) by (unfold ss; lia).
    unfold sparse_record. rewrite drop_0, take_app_length'
      by (by rewrite length_le_bytes).
    apply le_int64. apply (Hrange s). by eapply list_elem_of_lookup_2.
  - etrans; [|apply (map_seq_lookup 0 (map (fun s => s.1.2) samples))].
    rewrite !length_map. apply map_seq_ext. intros j Hj.
    destruct (lookup_lt_is_Some_2 samples j Hj) as [s Hs].
    rewrite list_lookup_fmap, Hs. cbn [fmap option_fmap option_map default].
    unfold load_int64. rewrite Himg.
    replace (j * ss + 8 * 1)%nat with (j * ss + 8)%nat by lia.
    rewrite (bytes_at_chunk _ ss j 8 8 _ Hchunks (Hrec j s Hs)) by (unfold ss; lia).
    unfold sparse_record.
    rewrite drop_app_length' by (by rewrite length_le_bytes).
    rewrite take_app_length' by (by rewrite length_le_bytes).
    apply le_int64. apply (Hrange s). by eapply list_elem_of_lookup_2.
  - unfold sample_vector. destruct analog.
    + f_equal.
      etrans; [|apply (map_seq_lookup 0 (map snd samples))].
      rewrite !length_map. apply map_seq_ext. intros j Hj.
      destruct (lookup_lt_is_Some_2 samples j Hj) as [s Hs].
      rewrite list_lookup_fmap, Hs. cbn [fmap option_fmap option_map default].
      unfold load_float. rewrite Himg.
      rewrite (bytes_at_chunk _ ss j 16 4 _ Hchunks (Hrec j s Hs))
        by (unfold ss, value_size, sizeof_float; lia).
      unfold sparse_record. rewrite app_assoc, drop_app_length'
        by (rewrite length_app, !length_le_bytes; lia).
      rewrite firstn_all2 by (rewrite length_le_bytes; unfold value_size, sizeof_float; lia).
      apply le_value_small. apply (Hrange s). by eapply list_elem_of_lookup_2.
    + f_equal.
      etrans; [|apply (map_seq_lookup x00 (map byte_of (map snd samples)))].
      rewrite !length_map. apply map_seq_ext. intros j Hj.
      destruct (lookup_lt_is_Some_2 samples j Hj) as [s Hs].
      rewrite !list_lookup_fmap, Hs. cbn [fmap option_fmap option_map default].
      unfold load_bool. rewrite Himg.
      rewrite (lookup_chunk _ ss j 16 _ Hchunks (Hrec j s Hs))
        by (unfold ss, value_size, sizeof_bool; lia).
      unfold sparse_record. rewrite app_assoc, lookup_app_r
        by (rewrite length_app, !length_le_bytes; lia).
      rewrite length_app, !length_le_bytes. done.
Qed.

(** The values read back from the dense image of a list of values. *)
Lemma dense_image_values analog values cap :
  acap cap = analog ->
  Forall (fun v => 0 <= v < 256 ^ Z.of_nat (value_size analog)) values ->
  load_densev1 (dense_image analog values) cap
  = mkWaveform (m_timescale cap) (m_startTimestamp cap)
      (m_startFemtoseconds cap) (m_triggerPhase cap)
      (map (fun i => to_int64 (Z.of_nat i)) (seq 0 (length values)))
      (map (fun _ => 1) (seq 0 (length values)))
      true (sample_vector analog values).
Proof.
  intros Hkind Hrange.
  pose proof (dense_image_chunks analog values) as Hchunks.
  pose proof (value_size_pos analog) as Hvs.
  rewrite load_densev1_eq. cbv zeta. rewrite Hkind.
  assert ((if analog then 4 else 1)%nat = value_size analog) as Hsize
    by (by destruct analog).
  assert (length (dense_image analog values) / (if analog then 4 else 1)
          = length values)%nat as ->.
  { unfold dense_image. rewrite (length_chunks _ _ Hchunks), length_map, Hsize.
    apply Nat.div_mul. lia. }
  assert (forall j v, values !! j = Some v ->
            map (le_bytes (value_size analog)) values !! j
            = Some (le_bytes (value_size analog) v)) as Hrec.
  { intros j v Hv. by rewrite list_lookup_fmap, Hv. }
  rewrite Forall_forall in Hrange.
  f_equal. unfold sample_vector, dense_image. destruct analog.
  - f_equal. etrans; [|apply (map_seq_lookup 0 values)].
    apply map_seq_ext. intros j Hj.
    destruct (lookup_lt_is_Some_2 values j Hj) as [v Hv].
    rewrite Hv. cbn [default]. unfold load_float.
    replace (j * 4)%nat with (j * value_size true + 0)%nat
      by (unfold value_size, sizeof_float; lia).
    rewrite (bytes_at_chunk _ _ j 0 4 _ Hchunks (Hrec j v Hv))
      by (unfold value_size, sizeof_float; lia).
    rewrite drop_0, firstn_all2 by (rewrite length_le_bytes; unfold value_size, sizeof_float; lia).
    apply le_value_small. apply (Hrange v). by eapply list_elem_of_lookup_2.
  - f_equal. etrans; [|apply (map_seq_lookup x00 (map byte_of values))].
    rewrite !length_map. apply map_seq_ext. intros j Hj.
    destruct (lookup_lt_is_Some_2 values j Hj) as [v Hv].
    rewrite list_lookup_fmap, Hv. cbn [fmap option_fmap option_map default].
    unfold load_bool.
    replace (j * 1)%nat with (j * value_size false + 0)%nat
      by (unfold value_size, sizeof_bool; lia).
    rewrite (lookup_chunk _ _ j 0 _ Hchunks (Hrec j v Hv))
      by (unfold value_size, sizeof_bool; lia).
    done.
Qed.

(** X18.  Both formats read back what the format description says is
    stored.  For samples whose offsets and durations fit 64 bits and whose
    values fit the value size, the sparsev1 loader returns, from the image
    of the samples, exactly their offsets, durations and values, and the
    densev1 loader returns, from the image of the values, exactly the
    values.  When the samples are dense (offset [j] is [j] and every duration
    is 1) the two loaders leave the same waveform, dense flag included. *)
Theorem formats_round_trip analog (samples : list (Z * Z * Z)) cap :
  acap cap = analog ->
  (1 <= length samples)%nat ->
  Z.of_nat (length samples) < 2 ^ 63 ->
  Forall (fun s => - 2 ^ 63 <= s.1.1 < 2 ^ 63 /\ - 2 ^ 63 <= s.1.2 < 2 ^ 63
                   /\ 0 <= s.2 < 256 ^ Z.of_nat (value_size analog)) samples ->
  (exists w,
     DoLoadWaveformDataForScope (Some (sparse_image analog samples))
       "sparsev1" cap = Some (mkLoader w 1 1 [])
     /\ m_offsets w = map (fun s => s.1.1) samples
     /\ m_durations w = map (fun s => s.1.2) samples
     /\ m_samples w = sample_vector analog (map snd samples))
  /\ (exists w,
        DoLoadWaveformDataForScope
          (Some (dense_image analog (map snd samples))) "densev1" cap
        = Some (mkLoader w 1 1 [])
        /\ m_samples w = sample_vector analog (map snd samples))
  /\ ((forall j s, samples !! j = Some s -> s.1.1 = Z.of_nat j /\ s.1.2 = 1) ->
      DoLoadWaveformDataForScope (Some (sparse_image analog samples))
        "sparsev1" cap
      = DoLoadWaveformDataForScope
          (Some (dense_image analog (map snd samples))) "densev1" cap).
Proof.
  intros Hkind Hn Hfit Hrange.
  pose proof (sparse_image_records analog samples cap Hkind Hrange) as Hrec.
  assert (Forall (fun v => 0 <= v < 256 ^ Z.of_nat (value_size analog))
            (map snd samples)) as Hvals.
  { apply Forall_fmap. eapply Forall_impl; [exact Hrange|]. by intros s (_ & _ & ?). }
  pose proof (dense_image_values analog (map snd samples) cap Hkind Hvals)
    as Hdense.
  rewrite length_map in Hdense.
  destruct (sparse_image_chunks analog samples) as [Himg Hchunks].
  pose proof (value_size_pos analog) as Hvs.
  assert (length (sparse_image analog samples) / samplesize cap
          = length samples)%nat as Hcount.
  { rewrite samplesize_value, Hkind, Himg,
      (length_chunks _ _ Hchunks), length_map.
    apply Nat.div_mul. lia. }
  destruct (sparse_dense_check_spec (length samples)
              (sparse_read_records (sparse_image analog samples) cap))
    as (w & Hw & Hcases & Hflag).
  { rewrite Hrec. cbn. by rewrite length_map. }
  { rewrite Hrec. cbn. by rewrite length_map. }
  { done. }
  { done. }
  assert (DoLoadWaveformDataForScope (Some (sparse_image analog samples))
            "sparsev1" cap = Some (mkLoader w 1 1 [])) as Hsparse.
  { unfold DoLoadWaveformDataForScope, load_sparsev1.
    rewrite bool_decide_eq_true_2 by done. rewrite Hcount, Hw. done. }
  assert (DoLoadWaveformDataForScope
            (Some (dense_image analog (map snd samples))) "densev1" cap
          = Some (mkLoader (load_densev1 (dense_image analog (map snd samples))
                              cap) 1 1 [])) as Hd.
  { unfold DoLoadWaveformDataForScope.
    rewrite bool_decide_eq_false_2 by done.
    rewrite bool_decide_eq_true_2 by done. done. }
  split; [|split].
  - exists w. split; [exact Hsparse|].
    destruct Hcases as [->| ->]; rewrite Hrec; done.
  - eexists. split; [exact Hd|]. by rewrite Hdense.
  - intros Hdensely. rewrite Hsparse, Hd. do 2 f_equal.
    assert (map (fun s : Z * Z * Z => s.1.1) samples
            = map (fun i => to_int64 (Z.of_nat i)) (seq 0 (length samples)))
      as Ho.
    { etrans; [symmetry; apply (map_seq_lookup 0)|].
      rewrite length_map. apply map_seq_ext. intros j Hj.
      destruct (lookup_lt_is_Some_2 samples j Hj) as [s Hs].
      rewrite list_lookup_fmap, Hs. cbn.
      rewrite to_int64_small by lia. by destruct (Hdensely j s Hs). }
    assert (map (fun s : Z * Z * Z => s.1.2) samples
            = map (fun _ => 1) (seq 0 (length samples))) as Hdu.
    { etrans; [symmetry; apply (map_seq_lookup 0)|].
      rewrite length_map. apply map_seq_ext. intros j Hj.
      destruct (lookup_lt_is_Some_2 samples j Hj) as [s Hs].
      rewrite list_lookup_fmap, Hs. cbn. by destruct (Hdensely j s Hs). }
    assert (m_densePacked w = true) as Hset.
    { apply Hflag. right. rewrite Hrec. unfold endpoints_dense.
      cbn [m_offsets m_durations]. rewrite Ho, Hdu, length_map, length_seq.
      rewrite !lookup_map_seq by lia.
      rewrite !to_int64_small by lia. done. }
    rewrite Hdense, <- Ho, <- Hdu.
    destruct Hcases as [E|E]; rewrite E in Hset |- *; rewrite Hrec in Hset |- *;
      cbn in Hset |- *; [by rewrite Hset|done].
Qed.

(** Two dense analog samples. *)
Lemma formats_round_trip_witness :
  DoLoadWaveformDataForScope
    (Some (sparse_image true [(0, 1, 1069547520); (1, 1, 1073741824)]))
    "sparsev1" empty_analog
  = DoLoadWaveformDataForScope
      (Some (dense_image true [1069547520; 1073741824])) "densev1"
      empty_analog.
Proof.
  apply (formats_round_trip true [(0, 1, 1069547520); (1, 1, 1073741824)]
           empty_analog).
  - reflexivity.
  - simpl. lia.
  - simpl. lia.
  - repeat constructor; cbn; lia.
  - intros [|[|j]] s Hs; [| |done]; injection Hs as <-; done.
Defined.

End ImageFacts.

(* ===================================================================== *)
(** * Reading a body file in blocks                                        *)
(* ===================================================================== *)

Section ReadFacts.

Import Codec.

Lemma read_loop_run (k : nat) (fuel : nat) (rem off : Z) :
  0 <= rem -> rem / megabyte = Z.of_nat k -> (k < fuel)%nat ->
  read_loop fuel rem megabyte off
  = Some (map (fun i => (off + Z.of_nat i * megabyte, megabyte)) (seq 0 k)
          ++ (if rem mod megabyte =? 0 then []
              else [(off + Z.of_nat k * megabyte, rem mod megabyte)])).
Proof.
  assert (0 < megabyte) as HM by done.
  revert fuel rem off. induction k as [|k IH]; intros fuel rem off Hrem Hq Hfuel.
  - assert (rem < megabyte) as Hlt.
    { apply Z.div_small_iff in Hq; lia. }
    rewrite Z.mod_small by lia. cbn [seq map app].
    destruct fuel as [|fuel]; [lia|]. cbn [read_loop].
    destruct (Z.ltb_spec 0 rem) as [Hpos|Hzero].
    + destruct (Z.ltb_spec rem megabyte); [|lia].
      destruct (Z.eqb_spec rem 0); [lia|].
      rewrite Z.sub_diag. destruct fuel; cbn; do 3 f_equal; lia.
    + assert (rem = 0) as -> by lia. done.
  - assert (megabyte <= rem) as Hge.
    { destruct (Z.lt_ge_cases rem megabyte) as [H|H]; [|done].
      rewrite Z.div_small in Hq by lia. lia. }
    destruct fuel as [|fuel]; [lia|]. cbn [read_loop].
    destruct (Z.ltb_spec 0 rem); [|lia].
    destruct (Z.ltb_spec rem megabyte); [lia|].
    rewrite (IH fuel (rem - megabyte) (off + megabyte)).
    + cbn [mbind option_bind]. f_equal.
      replace ((rem - megabyte) mod megabyte) with (rem mod megabyte).
      2:{ replace (rem - megabyte) with (rem + (-1) * megabyte) by lia.
          by rewrite Z.mod_add. }
      cbn [seq map app]. rewrite <- seq_shift, map_map.
      f_equal; [f_equal; lia|]. f_equal.
      * apply map_ext. intros i. f_equal. lia.
      * destruct (rem mod megabyte =? 0); [done|]. do 2 f_equal. lia.
    + lia.
    + replace (rem - megabyte) with (rem + (-1) * megabyte) by lia.
      rewrite Z.div_add by lia. lia.
    + lia.
Qed.

(** X19.  Reading a file of [len >= 0] bytes in blocks ends after one pass
    per started megabyte.  The reads follow each other without gap or
    overlap from offset 0, every read asks for a full megabyte except
    possibly the last, no read asks for nothing, and the sizes add up to
    [len]. *)
Theorem read_in_blocks_covers (len : Z) (fuel : nat) :
  0 <= len -> (Z.to_nat (len / megabyte) < fuel)%nat ->
  exists blocks,
    read_in_blocks fuel len = Some blocks
    /\ blocks
       = map (fun i => (Z.of_nat i * megabyte, megabyte))
           (seq 0 (Z.to_nat (len / megabyte)))
         ++ (if len mod megabyte =? 0 then []
             else [(len / megabyte * megabyte, len mod megabyte)])
    /\ (forall i o s, blocks !! i = Some (o, s) ->
          o = Z.of_nat i * megabyte /\ 0 < s <= megabyte
          /\ (s < megabyte -> S i = length blocks))
    /\ foldr (fun b acc => b.2 + acc) 0 blocks = len.
Proof.
  intros Hlen Hfuel. assert (0 < megabyte) as HM by done.
  pose proof (Z.div_pos len megabyte Hlen HM) as Hq.
  pose proof (Z.mod_pos_bound len megabyte HM) as Hr.
  pose proof (Z.div_mod len megabyte ltac:(lia)) as Hdm.
  set (k := Z.to_nat (len / megabyte)) in *.
  assert (len / megabyte = Z.of_nat k) as Hk by lia.
  eexists. split; [|split; [reflexivity|]].
  - unfold read_in_blocks. rewrite (read_loop_run k) by done.
    rewrite Hk. f_equal.
  - split.
    + intros i o s Hi. apply lookup_app_Some in Hi as [Hi|[Hge Hi]].
      * apply list_lookup_fmap_Some in Hi as (j & E & Hj).
        injection E as -> ->.
        apply lookup_seq in Hj as [-> Hj]. split; [done|]. split; [lia|lia].
      * rewrite length_map, length_seq in Hge, Hi.
        destruct (Z.eqb_spec (len mod megabyte) 0); [by destruct (i - k)%nat|].
        destruct (i - k)%nat as [|d] eqn:Ed; [|by destruct d].
        injection Hi as <- <-. assert (i = k) as -> by lia.
        split; [lia|]. split; [lia|]. intros _.
        rewrite length_app, length_map, length_seq. cbn. lia.
    + assert (forall n (l : list (Z * Z)),
                foldr (fun b acc => b.2 + acc) 0
                  (map (fun i => (Z.of_nat i * megabyte, megabyte)) (seq 0 n) ++ l)
                = Z.of_nat n * megabyte + foldr (fun b acc => b.2 + acc) 0 l)
        as Hsum.
      { intros n l. generalize 0%nat. induction n as [|n IH]; intros a; [done|].
        cbn [seq map app foldr snd]. rewrite IH. lia. }
      rewrite Hsum. destruct (Z.eqb_spec (len mod megabyte) 0); cbn; lia.
Qed.

(** A file of two and a half megabytes. *)
Lemma read_in_blocks_covers_witness :
  read_in_blocks 3 2621440
  = Some [(0, 1048576); (1048576, 1048576); (2097152, 524288)].
Proof.
  destruct (read_in_blocks_covers 2621440 3) as (blocks & -> & -> & _);
    [done|vm_compute; lia|].
  reflexivity.
Defined.

End ReadFacts.

(* ===================================================================== *)
(** * The recently used list and the session names                        *)
(* ===================================================================== *)

Section SessionFacts.

Import Session.

Lemma elem_of_in_key_order (m : RecentlyUsed) path time :
  (path, time) ∈ in_key_order m <-> m !! path = Some time.
Proof.
  unfold in_key_order. rewrite merge_sort_Permutation.
  apply elem_of_map_to_list.
Qed.

Lemma oldest_fold (l : list (string * Z)) (init : string * Z) :
  let r := foldl (fun oldest it => if it.2 <? oldest.2 then it else oldest)
             init l in
  (r = init \/ (r ∈ l /\ r.2 < init.2))
  /\ r.2 <= init.2
  /\ (forall it, it ∈ l -> r.2 <= it.2).
Proof.
  revert init. induction l as [|it l IH]; intros init; cbn [foldl].
  - split; [by left|]. split; [lia|]. intros it H. inversion H.
  - cbv zeta in IH.
    destruct (IH (if it.2 <? init.2 then it else init)) as (Hin & Hle & Hall).
    set (r := foldl _ _ l) in *.
    destruct (Z.ltb_spec it.2 init.2) as [Hlt|Hge].
    + split; [|split].
      * right. destruct Hin as [->|[Hin ?]]; [split; [left|done]|].
        split; [by right|lia].
      * lia.
      * intros it' [->|Hin']%elem_of_cons; [done|by apply Hall].
    + split; [|split].
      * destruct Hin as [->|[Hin ?]]; [by left|]. right. split; [by right|done].
      * done.
      * intros it' [->|Hin']%elem_of_cons; [lia|by apply Hall].
Qed.

(** What the inner loop finds: nothing, when no entry is older than [now],
    and otherwise an entry of the map that is older than [now] and as old
    as any. *)
Lemma find_oldest_spec now (m : RecentlyUsed) :
  (find_oldest now m = (EmptyString, now)
   /\ forall path time, m !! path = Some time -> now <= time)
  \/ (m !! (find_oldest now m).1 = Some (find_oldest now m).2
      /\ (find_oldest now m).2 < now
      /\ forall path time, m !! path = Some time ->
           (find_oldest now m).2 <= time).
Proof.
  unfold find_oldest.
  destruct (oldest_fold (in_key_order m) (EmptyString, now)) as (Hin & Hle & Hall).
  set (r := foldl _ _ _) in *. cbn [snd] in *.
  assert (forall path time, m !! path = Some time -> r.2 <= time) as Hall'.
  { intros path time H%elem_of_in_key_order. by apply Hall in H. }
  destruct Hin as [E|[Hin Hlt]].
  - left. split; [done|]. intros path time H. apply Hall' in H.
    by rewrite E in H.
  - right. destruct r as [p t]. apply elem_of_in_key_order in Hin.
    split; [done|]. split; [done|]. exact Hall'.
Qed.

Lemma evict_stuck now (m : RecentlyUsed) :
  (10 < size (filter (stays now) m))%nat ->
  forall fuel, evict fuel now m = None.
Proof.
  intros Hbig fuel. revert m Hbig.
  induction fuel as [|fuel IH]; intros m Hbig.
  - cbn [evict].
    pose proof (map_size_filter (stays now) m).
    destruct (Nat.ltb_spec maxRecentInstruments (size m)); [done|].
    unfold maxRecentInstruments in *. lia.
  - cbn [evict].
    pose proof (map_size_filter (stays now) m).
    destruct (Nat.ltb_spec maxRecentInstruments (size m));
      [|unfold maxRecentInstruments in *; lia].
    apply IH. rewrite map_filter_delete_not; [done|].
    intros time Hlook [Hpath Htime]. cbn [fst snd] in *.
    destruct (find_oldest_spec now m) as [[E _]|(Hl & Hlt & _)].
    + rewrite E in Hpath. done.
    + rewrite Hl in Hlook. injection Hlook as <-. lia.
Qed.

Lemma add_current_keeps now scopes (m : RecentlyUsed) path :
  m !! path = Some now -> add_current now scopes m !! path = Some now.
Proof.
  revert m. induction scopes as [|s scopes IH]; intros m H; [done|].
  cbn [add_current foldl]. apply IH. destruct (is_mock s); [done|].
  destruct (decide (connectionString s = path)) as [->|Hne].
  - by rewrite lookup_insert_eq.
  - by rewrite lookup_insert_ne.
Qed.

Lemma add_current_lookup now scopes (m : RecentlyUsed) scope :
  scope ∈ scopes -> is_mock scope = false ->
  add_current now scopes m !! connectionString scope = Some now.
Proof.
  revert m. induction scopes as [|s scopes IH]; intros m Hin Hreal.
  - inversion Hin.
  - apply elem_of_cons in Hin as [->|Hin].
    + cbn [add_current foldl]. rewrite Hreal.
      apply add_current_keeps. by rewrite lookup_insert_eq.
    + cbn [add_current foldl]. by apply IH.
Qed.

Lemma connectionString_not_empty scope : connectionString scope <> EmptyString.
Proof.
  unfold connectionString. destruct (m_nickname scope); discriminate.
Qed.

(** X20.  The eviction loop of the recently-used list can run forever.  An
    entry with a non-empty path whose time is not before [now] is never
    erased, so when more than ten such entries are in the map after the
    current instruments are entered, the loop ends for no amount of fuel.
    This is the case whenever more than ten instruments that are not mocks,
    with different connection strings, are connected. *)
Theorem eviction_never_ends now scopes (m : RecentlyUsed) :
  ((10 < size (filter (stays now) (add_current now scopes m)))%nat ->
   forall fuel, AddCurrentToRecentlyUsedList fuel now scopes m = None)
  /\ (let real := filter (fun scope => is_mock scope = false) scopes in
      NoDup (map connectionString real) -> (10 < length real)%nat ->
      forall fuel, AddCurrentToRecentlyUsedList fuel now scopes m = None).
Proof.
  split.
  - intros Hbig fuel. by apply evict_stuck.
  - cbv zeta. intros Hnodup Hlen fuel. apply evict_stuck.
    set (real := filter (fun scope => is_mock scope = false) scopes) in *.
    set (m1 := add_current now scopes m).
    assert (list_to_set (map connectionString real)
              ⊆@{gset string} dom (filter (stays now) m1)) as Hsub.
    { intros path Hpath. apply elem_of_list_to_set in Hpath.
      apply list_elem_of_fmap in Hpath as (scope & -> & Hin).
      apply list_elem_of_filter in Hin as [Hreal Hin].
      apply elem_of_dom. exists now. apply map_lookup_filter_Some. split.
      - by apply add_current_lookup.
      - split; [apply connectionString_not_empty|]. cbn. lia. }
    apply subseteq_size in Hsub.
    rewrite size_list_to_set, size_dom, length_map in Hsub by done.
    lia.
Qed.

(** Eleven LAN scopes connected at once, into an empty list. *)
Lemma eviction_never_ends_witness :
  AddCurrentToRecentlyUsedList 1000 100 (map lan_scope (seq 0 11)) ∅ = None.
Proof.
  apply (proj2 (eviction_never_ends 100 (map lan_scope (seq 0 11)) ∅)).
  - vm_compute. repeat constructor; rewrite ?elem_of_cons, ?elem_of_nil;
      intuition discriminate.
  - vm_compute. lia.
Defined.

Lemma evict_run now (fuel : nat) (m : RecentlyUsed) :
  (size (filter (not_before now) m) <= 10)%nat ->
  (size m - 10 <= fuel)%nat ->
  exists m' : RecentlyUsed,
    evict fuel now m = Some m'
    /\ size m' = Nat.min (size m) 10
    /\ m' ⊆ m
    /\ (forall path time, m !! path = Some time -> now <= time ->
          m' !! path = Some time)
    /\ (forall path time path' time',
          m !! path = Some time -> m' !! path = None ->
          m' !! path' = Some time' -> time < now /\ time <= time').
Proof.
  revert m. induction fuel as [|fuel IH]; intros m Hnew Hfuel.
  - exists m. cbn [evict].
    destruct (Nat.ltb_spec maxRecentInstruments (size m));
      [unfold maxRecentInstruments in *; lia|].
    unfold maxRecentInstruments in *.
    split; [done|]. split; [lia|]. split; [done|]. split; [done|].
    intros path time path' time' H1 H2. congruence.
  - cbn [evict].
    destruct (Nat.ltb_spec maxRecentInstruments (size m)) as [Hbig|Hsmall];
      unfold maxRecentInstruments in *.
    2:{ exists m. split; [done|]. split; [lia|]. split; [done|]. split; [done|].
        intros path time path' time' H1 H2. congruence. }
    destruct (find_oldest_spec now m) as [[_ Hall]|(Hl & Hlt & Hmin)].
    { exfalso. rewrite map_filter_id in Hnew; [lia|].
      intros path time H. unfold not_before. cbn. by eapply Hall. }
    set (p := (find_oldest now m).1) in *.
    set (t := (find_oldest now m).2) in *.
    destruct (IH (delete p m)) as (m' & Hrun & Hsize & Hsub & Hkeep & Hold).
    { rewrite map_filter_delete.
      pose proof (map_subseteq_size _ _ (delete_subseteq (filter (not_before now) m) p)).
      lia. }
    { rewrite map_size_delete_Some by (by rewrite Hl). lia. }
    rewrite map_size_delete_Some in Hsize by (by rewrite Hl).
    exists m'. split; [exact Hrun|]. split; [lia|]. split.
    { etrans; [exact Hsub|apply delete_subseteq]. }
    split.
    + intros path time H Htime. apply Hkeep; [|done].
      rewrite lookup_delete_ne; [done|]. intros <-.
      rewrite Hl in H. injection H as <-. lia.
    + intros path time path' time' H Hgone Hkept.
      destruct (decide (path = p)) as [->|Hne].
      * rewrite Hl in H. injection H as <-. split; [done|].
        apply (Hmin path'). eapply lookup_weaken; [exact Hkept|].
        etrans; [exact Hsub|apply delete_subseteq].
      * apply (Hold path time path' time'); [|done|done].
        by rewrite lookup_delete_ne.
Qed.

(** X21.  When at most ten entries of the list, after the current
    instruments are entered, carry a time that is not before [now], the
    eviction loop ends (fuel: the number of entries above ten), and the list
    it leaves has the ten entries of the list that were last used, or all of
    them if there were no more than ten: every entry that is dropped is
    older than [now] and at least as old as every entry that is kept, and
    every instrument connected now is in the list with the current time. *)
Theorem eviction_keeps_latest now scopes (m : RecentlyUsed) (fuel : nat) :
  let m1 := add_current now scopes m in
  (size (filter (not_before now) m1) <= 10)%nat ->
  (size m1 - 10 <= fuel)%nat ->
  exists m' : RecentlyUsed,
    AddCurrentToRecentlyUsedList fuel now scopes m = Some m'
    /\ size m' = Nat.min (size m1) 10
    /\ m' ⊆ m1
    /\ (forall scope, scope ∈ scopes -> is_mock scope = false ->
          m' !! connectionString scope = Some now)
    /\ (forall path time path' time',
          m1 !! path = Some time -> m' !! path = None ->
          m' !! path' = Some time' -> time < now /\ time <= time').
Proof.
  cbv zeta. intros Hnew Hfuel.
  destruct (evict_run now fuel (add_current now scopes m) Hnew Hfuel)
    as (m' & Hrun & Hsize & Hsub & Hkeep & Hold).
  exists m'. split; [exact Hrun|]. split; [exact Hsize|]. split; [exact Hsub|].
  split; [|exact Hold].
  intros scope Hin Hreal. apply Hkeep; [|lia]. by apply add_current_lookup.
Qed.

(** One more scope connected at time 100 to a list of twelve older
    entries. *)
Lemma eviction_keeps_latest_witness :
  exists m' : RecentlyUsed,
    AddCurrentToRecentlyUsedList 3 100 [lan_scope 20] twelve_used = Some m'
    /\ size m' = 10%nat
    /\ m' !! connectionString (lan_scope 20) = Some 100.
Proof.
  destruct (eviction_keeps_latest 100 [lan_scope 20] twelve_used 3)
    as (m' & Hrun & Hsize & _ & Hkeep & _).
  - vm_compute. lia.
  - vm_compute. lia.
  - exists m'. split; [exact Hrun|]. split; [exact Hsize|].
    apply Hkeep; [left|reflexivity].
Defined.

Lemma length_append (a b : string) :
  String.length (a +:+ b) = (String.length a + String.length b)%nat.
Proof. induction a as [|c a IH]; [done|]. simpl. by rewrite IH. Qed.

Lemma substring_0_append (a b : string) :
  String.substring 0 (String.length a) (a +:+ b) = a.
Proof.
  induction a as [|c a IH]; [by destruct b|]. simpl. by rewrite IH.
Qed.

Lemma substring_skip (a b : string) n :
  String.substring (String.length a) n (a +:+ b) = String.substring 0 n b.
Proof. induction a as [|c a IH]; [done|]. simpl. exact IH. Qed.

Lemma substring_whole (s : string) n :
  (String.length s <= n)%nat -> String.substring 0 n s = s.
Proof.
  revert n. induction s as [|c s IH]; intros n Hn; [by destruct n|].
  destruct n as [|n]; [simpl in Hn; lia|]. simpl. rewrite IH; [done|].
  simpl in Hn. lia.
Qed.

Lemma substring_length (s : string) n m :
  String.length (String.substring n m s)
  = Nat.min m (String.length s - n).
Proof.
  revert n m. induction s as [|c s IH]; intros n m.
  - destruct n, m; simpl; lia.
  - destruct n as [|n].
    + destruct m as [|m]; [done|]. simpl. rewrite IH. lia.
    + simpl. rewrite IH. done.
Qed.

Lemma substr0_stem (stem rest : string) :
  Z.of_nat (String.length (stem +:+ rest)) < 2 ^ 64 ->
  substr0 (stem +:+ rest)
    (size_sub (String.length (stem +:+ rest)) (String.length rest)) = stem.
Proof.
  intros Hfit. unfold substr0, size_sub. rewrite length_append in *.
  rewrite Z.mod_small by lia.
  replace (N.to_nat _) with (String.length stem) by lia.
  apply substring_0_append.
Qed.

(** X22.  The names used for a saved session (names that a [size_t] can
    measure).  A name that does not contain the extension gets it
    appended, and the data directory is the name followed by "_data".  A
    name that ends in the extension is kept, and the data directory is the
    name without the extension followed by "_data"; a name that contains the
    extension elsewhere is kept as well, and the directory is the name
    without its last thirteen characters followed by "_data".  In all cases
    the file name is at least as long as the extension, so the length
    subtraction does not wrap, and loading the file looks for the data in
    the directory the save wrote them to.  Loading a file whose name is
    shorter than the extension does wrap: the whole name is kept and "_data"
    appended. *)
Theorem session_names (name : string) :
  Z.of_nat (String.length name + String.length extension) < 2 ^ 64 ->
  let file := (OnFileSave_names name).1 in
  let dir := (OnFileSave_names name).2 in
  (lacks_extension name = true ->
   file = name +:+ extension /\ dir = name +:+ "_data")
  /\ (forall stem, name = stem +:+ extension ->
      file = name /\ dir = stem +:+ "_data")
  /\ (lacks_extension name = false ->
      file = name
      /\ dir = String.substring 0
                 (String.length name - String.length extension) name
               +:+ "_data")
  /\ (String.length extension <= String.length file)%nat
  /\ LoadWaveformData_datadir file = dir
  /\ ((String.length name < String.length extension)%nat ->
      LoadWaveformData_datadir name = name +:+ "_data").
Proof.
  intros Hfit. cbv zeta. unfold OnFileSave_names. cbn [fst snd].
  assert (lacks_extension name = false ->
          (String.length extension <= String.length name)%nat) as Hlong.
  { unfold lacks_extension.
    destruct (String.index 0 extension name) as [m|] eqn:E; [|done].
    intros _. apply String.index_correct1 in E.
    apply (f_equal String.length) in E. rewrite substring_length in E.
    lia. }
  split; [|split; [|split; [|split; [|split]]]].
  - intros ->. split; [done|]. unfold data_dir_name.
    rewrite substr0_stem; [done|]. by rewrite length_append.
  - intros stem ->.
    assert (lacks_extension (stem +:+ extension) = false) as ->.
    { unfold lacks_extension.
      destruct (String.index 0 extension (stem +:+ extension)) eqn:E; [done|].
      exfalso.
      apply (String.index_correct3 0 (String.length stem) _ _ E);
        [done|lia|].
      rewrite substring_skip. by apply substring_whole. }
    split; [done|]. unfold data_dir_name. rewrite substr0_stem; [done|].
    rewrite length_append in *. lia.
  - intros Hhas. rewrite Hhas. split; [done|].
    specialize (Hlong Hhas). unfold data_dir_name, substr0, size_sub.
    rewrite Z.mod_small by lia. do 2 f_equal. lia.
  - destruct (lacks_extension name) eqn:E.
    + rewrite length_append. lia.
    + by apply Hlong.
  - done.
  - intros Hshort. unfold LoadWaveformData_datadir, data_dir_name.
    f_equal. unfold substr0, size_sub.
    assert (Z.of_nat (String.length name) < 2 ^ 64) by lia.
    replace ((Z.of_nat (String.length name)
              - Z.of_nat (String.length extension)) mod 2 ^ 64)
      with (Z.of_nat (String.length name)
            - Z.of_nat (String.length extension) + 2 ^ 64).
    2:{ apply Z.mod_unique with (q := -1); [left|];
          change (String.length extension) with 13%nat in *; lia. }
    apply substring_whole. change (String.length extension) with 13%nat in *.
    lia.
Qed.

(** Saving under the name "capture". *)
Lemma session_names_witness :
  OnFileSave_names "capture" = ("capture.scopesession", "capture_data").
Proof.
  destruct (session_names "capture") as (H & _); [vm_compute; done|].
  destruct (H eq_refl) as [Hf Hd].
  rewrite (surjective_pairing (OnFileSave_names "capture")), Hf, Hd.
  reflexivity.
Defined.

End SessionFacts.

(* ===================================================================== *)
(** * The menu of recently used instruments                               *)
(* ===================================================================== *)

Section MenuFacts.

Import Session.

Lemma leb_refl (s : string) : String.leb s s = true.
Proof. by destruct (String.leb_total s s). Qed.

Lemma leb_trans (a b c : string) :
  String.leb a b = true -> String.leb b c = true -> String.leb a c = true.
Proof.
  unfold String.leb. intros Hab Hbc.
  destruct (String.compare a b) eqn:Eab; [| |done].
  - apply String.compare_eq_iff in Eab. by subst.
  - destruct (String.compare b c) eqn:Ebc; [| |done].
    + apply String.compare_eq_iff in Ebc. subst. by rewrite Eab.
    + apply OrderedTypeEx.String_as_OT.cmp_lt in Eab, Ebc.
      pose proof (OrderedTypeEx.String_as_OT.lt_trans _ _ _ Eab Ebc) as H.
      apply OrderedTypeEx.String_as_OT.cmp_lt in H.
      unfold OrderedTypeEx.String_as_OT.cmp in H. by rewrite H.
Qed.

#[local] Instance key_le_transitive : Transitive key_le.
Proof. intros a b c. unfold key_le. apply leb_trans. Qed.

#[local] Instance key_le_total : Total key_le.
Proof. intros a b. unfold key_le. apply String.leb_total. Qed.

Lemma in_key_order_sorted (m : RecentlyUsed) :
  StronglySorted key_le (in_key_order m).
Proof. unfold in_key_order. apply StronglySorted_merge_sort; apply _. Qed.

Lemma in_key_order_length (m : RecentlyUsed) :
  length (in_key_order m) = size m.
Proof.
  unfold in_key_order. rewrite merge_sort_Permutation.
  apply length_map_to_list.
Qed.

(** The path stored under a time by a loop over entries in key order, no
    two with the same key: the greatest path with that time. *)
Lemma reverse_fold (l : list (string * Z)) (rm : gmap Z string) t p :
  StronglySorted key_le l -> NoDup l.*1 ->
  foldl (fun rm it => <[it.2 := it.1]> rm) rm l !! t = Some p
  <-> ((p, t) ∈ l /\ forall p', (p', t) ∈ l -> String.leb p' p = true)
      \/ (rm !! t = Some p /\ forall p', (p', t) ∉ l).
Proof.
  intros Hsorted. revert rm.
  induction Hsorted as [|it l Hsorted IH Hall]; intros rm Hnodup.
  - cbn [foldl]. split.
    + intros H. right. split; [done|]. intros p' Hp'. inversion Hp'.
    + intros [[H _]|[H _]]; [inversion H|done].
  - destruct it as [p0 t0]. cbn [foldl fst snd].
    apply NoDup_cons in Hnodup as [Hfresh Hnodup]. cbn [fmap list_fmap fst] in Hfresh.
    rewrite IH by done.
    rewrite Forall_forall in Hall.
    split.
    + intros [[Hin Hmax]|[Hlook Hnone]].
      * left. split; [by right|].
        intros p' [E|Hp']%elem_of_cons; [|by apply Hmax].
        injection E as -> ->. apply (Hall (p, t0) Hin).
      * destruct (decide (t0 = t)) as [->|Hne].
        -- rewrite lookup_insert_eq in Hlook. injection Hlook as ->.
           left. split; [left|].
           intros p' [E|Hp']%elem_of_cons.
           ++ injection E as ->. apply leb_refl.
           ++ by apply Hnone in Hp'.
        -- rewrite lookup_insert_ne in Hlook by done.
           right. split; [done|].
           intros p' [E|Hp']%elem_of_cons; [congruence|by apply Hnone in Hp'].
    + intros [[Hin Hmax]|[Hlook Hnone]].
      * apply elem_of_cons in Hin as [E|Hin].
        -- injection E as <- <-. right. split; [by rewrite lookup_insert_eq|].
           intros p' Hp'.
           assert (String.leb p' p = true) as H1 by (apply Hmax; by right).
           assert (String.leb p p' = true) as H2 by apply (Hall (p', t) Hp').
           pose proof (String.leb_antisym _ _ H1 H2) as ->.
           apply Hfresh. apply list_elem_of_fmap. by exists (p, t).
        -- left. split; [done|]. intros p' Hp'. apply Hmax. by right.
      * right. split.
        -- rewrite lookup_insert_ne; [done|]. intros ->.
           apply (Hnone p0). left.
        -- intros p' Hp'. apply (Hnone p'). by right.
Qed.

Lemma in_key_order_NoDup (m : RecentlyUsed) : NoDup (in_key_order m).*1.
Proof.
  unfold in_key_order.
  assert ((merge_sort key_le (map_to_list m)).*1 ≡ₚ (map_to_list m).*1) as ->
    by (by rewrite merge_sort_Permutation).
  apply NoDup_fst_map_to_list.
Qed.

(** The path the menu shows for a time: the greatest path, in key order,
    among the entries of the list with that time. *)
Lemma reverse_map_lookup (m : RecentlyUsed) t p :
  reverse_map m !! t = Some p
  <-> m !! p = Some t
      /\ forall p', m !! p' = Some t -> String.leb p' p = true.
Proof.
  unfold reverse_map.
  rewrite reverse_fold by (apply in_key_order_sorted || apply in_key_order_NoDup).
  rewrite elem_of_in_key_order. split.
  - intros [[H Hmax]|[H _]]; [|by rewrite lookup_empty in H].
    split; [done|]. intros p' Hp'. apply Hmax. by apply elem_of_in_key_order.
  - intros [H Hmax]. left. split; [done|].
    intros p' Hp'. apply Hmax. by apply elem_of_in_key_order.
Qed.

Lemma reverse_fold_is_Some (l : list (string * Z)) (rm : gmap Z string) t :
  (is_Some (rm !! t) \/ exists p, (p, t) ∈ l) ->
  is_Some (foldl (fun rm it => <[it.2 := it.1]> rm) rm l !! t).
Proof.
  revert rm. induction l as [|[p0 t0] l IH]; intros rm H; cbn [foldl fst snd].
  - destruct H as [H|[p H]]; [done|inversion H].
  - apply IH. destruct H as [H|[p [E|H]%elem_of_cons]].
    + left. destruct (decide (t0 = t)) as [->|Hne].
      * by rewrite lookup_insert_eq.
      * by rewrite lookup_insert_ne.
    + injection E as -> ->. left. by rewrite lookup_insert_eq.
    + right. by exists p.
Qed.

Lemma elem_of_rev_iff {A} (l : list A) x : x ∈ rev l <-> x ∈ l.
Proof. rewrite !list_elem_of_In. symmetry. apply in_rev. Qed.

Lemma sorted_times_elem (m : RecentlyUsed) t :
  t ∈ sorted_times m <-> exists p, m !! p = Some t.
Proof.
  unfold sorted_times. rewrite merge_sort_Permutation.
  rewrite list_elem_of_fmap. split.
  - intros ([p t'] & -> & H%elem_of_in_key_order). by exists p.
  - intros [p H]. exists (p, t). split; [done|]. by apply elem_of_in_key_order.
Qed.

Lemma sorted_times_length (m : RecentlyUsed) :
  length (sorted_times m) = size m.
Proof.
  unfold sorted_times. rewrite merge_sort_Permutation, length_map.
  apply in_key_order_length.
Qed.

Lemma evict_keeps_stays fuel now (m m' : RecentlyUsed) p t :
  evict fuel now m = Some m' -> m !! p = Some t -> stays now (p, t) ->
  m' !! p = Some t.
Proof.
  revert m. induction fuel as [|fuel IH]; intros m Hrun Hlook Hstays;
    cbn [evict] in Hrun.
  - destruct (maxRecentInstruments <? size m)%nat; [done|congruence].
  - destruct (maxRecentInstruments <? size m)%nat; [|congruence].
    apply (IH _ Hrun); [|done]. rewrite lookup_delete_ne; [done|].
    intros E. destruct Hstays as [Hp Ht]. cbn [fst snd] in *.
    destruct (find_oldest_spec now m) as [[E' _]|(Hl & Hlt & _)].
    + rewrite E' in E. cbn in E. congruence.
    + rewrite E in Hl. rewrite Hl in Hlook. injection Hlook as <-. lia.
Qed.

(** X23.  The menu of recently used instruments.  It has one item per
    entry of the list, ordered from the latest time to the earliest; the
    label of an item is its path up to the first colon.  The path of an
    item is an entry of the list, and paths are picked by time: a path
    appears in the menu exactly when no entry with the same time has a
    greater path, so of the entries that share a time only the one with the
    greatest path is shown, once for each of them.  In particular, of two
    instruments with different connection strings that were entered by the
    same call of [AddCurrentToRecentlyUsedList], at most one is in the
    menu. *)
Theorem instrument_menu (m : RecentlyUsed) :
  let menu := RefreshInstrumentMenu m in
  length menu = size m
  /\ Forall2 (fun item t => m !! item.2 = Some t /\ item.1 = nick_of item.2)
       menu (rev (sorted_times m))
  /\ Sorted Z.le (sorted_times m)
  /\ (forall path, path ∈ menu.*2 <->
        exists t, m !! path = Some t
                  /\ forall path', m !! path' = Some t ->
                       String.leb path' path = true)
  /\ (forall fuel now scopes m0 scope1 scope2,
        AddCurrentToRecentlyUsedList fuel now scopes m0 = Some m ->
        scope1 ∈ scopes -> scope2 ∈ scopes ->
        is_mock scope1 = false -> is_mock scope2 = false ->
        connectionString scope1 <> connectionString scope2 ->
        ~ (connectionString scope1 ∈ menu.*2
           /\ connectionString scope2 ∈ menu.*2)).
Proof.
  cbv zeta. unfold RefreshInstrumentMenu.
  assert (forall t, t ∈ sorted_times m ->
            exists p, reverse_map m !! t = Some p) as Hsome.
  { intros t [p Hp]%sorted_times_elem.
    destruct (reverse_fold_is_Some (in_key_order m) ∅ t) as [p' Hp'].
    - right. exists p. by apply elem_of_in_key_order.
    - by exists p'. }
  assert (forall path,
            path ∈ (map (fun t => let path := default EmptyString
                                                (reverse_map m !! t) in
                                  (nick_of path, path))
                      (rev (sorted_times m))).*2
            <-> exists t, reverse_map m !! t = Some path) as Hmenu.
  { intros path. rewrite list_elem_of_fmap. split.
    - intros ([nick path'] & -> & Hin). cbn [snd].
      apply list_elem_of_fmap in Hin as (t & E & Ht). cbv zeta in E.
      injection E as _ ->. apply (proj1 (elem_of_rev_iff _ _)) in Ht.
      destruct (Hsome t Ht) as [p Hp].
      exists t. by rewrite Hp.
    - intros [t Ht]. exists (nick_of path, path). split; [done|].
      apply list_elem_of_fmap. exists t. split; [by rewrite Ht|].
      apply (proj2 (elem_of_rev_iff _ _)), sorted_times_elem.
      apply reverse_map_lookup in Ht as [Ht _]. by exists path. }
  split; [|split; [|split; [|split]]].
  - by rewrite length_map, length_rev, sorted_times_length.
  - apply Forall2_fmap_l, Forall_Forall2_diag, Forall_forall.
    intros t Ht. cbv zeta. cbn [fst snd]. split; [|done].
    destruct (Hsome t) as [p Hp]; [by apply (proj1 (elem_of_rev_iff _ _))|].
    rewrite Hp. cbn. by apply reverse_map_lookup in Hp as [Hp _].
  - unfold sorted_times. apply Sorted_merge_sort. intros a b. lia.
  - intros path. rewrite Hmenu. split.
    + intros [t Ht]. exists t. by apply reverse_map_lookup.
    + intros [t Ht]. exists t. by apply reverse_map_lookup.
  - intros fuel now scopes m0 s1 s2 Hrun H1 H2 Hr1 Hr2 Hne [Hm1 Hm2].
    apply Hmenu in Hm1 as [t1 [Hl1 Hmax1]%reverse_map_lookup].
    apply Hmenu in Hm2 as [t2 [Hl2 Hmax2]%reverse_map_lookup].
    assert (forall s, s ∈ scopes -> is_mock s = false ->
              m !! connectionString s = Some now) as Hnow.
    { intros s Hs Hr. apply (evict_keeps_stays _ _ _ _ _ _ Hrun).
      - by apply add_current_lookup.
      - split; [apply connectionString_not_empty|]. cbn. lia. }
    rewrite (Hnow s1 H1 Hr1) in Hl1. rewrite (Hnow s2 H2 Hr2) in Hl2.
    injection Hl1 as <-. injection Hl2 as <-.
    apply Hne. apply String.leb_antisym.
    + apply Hmax2. by apply Hnow.
    + apply Hmax1. by apply Hnow.
Qed.

End MenuFacts.

(* ===================================================================== *)
(** * Rename propagation                                                   *)
(* ===================================================================== *)

Section RenameFacts.

Import Scheduler Rename.

Variable g : FilterGraph.
Variable nm : Naming.

#[local] Abbreviation matched chan f :=
  (IsUsingDefaultName nm f && bool_decide (chan ∈ inputs g f)).

Lemma matched_renames (chan f : ptr) :
  f ∈ instances g -> (matched chan f = true <-> renames g nm chan f).
Proof.
  intros Hf. unfold renames. rewrite andb_true_iff, bool_decide_eq_true.
  tauto.
Qed.

Lemma renames_feeds a b : a ∈ instances g -> renames g nm a b -> feeds g a b.
Proof. intros Ha (Hb & _ & Hin). by split. Qed.

Lemma tc_renames_feeds a b :
  a ∈ instances g -> tc (renames g nm) a b -> tc (feeds g) a b.
Proof.
  intros Ha H. induction H as [a b H|a b c H _ IH].
  - apply tc_once. by apply renames_feeds.
  - eapply tc_l; [by apply renames_feeds|]. apply IH. by destruct H.
Qed.

(** A scan that succeeds made every propagation succeed, and its calls are
    the renames of the matching filters and the calls below them. *)
Lemma scan_filters_Some rename (chan : ptr) (fs : list ptr) calls :
  scan_filters g nm rename chan fs = Some calls ->
  (forall f, f ∈ fs -> matched chan f = true -> is_Some (rename f))
  /\ (forall c, c ∈ calls <->
        exists f sub, f ∈ fs /\ matched chan f = true /\ rename f = Some sub
                      /\ (c = SetDefaultName f \/ c ∈ sub)).
Proof.
  revert calls. induction fs as [|f fs IH]; intros calls H; cbn [scan_filters] in H.
  - injection H as <-. split; [intros f Hf; inversion Hf|].
    intros c. split; [intros Hc; inversion Hc|].
    intros (f & sub & Hf & _). inversion Hf.
  - destruct (matched chan f) eqn:Em.
    + destruct (rename f) as [sub|] eqn:Es; simpl in H; [|done].
      destruct (scan_filters g nm rename chan fs) as [more|] eqn:Emore;
        simpl in H; [|done].
      injection H as <-. destruct (IH more eq_refl) as [IH1 IH2]. split.
      * intros f' [->|Hf']%elem_of_cons Hm; [by rewrite Es|by apply IH1].
      * intros c. rewrite elem_of_cons, elem_of_app, IH2. split.
        -- intros [->|[Hc|(f' & sub' & Hf' & Hm & Hs & Hc)]].
           ++ exists f, sub. split; [left|]. auto.
           ++ exists f, sub. split; [left|]. auto.
           ++ exists f', sub'. split; [by right|]. auto.
        -- intros (f' & sub' & [->|Hf']%elem_of_cons & Hm & Hs & Hc).
           ++ rewrite Es in Hs. injection Hs as <-.
              destruct Hc as [->|Hc]; auto.
           ++ right. right. exists f', sub'. auto.
    + destruct (IH calls H) as [IH1 IH2]. split.
      * intros f' [->|Hf']%elem_of_cons Hm; [congruence|by apply IH1].
      * intros c. rewrite IH2. split.
        -- intros (f' & sub' & Hf' & Hrest). exists f', sub'.
           split; [by right|done].
        -- intros (f' & sub' & [->|Hf']%elem_of_cons & Hm & Hrest);
             [congruence|]. by exists f', sub'.
Qed.

Lemma scan_filters_total rename (chan : ptr) (fs : list ptr) :
  (forall f, f ∈ fs -> matched chan f = true -> is_Some (rename f)) ->
  is_Some (scan_filters g nm rename chan fs).
Proof.
  induction fs as [|f fs IH]; intros H; cbn [scan_filters]; [done|].
  destruct IH as [more Hmore]; [intros f' Hf'; apply H; by right|].
  destruct (matched chan f) eqn:Em; [|by rewrite Hmore].
  destruct (H f) as [sub Hs]; [left|done|].
  rewrite Hs, Hmore. done.
Qed.

Lemma scan_filters_ext rename rename' (chan : ptr) (fs : list ptr) :
  (forall f, f ∈ fs -> matched chan f = true -> rename f = rename' f) ->
  scan_filters g nm rename chan fs = scan_filters g nm rename' chan fs.
Proof.
  induction fs as [|f fs IH]; intros H; cbn [scan_filters]; [done|].
  rewrite IH by (intros f' Hf'; apply H; by right).
  destruct (matched chan f) eqn:Em; [|done].
  rewrite H; [done|left|done].
Qed.

Lemma group_calls_no_rename chan f : SetDefaultName f ∉ group_calls nm chan.
Proof.
  unfold group_calls. intros (k & Hk & _)%list_elem_of_fmap. done.
Qed.

Lemma elem_of_group_calls chan k c :
  GroupRenamed k c ∈ group_calls nm chan
  <-> c = chan /\ (k < ngroups nm)%nat /\ IsShowingStats nm k chan = true.
Proof.
  unfold group_calls. rewrite list_elem_of_fmap. split.
  - intros (k' & E & [Hs Hk]%list_elem_of_filter). injection E as -> ->.
    apply elem_of_seq in Hk. split; [done|]. split; [lia|done].
  - intros (-> & Hk & Hs). exists k. split; [done|].
    apply list_elem_of_filter. split; [done|]. apply elem_of_seq. lia.
Qed.

(** More fuel does not change a run that succeeded. *)
Lemma OnChannelRenamed_more_fuel fuel fuel' chan calls :
  OnChannelRenamed g nm fuel chan = Some calls -> (fuel <= fuel')%nat ->
  OnChannelRenamed g nm fuel' chan = Some calls.
Proof.
  revert fuel' chan calls. induction fuel as [|fuel IH];
    intros fuel' chan calls H Hle; [done|].
  destruct fuel' as [|fuel']; [lia|]. cbn [OnChannelRenamed] in *.
  destruct (scan_filters g nm (OnChannelRenamed g nm fuel) chan _)
    as [cs|] eqn:Es; simpl in H; [|done].
  destruct (scan_filters_Some _ _ _ _ Es) as [Hall _].
  rewrite <- (scan_filters_ext (OnChannelRenamed g nm fuel)), Es; [done|].
  intros f Hf Hm. destruct (Hall f Hf Hm) as [sub Hsub].
  rewrite Hsub. symmetry. apply IH; [done|lia].
Qed.

(** The calls of a run that succeeded. *)
Lemma OnChannelRenamed_calls fuel chan calls :
  OnChannelRenamed g nm fuel chan = Some calls ->
  (forall f, SetDefaultName f ∈ calls <-> tc (renames g nm) chan f)
  /\ (forall k c, GroupRenamed k c ∈ calls <->
        (c = chan \/ tc (renames g nm) chan c)
        /\ (k < ngroups nm)%nat /\ IsShowingStats nm k c = true).
Proof.
  revert chan calls. induction fuel as [|fuel IH]; intros chan calls H; [done|].
  cbn [OnChannelRenamed] in H.
  destruct (scan_filters g nm (OnChannelRenamed g nm fuel) chan _)
    as [cs|] eqn:Es; simpl in H; [|done].
  injection H as <-.
  destruct (scan_filters_Some _ _ _ _ Es) as [Hall Hcalls].
  assert (forall y, renames g nm chan y ->
            exists sub, y ∈ elements (instances g) /\ matched chan y = true
                        /\ OnChannelRenamed g nm fuel y = Some sub) as Hstep.
  { intros y Hy. pose proof Hy as (Hinst & _).
    apply matched_renames in Hy; [|done].
    destruct (Hall y) as [sub Hsub]; [by apply elem_of_elements|done|].
    exists sub. split; [by apply elem_of_elements|done]. }
  split.
  - intros f. rewrite elem_of_app, Hcalls. split.
    + intros [(f1 & sub & Hf1%elem_of_elements & Hm & Hs & Hc)|Hc];
        [|by apply group_calls_no_rename in Hc].
      apply matched_renames in Hm; [|done].
      destruct Hc as [E|Hc]; [injection E as ->; by apply tc_once|].
      eapply tc_l; [exact Hm|]. by apply (proj1 (IH _ _ Hs)).
    + intros Htc. left. inversion Htc as [? ? Hr|? y ? Hr Hrest]; subst.
      * destruct (Hstep f Hr) as (sub & Hin & Hm & Hs).
        exists f, sub. auto.
      * destruct (Hstep y Hr) as (sub & Hin & Hm & Hs).
        exists y, sub. split; [done|]. split; [done|]. split; [done|].
        right. by apply (proj1 (IH _ _ Hs)).
  - intros k c. rewrite elem_of_app, Hcalls, elem_of_group_calls. split.
    + intros [(f1 & sub & Hf1%elem_of_elements & Hm & Hs & Hc)|(-> & Hk & Hsh)].
      * apply matched_renames in Hm; [|done].
        destruct Hc as [E|Hc]; [done|].
        apply (proj2 (IH _ _ Hs)) in Hc as ([->|Htc] & Hk & Hsh).
        -- split; [right; by apply tc_once|done].
        -- split; [right; by eapply tc_l|done].
      * split; [by left|done].
    + intros ([->|Htc] & Hk & Hsh); [by right|]. left.
      inversion Htc as [? ? Hr|? y ? Hr Hrest]; subst.
      * destruct (Hstep c Hr) as (sub & Hin & Hm & Hs).
        exists c, sub. split; [done|]. split; [done|]. split; [done|].
        right. apply (proj2 (IH _ _ Hs)). split; [by left|done].
      * destruct (Hstep y Hr) as (sub & Hin & Hm & Hs).
        exists y, sub. split; [done|]. split; [done|]. split; [done|].
        right. apply (proj2 (IH _ _ Hs)). split; [by right|done].
Qed.

Lemma common_fuel (chan : ptr) (fs : list ptr) :
  (forall f, f ∈ fs -> matched chan f = true ->
     exists n, is_Some (OnChannelRenamed g nm n f)) ->
  exists n, forall f, f ∈ fs -> matched chan f = true ->
    is_Some (OnChannelRenamed g nm n f).
Proof.
  induction fs as [|f fs IH]; intros H.
  - exists 0%nat. intros f Hf. inversion Hf.
  - destruct IH as [n Hn]; [intros f' Hf'; apply H; by right|].
    destruct (matched chan f) eqn:Em.
    + destruct (H f) as [n' [sub Hsub]]; [left|done|].
      exists (Nat.max n n'). intros f' [->|Hf']%elem_of_cons Hm.
      * exists sub. eapply OnChannelRenamed_more_fuel; [exact Hsub|lia].
      * destruct (Hn f' Hf' Hm) as [sub' Hsub'].
        exists sub'. eapply OnChannelRenamed_more_fuel; [exact Hsub'|lia].
    + exists n. intros f' [->|Hf']%elem_of_cons Hm; [congruence|by apply Hn].
Qed.

Lemma OnChannelRenamed_from_consumers chan :
  (forall f, renames g nm chan f ->
     exists n, is_Some (OnChannelRenamed g nm n f)) ->
  exists n, is_Some (OnChannelRenamed g nm n chan).
Proof.
  intros H.
  destruct (common_fuel chan (elements (instances g))) as [n Hn].
  { intros f Hf%elem_of_elements Hm. apply H. by apply matched_renames. }
  exists (S n). cbn [OnChannelRenamed].
  destruct (scan_filters_total (OnChannelRenamed g nm n) chan
              (elements (instances g)) Hn) as [cs ->].
  done.
Qed.

Lemma acyclic_sn f : acyclic g -> f ∈ instances g -> sn (feeds g) f.
Proof.
  intros Hacyc Hf. apply tc_finite_sn.
  - intros d. apply Hacyc.
  - exists (elements (instances g)). intros d Hd. apply elem_of_elements.
    clear Hf. induction Hd as [a b H|a b c _ _ IH]; [|done].
    by destruct H as (_ & ? & _).
Qed.

Lemma OnChannelRenamed_filter_total f :
  acyclic g -> f ∈ instances g ->
  exists n, is_Some (OnChannelRenamed g nm n f).
Proof.
  intros Hacyc Hf. pose proof (acyclic_sn f Hacyc Hf) as Hsn.
  induction Hsn as [f _ IH].
  apply OnChannelRenamed_from_consumers. intros y Hy.
  apply IH; [by apply renames_feeds|by destruct Hy].
Qed.

Lemma OnChannelRenamed_needs_consumers fuel chan f :
  renames g nm chan f -> OnChannelRenamed g nm fuel f = None ->
  OnChannelRenamed g nm (S fuel) chan = None.
Proof.
  intros Hr Hnone. cbn [OnChannelRenamed].
  destruct (scan_filters g nm (OnChannelRenamed g nm fuel) chan _)
    as [cs|] eqn:Es; [|done].
  destruct (scan_filters_Some _ _ _ _ Es) as [Hall _].
  destruct (Hall f) as [sub Hsub].
  - apply elem_of_elements. by destruct Hr.
  - apply matched_renames; [by destruct Hr|done].
  - congruence.
Qed.

Lemma OnChannelRenamed_cycle fuel f :
  tc (renames g nm) f f -> OnChannelRenamed g nm fuel f = None.
Proof.
  revert f. induction fuel as [|fuel IH]; intros f Hcyc; [done|].
  inversion Hcyc as [? ? Hr|? y ? Hr Hrest]; subst.
  - apply (OnChannelRenamed_needs_consumers _ _ f Hr). by apply IH.
  - apply (OnChannelRenamed_needs_consumers _ _ y Hr). apply IH.
    eapply tc_transitive; [exact Hrest|by apply tc_once].
Qed.

Lemma OnChannelRenamed_reaches_cycle chan f :
  tc (renames g nm) chan f -> tc (renames g nm) f f ->
  forall fuel, OnChannelRenamed g nm fuel chan = None.
Proof.
  intros Hreach Hcyc. induction Hreach as [a b Hr|a b c Hr _ IH];
    intros [|fuel]; try done.
  - apply (OnChannelRenamed_needs_consumers _ _ b Hr).
    by apply OnChannelRenamed_cycle.
  - apply (OnChannelRenamed_needs_consumers _ _ b Hr). by apply IH.
Qed.

(** X24.  Propagating a rename.  Whenever [OnChannelRenamed] returns, the
    filters it gave a new default name are exactly those reached from the
    renamed channel along inputs through filters with default names (a
    filter with a custom name is not renamed and stops the propagation),
    and the groups it notified are exactly those showing statistics for the
    channel or for one of these filters.  On an acyclic filter graph it
    returns for every channel.  When the rename reaches a filter that, along
    filters with default names, is its own input, the recursion never
    returns. *)
Theorem rename_propagation chan :
  (forall fuel calls,
     OnChannelRenamed g nm fuel chan = Some calls ->
     (forall f, SetDefaultName f ∈ calls <-> tc (renames g nm) chan f)
     /\ (forall k c, GroupRenamed k c ∈ calls <->
           (c = chan \/ tc (renames g nm) chan c)
           /\ (k < ngroups nm)%nat /\ IsShowingStats nm k c = true))
  /\ (acyclic g ->
      exists fuel calls, OnChannelRenamed g nm fuel chan = Some calls)
  /\ (forall f, tc (renames g nm) chan f -> tc (renames g nm) f f ->
        forall fuel, OnChannelRenamed g nm fuel chan = None).
Proof.
  split; [|split].
  - intros fuel calls. apply OnChannelRenamed_calls.
  - intros Hacyc.
    destruct (OnChannelRenamed_from_consumers chan) as [n [calls Hn]].
    + intros f Hf. apply OnChannelRenamed_filter_total; [done|by destruct Hf].
    + by exists n, calls.
  - intros f. apply OnChannelRenamed_reaches_cycle.
Qed.

End RenameFacts.

Section RenameExamples.

Import Scheduler Rename.

Lemma loop_graph_cycle : tc (renames loop_graph default_names) 1%N 1%N.
Proof.
  apply tc_l with 2%N; [|apply tc_once]; (split; [set_solver|]);
    (split; [done|]); cbn; set_solver.
Qed.

(** Renaming channel 100 of the chain and of the loop. *)
Lemma rename_propagation_witness :
  (exists fuel calls,
     OnChannelRenamed chain_graph default_names fuel 100%N = Some calls)
  /\ (forall fuel, OnChannelRenamed loop_graph default_names fuel 100%N = None).
Proof.
  destruct (rename_propagation chain_graph default_names 100%N)
    as (_ & Hterm & _).
  destruct (rename_propagation loop_graph default_names 100%N)
    as (_ & _ & Hloop).
  split.
  - apply Hterm. apply chain_graph_acyclic.
  - apply (Hloop 1%N); [|apply loop_graph_cycle].
    apply tc_once. split; [set_solver|]. split; [done|]. cbn. set_solver.
Defined.

End RenameExamples.

(* ===================================================================== *)
(** * Saving a session: the decisions of [OnFileSave]                     *)
(* ===================================================================== *)

Section SavingFacts.

Import Trigger Session Saving.

Lemma OnStop_eq env w :
  OnStop env w
  = Some (tt, mkWindow false (m_triggerOneShot w) false (m_tPrimaryTrigger w)
                (m_tArm w) (n_pending w) (n_armed w) (n_clock w)
                (trace w ++ stop_events (scopes env))).
Proof. destruct (OnStop_run env w) as (w' & -> & ->). done. Qed.

Lemma existsb_snoc {A} (f : A -> bool) l x :
  existsb f (l ++ [x]) = existsb f l || f x.
Proof. rewrite existsb_app. cbn. by rewrite orb_false_r. Qed.

Lemma write_session_run env ans saveLayout saveWaveforms events names w :
  existsb is_fopen events = false ->
  existsb is_serialize events = false ->
  exists events',
    write_session env ans saveLayout saveWaveforms events names w
    = Some ((events', names),
            mkWindow false (m_triggerOneShot w) false (m_tPrimaryTrigger w)
              (m_tArm w) (n_pending w) (n_armed w) (n_clock w)
              (trace w ++ stop_events (scopes env)))
    /\ existsb is_fopen events' = true
    /\ existsb is_serialize events' = fopen_ok ans && saveWaveforms
    /\ existsb is_question events' = existsb is_question events.
Proof.
  intros Hf Hs. unfold write_session, bind. rewrite OnStop_eq.
  destruct (fopen_ok ans), (fwrite_ok ans), saveWaveforms; cbn [negb andb];
    unfold ret; eexists; (split; [reflexivity|]);
    rewrite ?existsb_snoc, ?Hf, ?Hs; cbn; rewrite ?orb_false_r; done.
Qed.

(** X25.  What a save does.  When the file chooser is shown and not
    confirmed, nothing happens.  Otherwise the session takes the chosen name
    (with the extension) and the data directory derived from it, whether or
    not the save then goes through; the overwrite question is asked exactly
    for a new name whose data directory exists while the session file does
    not; and the save gets as far as opening the session file unless the
    data directory path holds something that is not a directory, the
    question is declined, or the directory cannot be made.  The acquisition
    is stopped ([OnStop]) exactly when the save gets that far, and stays
    stopped; before that the trigger state is untouched.  The waveforms are
    serialized exactly when they were asked for and the session file was
    opened, even when writing the configuration came up short. *)
Theorem save_session env ans saveToCurrentFile saveLayout saveWaveforms
    names w :
  let creatingNew :=
    is_empty (m_currentFileName names) || negb saveToCurrentFile in
  let stopped :=
    mkWindow false (m_triggerOneShot w) false (m_tPrimaryTrigger w)
      (m_tArm w) (n_pending w) (n_armed w) (n_clock w)
      (trace w ++ stop_events (scopes env)) in
  exists events names' w',
    OnFileSave env ans saveToCurrentFile saveLayout saveWaveforms names w
    = Some ((events, names'), w')
    /\ w' = (if existsb is_fopen events then stopped else w)
    /\ existsb is_serialize events
       = existsb is_fopen events && fopen_ok ans && saveWaveforms
    /\ (creatingNew = true -> chosen ans = None ->
        events = [FileChooser (dialog_title saveLayout saveWaveforms)]
        /\ names' = names)
    /\ (forall name,
          (if creatingNew then chosen ans
           else Some (m_currentFileName names)) = Some name ->
          names' = mkNames (OnFileSave_names name).1 (OnFileSave_names name).2
          /\ existsb is_question events
             = creatingNew
               && match data_dir_found ans with
                  | Directory => negb (file_exists ans)
                  | _ => false
                  end
          /\ existsb is_fopen events = reaches_fopen ans creatingNew).
Proof.
  cbv zeta. unfold OnFileSave, reaches_fopen.
  remember (is_empty (m_currentFileName names) || negb saveToCurrentFile)
    as creatingNew eqn:Enew.
  remember (if creatingNew
            then [FileChooser (dialog_title saveLayout saveWaveforms)]
            else []) as first eqn:Efirst.
  assert (existsb is_fopen first = false /\ existsb is_serialize first = false
          /\ existsb is_question first = false) as (Hf0 & Hs0 & Hq0).
  { rewrite Efirst. by destruct creatingNew. }
  destruct (if creatingNew then chosen ans else Some (m_currentFileName names))
    as [name|] eqn:Ename.
  2:{ exists first, names, w. split; [done|]. rewrite Hf0, Hs0.
      split; [done|]. split; [done|]. split; [|done].
      intros Hnew _. by rewrite Efirst, Hnew. }
  set (nm := mkNames (OnFileSave_names name).1 (OnFileSave_names name).2).
  assert (creatingNew = true -> chosen ans = None -> False) as Hchosen.
  { intros Hnew Hnone. rewrite Hnew, Hnone in Ename. done. }
  clear Enew Efirst Ename. unfold check_and_write.
  destruct (data_dir_found ans), creatingNew, (file_exists ans),
    (overwrite_yes ans), (mkdir_ok ans); cbn [negb andb orb];
    first
      [ match goal with |- context [write_session _ _ _ _ ?ev _ _] =>
          destruct (write_session_run env ans saveLayout saveWaveforms ev nm w)
            as (events' & -> & Hf & Hs & Hq);
            [ by rewrite ?existsb_app, ?existsb_snoc, ?Hf0
            | by rewrite ?existsb_app, ?existsb_snoc, ?Hs0
            | ]
        end;
        exists events', nm; eexists; split; [reflexivity|];
        rewrite Hf, Hs; split; [done|]; split; [done|];
        split; [intros ? ?; by exfalso; auto|];
        intros name' E; injection E as <-; split; [done|];
        rewrite Hq, ?existsb_app, ?existsb_snoc, ?Hq0; done
      | eexists _, nm, w; unfold ret; split; [reflexivity|];
        rewrite ?existsb_app, ?existsb_snoc, ?Hf0, ?Hs0, ?Hq0; cbn;
        split; [done|]; split; [done|];
        split; [intros ? ?; by exfalso; auto|];
        intros name' E; injection E as <-; done ].
Qed.

(** A save-as that is turned down on account of the data directory still
    renames the session and does not stop the acquisition; a save whose
    [fwrite] comes up short stops it and writes the waveforms all the
    same. *)
Lemma save_session_witness :
  (exists events w',
     OnFileSave all_offline blocked_save_as false true true
       (mkNames "a.scopesession" "a_data") armed_window
     = Some ((events, mkNames "b.scopesession" "b_data"), w')
     /\ m_triggerArmed w' = true)
  /\ (exists events names' w',
        OnFileSave all_offline short_write true true true
          (mkNames "a.scopesession" "a_data") armed_window
        = Some ((events, names'), w')
        /\ m_triggerArmed w' = false
        /\ existsb is_serialize events = true).
Proof.
  split.
  - destruct (save_session all_offline blocked_save_as false true true
                (mkNames "a.scopesession" "a_data") armed_window)
      as (events & names' & w' & Hrun & Hw & _ & _ & Hname).
    destruct (Hname "b" eq_refl) as (-> & _ & Hfopen).
    rewrite Hfopen in Hw. subst w'.
    exists events, armed_window. split; [exact Hrun|reflexivity].
  - destruct (save_session all_offline short_write true true true
                (mkNames "a.scopesession" "a_data") armed_window)
      as (events & names' & w' & Hrun & Hw & Hser & _ & Hname).
    destruct (Hname "a.scopesession" eq_refl) as (_ & _ & Hfopen).
    rewrite Hfopen in Hw, Hser. subst w'.
    exists events, names'. eexists. split; [exact Hrun|].
    split; [reflexivity|exact Hser].
Defined.

End SavingFacts.
